(** * Dank-Memer heist plugins: payout parsing and aggregation

    Shallow embedding of the payout-text engine of [heistsummary.py] and of
    the heist auto calculator, over a model of the Python run-time pieces
    the code relies on ([str] methods, the [re] patterns that occur, binary64
    [float] arithmetic and formatting, exceptions). *)

From Stdlib Require Import ZArith NArith QArith Qabs List String Ascii Lia.
From Stdlib Require Import Floats.SpecFloat.
From stdpp Require Import base option list gmap.

(** ** The Python run-time model *)
Module Py.

(** *** Exceptions and outcomes *)

Inductive exn := ValueError | OverflowError | ZeroDivisionError.

#[global] Instance exn_eq_dec : EqDecision exn.
Proof. solve_decision. Defined.

(** What evaluating an expression gives: a value, or a raised exception. *)
Inductive outcome (A : Type) : Type :=
  | Ret (a : A)
  | Raise (e : exn).
Arguments Ret {A} a.
Arguments Raise {A} e.

Definition bind {A B} (m : outcome A) (k : A -> outcome B) : outcome B :=
  match m with
  | Ret a => k a
  | Raise e => Raise e
  end.

Definition returns {A} (m : outcome A) : Prop := exists a, m = Ret a.

(** *** Strings: sequences of code points *)

Definition char := N.
Definition str := list char.

(** An ASCII literal of the source as a [str]. *)
Definition lit (s : string) : str := map N_of_ascii (list_ascii_of_string s).

(** U+23E3, the currency glyph of the payout messages. *)
Definition glyph : char := 9187%N.

Definition is_ascii (c : char) : bool := (c <? 128)%N.

Definition is_ascii_digit (c : char) : bool := (48 <=? c)%N && (c <=? 57)%N.

Definition is_ascii_upper (c : char) : bool := (65 <=? c)%N && (c <=? 90)%N.

Definition is_ascii_letter (c : char) : bool :=
  is_ascii_upper c || (97 <=? c)%N && (c <=? 122)%N.

Definition ascii_lower (c : char) : char :=
  if is_ascii_upper c then (c + 32)%N else c.

(** [str.isspace] per character, which is also [\s] of a [str] pattern. *)
Definition is_space (c : char) : bool :=
  ((9 <=? c) && (c <=? 13) || (28 <=? c) && (c <=? 32)
   || (c =? 133) || (c =? 160) || (c =? 5760)
   || (8192 <=? c) && (c <=? 8202)
   || (c =? 8232) || (c =? 8233) || (c =? 8239) || (c =? 8287)
   || (c =? 12288))%N.

(** The line boundaries of [str.splitlines]. *)
Definition is_linebreak (c : char) : bool :=
  ((10 <=? c) && (c <=? 13) || (28 <=? c) && (c <=? 30)
   || (c =? 133) || (c =? 8232) || (c =? 8233))%N.

(** The interpreter's Unicode tables for the code points outside ASCII
    (other than the glyph, which is a caseless symbol): they belong to the
    interpreter, not to the repository, and are a parameter of the model.
    - [uni_decimal c]: the decimal digit value of [c], when [c] is a decimal
      digit (what [\d] tests and what [float] reads);
    - [uni_lower before c after], [uni_upper before c after]: what
      [str.lower] and [str.upper] put for [c] standing between [before]
      (nearest first) and [after];
    - [uni_imatch l c]: whether [c] matches the lower-case ASCII letter [l]
      of a pattern compiled with [re.IGNORECASE]. *)
Class UnicodeData := {
  uni_decimal : char -> option (fin 10);
  uni_lower : str -> char -> str -> str;
  uni_upper : str -> char -> str -> str;
  uni_imatch : char -> char -> bool
}.

(** Tables that know no digit and no cased letter outside ASCII. *)
Definition ascii_tables : UnicodeData := {|
  uni_decimal := fun _ => None;
  uni_lower := fun _ c _ => [c];
  uni_upper := fun _ c _ => [c];
  uni_imatch := fun _ _ => false
|}.

Section Strings.
Context {U : UnicodeData}.

Definition digit_value (c : char) : option N :=
  if is_ascii c then (if is_ascii_digit c then Some (c - 48)%N else None)
  else if (c =? glyph)%N then None
  else (fun d => N.of_nat (fin_to_nat d)) <$> uni_decimal c.

(** [\d] *)
Definition is_digit (c : char) : bool := bool_decide (is_Some (digit_value c)).

Definition lower_char (before : str) (c : char) (after : str) : str :=
  if is_ascii c then [ascii_lower c]
  else if (c =? glyph)%N then [c]
  else uni_lower before c after.

Fixpoint lower_from (before s : str) : str :=
  match s with
  | [] => []
  | c :: after => lower_char before c after ++ lower_from (c :: before) after
  end.

(** [s.lower()] *)
Definition lower (s : str) : str := lower_from [] s.

Definition ascii_upper (c : char) : char :=
  if (97 <=? c)%N && (c <=? 122)%N then (c - 32)%N else c.

Definition upper_char (before : str) (c : char) (after : str) : str :=
  if is_ascii c then [ascii_upper c]
  else if (c =? glyph)%N then [c]
  else uni_upper before c after.

Fixpoint upper_from (before s : str) : str :=
  match s with
  | [] => []
  | c :: after => upper_char before c after ++ upper_from (c :: before) after
  end.

(** [s.upper()] *)
Definition upper (s : str) : str := upper_from [] s.

(** A character [c] of the subject against the character [l] of a pattern
    compiled with [re.IGNORECASE]: letters match up to case, caseless
    characters exactly. *)
Definition imatch (l c : char) : bool :=
  if is_ascii c then (ascii_lower c =? ascii_lower l)%N
  else if (c =? glyph)%N then (l =? glyph)%N
  else if is_ascii_letter l then uni_imatch (ascii_lower l) c
  else (c =? l)%N.

End Strings.

Fixpoint prefix_b (p s : str) : bool :=
  match p, s with
  | [], _ => true
  | _ :: _, [] => false
  | a :: p', b :: s' => (a =? b)%N && prefix_b p' s'
  end.

(** [sub in s] *)
Fixpoint contains (sub s : str) : bool :=
  prefix_b sub s ||
  match s with
  | [] => false
  | _ :: s' => contains sub s'
  end.

(** [s.endswith(suf)] *)
Definition endswith (s suf : str) : bool := prefix_b (rev suf) (rev s).

(** [s[:-n]] *)
Definition drop_last (n : nat) (s : str) : str := take (length s - n) s.

Fixpoint lstrip_by (p : char -> bool) (s : str) : str :=
  match s with
  | [] => []
  | c :: s' => if p c then lstrip_by p s' else s
  end.

Definition rstrip_by (p : char -> bool) (s : str) : str :=
  rev (lstrip_by p (rev s)).

(** [s.strip()] *)
Definition strip (s : str) : str := rstrip_by is_space (lstrip_by is_space s).

Definition mem_char (cs : str) (c : char) : bool := existsb (N.eqb c) cs.

(** [s.rstrip(cs)] *)
Definition rstrip (cs : str) (s : str) : str := rstrip_by (mem_char cs) s.

(** [s.replace(old, new)] for a non-empty [old]; [skip] counts the
    characters of a replaced occurrence still to pass over. *)
Fixpoint replace_from (old new : str) (skip : nat) (s : str) : str :=
  match s with
  | [] => []
  | c :: s' =>
      match skip with
      | S k => replace_from old new k s'
      | O =>
          if prefix_b old s then new ++ replace_from old new (length old - 1) s'
          else c :: replace_from old new 0 s'
      end
  end.

Definition replace (old new s : str) : str := replace_from old new 0 s.

(** [s.splitlines()]; [cur] is the current line, reversed. *)
Fixpoint splitlines_from (cur : str) (s : str) : list str :=
  match s with
  | [] => match cur with [] => [] | _ => [rev cur] end
  | c :: s' =>
      if is_linebreak c then
        rev cur ::
          match s' with
          | c' :: s'' =>
              if (c =? 13)%N && (c' =? 10)%N then splitlines_from [] s''
              else splitlines_from [] s'
          | [] => splitlines_from [] s'
          end
      else splitlines_from (c :: cur) s'
  end.

Definition splitlines (s : str) : list str := splitlines_from [] s.

(** *** Regular expressions

    The fragment of [re] the patterns of the source are written in, with
    the backtracking order of the [re] module: alternatives are tried in
    priority order and the first complete match is taken. *)

Inductive regex :=
  | Chr (p : char -> bool)                  (* one character of a class *)
  | Star (greedy : bool) (p : char -> bool) (* [p*] and [p*?] *)
  | Opt (r : regex)                         (* [r?] *)
  | Cat (r1 r2 : regex)
  | Grp (r : regex)                         (* a capturing group *)
  | Eps.

(** A sequence of patterns. *)
Definition seq (rs : list regex) : regex := foldr Cat Eps rs.

(** [p+] *)
Definition Plus (p : char -> bool) : regex := Cat (Chr p) (Star true p).

Section Matcher.
Context {R : Type}.

(** The continuation receives the rest of the input and the groups. *)
Definition cont := str -> list str -> option R.

Definition or_else (a : option R) (b : option R) : option R :=
  match a with
  | Some r => Some r
  | None => b
  end.

Fixpoint star_greedy (p : char -> bool) (s : str) (caps : list str) (k : cont) : option R :=
  match s with
  | c :: s' =>
      if p c then or_else (star_greedy p s' caps k) (k s caps)
      else k s caps
  | [] => k s caps
  end.

Fixpoint star_lazy (p : char -> bool) (s : str) (caps : list str) (k : cont) : option R :=
  or_else (k s caps)
    match s with
    | c :: s' => if p c then star_lazy p s' caps k else None
    | [] => None
    end.

Fixpoint run (r : regex) (s : str) (caps : list str) (k : cont) : option R :=
  match r with
  | Chr p =>
      match s with
      | c :: s' => if p c then k s' caps else None
      | [] => None
      end
  | Star true p => star_greedy p s caps k
  | Star false p => star_lazy p s caps k
  | Opt r1 => or_else (run r1 s caps k) (k s caps)
  | Cat r1 r2 => run r1 s caps (fun s' caps' => run r2 s' caps' k)
  | Grp r1 =>
      run r1 s caps (fun s' caps' => k s' (caps' ++ [take (length s - length s') s]))
  | Eps => k s caps
  end.

End Matcher.

(** [re.match(r, s)]: the groups of the match at the start of [s]. *)
Definition re_match (r : regex) (s : str) : option (list str) :=
  run r s [] (fun _ caps => Some caps).

(** [r.search(s)]: the groups of the leftmost match. *)
Fixpoint re_search (r : regex) (s : str) : option (list str) :=
  match re_match r s with
  | Some caps => Some caps
  | None =>
      match s with
      | [] => None
      | _ :: s' => re_search r s'
      end
  end.

(** [m.group(i)], groups counted from 1. *)
Definition group (caps : list str) (i : nat) : str := default [] (caps !! (i - 1)).

(** [re.sub(p+, repl, s)] for a character class [p]; [inrun] tells that the
    previous character belonged to the run being replaced. *)
Fixpoint re_sub_plus (p : char -> bool) (repl : str) (inrun : bool) (s : str) : str :=
  match s with
  | [] => []
  | c :: s' =>
      if p c then (if inrun then [] else repl) ++ re_sub_plus p repl true s'
      else c :: re_sub_plus p repl false s'
  end.

(** [r.findall(s)] for a pattern with groups: the groups of the successive
    matches, each search starting where the previous match ended (one
    character further after an empty match). [fuel] bounds the number of
    positions tried. *)
Fixpoint findall_from (fuel : nat) (r : regex) (s : str) : list (list str) :=
  match fuel with
  | O => []
  | S fuel' =>
      match run r s [] (fun rest caps => Some (rest, caps)) with
      | Some (rest, caps) =>
          if (length rest <? length s)%nat then caps :: findall_from fuel' r rest
          else caps :: match s with
                       | [] => []
                       | _ :: s' => findall_from fuel' r s'
                       end
      | None =>
          match s with
          | [] => []
          | _ :: s' => findall_from fuel' r s'
          end
      end
  end.

Definition findall (r : regex) (s : str) : list (list str) :=
  findall_from (S (length s)) r s.

(** A literal of a pattern, character by character. *)
Fixpoint literal (eqc : char -> char -> bool) (l : str) : regex :=
  match l with
  | [] => Eps
  | c :: l' => Cat (Chr (eqc c)) (literal eqc l')
  end.

(** *** Floats: IEEE 754 binary64 *)

Definition float := spec_float.
Definition prec : Z := 53.
Definition emax : Z := 1024.

(** The rational a finite float stands for. *)
Definition finite_Q (s : bool) (m : positive) (e : Z) : Q :=
  let a := if s then Zneg m else Zpos m in
  if (0 <=? e)%Z then inject_Z (a * 2 ^ e) else a # Z.to_pos (2 ^ (- e)).

Definition value (v : float) : option Q :=
  match v with
  | S754_zero _ => Some 0%Q
  | S754_finite s m e => Some (finite_Q s m e)
  | S754_infinity _ | S754_nan => None
  end.

(** Sign bit clear and neither infinite nor NaN. *)
Definition nonneg_finite (v : float) : bool :=
  match v with
  | S754_zero s | S754_finite s _ _ => negb s
  | _ => false
  end.

(** Rounding a rational to the nearest integer, ties to even. *)
Definition round_half_even (q : Q) : Z :=
  let d := Zpos (Qden q) in
  let f := (Qnum q / d)%Z in
  match (2 * (Qnum q mod d) ?= d)%Z with
  | Lt => f
  | Gt => (f + 1)%Z
  | Eq => if Z.even f then f else (f + 1)%Z
  end.

(** [n / d / 2^e] *)
Definition scaled (n d : positive) (e : Z) : Q :=
  if (0 <=? e)%Z then Zpos n # (d * Z.to_pos (2 ^ e))
  else (Zpos n * 2 ^ (- e)) # d.

(** The integer part of the binary logarithm of [n / d]. *)
Definition floor_log2 (n d : positive) : Z :=
  let k := (Z.log2 (Zpos n) - Z.log2 (Zpos d))%Z in
  if Qle_bool 1 (scaled n d k) then k else (k - 1)%Z.

(** The float nearest to [n / d], ties to even, with sign [s]: 53
    significant bits, the exponent of the last bit between -1074 and
    971, infinity beyond. *)
Definition round_to_float (s : bool) (n d : positive) : float :=
  let e := Z.max (floor_log2 n d - 52) (-1074) in
  let m := round_half_even (scaled n d e) in
  let '(m, e) := if (m =? 2 ^ 53)%Z then (2 ^ 52, e + 1)%Z else (m, e) in
  match m with
  | Zpos p => if (e <=? 971)%Z then S754_finite s p e else S754_infinity s
  | _ => S754_zero s
  end.

(** The float nearest to a rational: the rounding of the decimal-to-binary
    conversion. *)
Definition float_of_Q (q : Q) : float :=
  let r := Qred q in
  match Qnum r with
  | Z0 => S754_zero false
  | Zpos n => round_to_float false n (Qden r)
  | Zneg n => round_to_float true n (Qden r)
  end.

(** The float nearest to an integer. *)
Definition float_of_Z (n : Z) : float := binary_normalize prec emax n 0 false.

(** An [int] operand converted to [float]: too large an int raises. *)
Definition float_of_int (n : Z) : outcome float :=
  match float_of_Z n with
  | S754_infinity _ => Raise OverflowError
  | y => Ret y
  end.

(** [x * n] for a float [x] and an int [n]. *)
Definition mul_int (x : float) (n : Z) : outcome float :=
  bind (float_of_int n) (fun y => Ret (SFmul prec emax x y)).

(** [x / n] for a float [x] and an int [n]: [ZeroDivisionError] exactly
    when [n] is zero. *)
Definition truediv_int (x : float) (n : Z) : outcome float :=
  if (n =? 0)%Z then Raise ZeroDivisionError
  else bind (float_of_int n) (fun y => Ret (SFdiv prec emax x y)).

(** [x >= n] for a float [x] and an int [n]: the exact comparison. *)
Definition ge_int (x : float) (n : Z) : bool :=
  match x with
  | S754_nan => false
  | S754_infinity s => negb s
  | S754_zero _ => (n <=? 0)%Z
  | S754_finite s m e => Qle_bool (inject_Z n) (finite_Q s m e)
  end.

(** [int(x)]: truncation toward zero. *)
Definition int_of_float (x : float) : outcome Z :=
  match x with
  | S754_nan => Raise ValueError
  | S754_infinity _ => Raise OverflowError
  | S754_zero _ => Ret 0%Z
  | S754_finite s m e =>
      let a := if (0 <=? e)%Z then (Zpos m * 2 ^ e)%Z else (Zpos m / 2 ^ (- e))%Z in
      Ret (if s then (- a)%Z else a)
  end.

(** *** Decimal numerals *)

Fixpoint digits_fuel (fuel : nat) (n : N) (acc : str) : str :=
  match fuel with
  | O => acc
  | S f =>
      let acc' := (48 + n mod 10)%N :: acc in
      if (n <? 10)%N then acc' else digits_fuel f (n / 10)%N acc'
  end.

(** The decimal digits of a natural number, [str(n)]. *)
Definition digits_of_N (n : N) : str := digits_fuel (S (N.to_nat (N.log2 n))) n [].

(** [str(n)] for an int. *)
Definition str_of_int (n : Z) : str :=
  match n with
  | Zneg p => 45%N :: digits_of_N (Npos p)
  | _ => digits_of_N (Z.to_N n)
  end.

(** Thousands separators, on the reversed digits. *)
Fixpoint group3_rev (ds : str) : str :=
  match ds with
  | a :: b :: c :: ((_ :: _) as rest) => a :: b :: c :: 44%N :: group3_rev rest
  | _ => ds
  end.

Definition group3 (ds : str) : str := rev (group3_rev (rev ds)).

(** [f"{v:.2f}"], and [f"{v:,.2f}"] when [grouping]: the exact value of
    [v] correctly rounded to two decimals. *)
Definition format_2f (grouping : bool) (v : float) : str :=
  let sign (s : bool) : str := if s then [45%N] else [] in
  let body (q : Q) : str :=
    let cents := Z.to_N (round_half_even (100 * q)) in
    let ip := digits_of_N (cents / 100)%N in
    let fp := (cents mod 100)%N in
    (if grouping then group3 ip else ip)
      ++ [46; 48 + fp / 10; 48 + fp mod 10]%N in
  match v with
  | S754_nan => lit "nan"
  | S754_infinity s => sign s ++ lit "inf"
  | S754_zero s => sign s ++ body 0%Q
  | S754_finite s m e => sign s ++ body (finite_Q false m e)
  end.

Section Numerals.
Context {U : UnicodeData}.

(** The number a run of digits denotes, [None] if a character is no digit. *)
Fixpoint digits_value_from (acc : N) (s : str) : option N :=
  match s with
  | [] => Some acc
  | c :: s' =>
      match digit_value c with
      | Some d => digits_value_from (10 * acc + d)%N s'
      | None => None
      end
  end.

(** [s] up to the first dot, and from it on. *)
Fixpoint take_until_dot (s : str) : str :=
  match s with
  | [] => []
  | c :: s' => if (c =? 46)%N then [] else c :: take_until_dot s'
  end.

Fixpoint drop_until_dot (s : str) : str :=
  match s with
  | [] => []
  | c :: s' => if (c =? 46)%N then s else drop_until_dot s'
  end.

(** [float(s)] on the strings the helpers pass to it, which are made of
    digits and dots: digits with at most one dot and at least one digit
    give the nearest float, anything else raises [ValueError]. *)
Definition py_float (s : str) : outcome float :=
  let ip := take_until_dot s in
  let fp := tail (drop_until_dot s) in
  match ip ++ fp, digits_value_from 0 (ip ++ fp) with
  | _ :: _, Some n =>
      Ret (float_of_Q (Z.of_N n # Z.to_pos (10 ^ Z.of_nat (length fp))))
  | _, _ => Raise ValueError
  end.

End Numerals.

(** *** Lists of strings *)

(** [s.split(sep)] for a separator of one character; [cur] is the current
    piece, reversed. *)
Fixpoint split_from (sep : char) (cur : str) (s : str) : list str :=
  match s with
  | [] => [rev cur]
  | c :: s' =>
      if (c =? sep)%N then rev cur :: split_from sep [] s'
      else split_from sep (c :: cur) s'
  end.

Definition split (sep : char) (s : str) : list str := split_from sep [] s.

(** [sep.join(pieces)] *)
Fixpoint join (sep : str) (pieces : list str) : str :=
  match pieces with
  | [] => []
  | [p] => p
  | p :: rest => p ++ sep ++ join sep rest
  end.

(** *** Failures of the command handlers

    Besides the exceptions of the helpers, a handler can fail on an
    attribute of [None] or on a list index out of range. *)
Inductive error := Exn (e : exn) | AttributeError | IndexError.

Inductive result (A : Type) : Type :=
  | Ok (a : A)
  | Err (e : error).
Arguments Ok {A} a.
Arguments Err {A} e.

Definition bind_result {A B} (m : result A) (k : A -> result B) : result B :=
  match m with
  | Ok a => k a
  | Err e => Err e
  end.

Definition of_outcome {A} (m : outcome A) : result A :=
  match m with
  | Ret a => Ok a
  | Raise e => Err (Exn e)
  end.

End Py.

Notation "'let*' x ':=' m 'in' k" := (Py.bind m (fun x => k))
  (at level 10, x pattern, m at level 100, k at level 200, only parsing).

Notation "'let!' x ':=' m 'in' k" := (Py.bind_result m (fun x => k))
  (at level 10, x pattern, m at level 100, k at level 200, only parsing).

(** ** Discord objects, as far as the cogs read them *)

Record embed := {
  title : option Py.str;
  description : option Py.str
}.

Record message := {
  msg_id : Z;
  author_id : Z;
  guild_id : option Z;      (* [message.guild], [None] outside a guild *)
  channel_id : Z;
  content : Py.str;
  embeds : list embed
}.

(** A text channel: its messages, newest first. *)
Record channel := { messages_newest_first : list message }.

(** [channel.history(limit=n, oldest_first=False)] *)
Definition history (ch : channel) (n : nat) : list message :=
  take n (messages_newest_first ch).

(** [x or ''] *)
Definition or_empty (x : option Py.str) : Py.str :=
  match x with
  | Some s => s
  | None => []
  end.

(** ** heistsummary.py *)
Module HeistSummary.
Import Py.

Section Cog.
Context {U : UnicodeData}.

Definition re_num : regex :=                 (* ([\d\.]+) *)
  Grp (Plus (fun c => is_digit c || (c =? 46)%N)).

Definition re_currency : regex :=            (* ([\d\.]+)([kKmMbB]?) *)
  Cat re_num (Grp (Opt (Chr (mem_char (lit "kKmMbB"))))).

Definition parse_currency_value (raw : str) : outcome (option float) :=
  match raw with
  | [] => Ret None
  | _ =>
      let text := strip (replace (lit ",") [] (replace [glyph] [] raw)) in
      match re_match re_currency text with
      | None => Ret None
      | Some groups =>
          let num_str := group groups 1 in
          let suffix := upper (group groups 2) in
          match py_float num_str with
          | Raise ValueError => Ret None
          | Raise e => Raise e
          | Ret base_val =>
              if decide (suffix = lit "K") then
                let* base_val := mul_int base_val 1000 in Ret (Some base_val)
              else if decide (suffix = lit "M") then
                let* base_val := mul_int base_val 1000000 in Ret (Some base_val)
              else if decide (suffix = lit "B") then
                let* base_val := mul_int base_val 1000000000 in Ret (Some base_val)
              else Ret (Some base_val)
          end
      end
  end.

Definition parse_plain_number (raw : str) : outcome (option float) :=
  match raw with
  | [] => Ret None
  | _ =>
      let text := strip (replace (lit ",") [] raw) in
      match re_match re_num text with
      | None => Ret None
      | Some groups =>
          match py_float (group groups 1) with
          | Raise ValueError => Ret None
          | Raise e => Raise e
          | Ret v => Ret (Some v)
          end
      end
  end.

Definition format_number (val : float) : str :=
  let formatted := format_2f true val in
  if endswith formatted (lit ".00") then drop_last 3 formatted
  else rstrip (lit ".") (rstrip (lit "0") formatted).

Definition abbreviate_number (val : float) : outcome str :=
  if ge_int val 1000000000 then
    let* q := truediv_int val 1000000000 in
    let s := format_2f false q in
    Ret ((if endswith s (lit ".00") then drop_last 3 s else s) ++ lit "B")
  else if ge_int val 1000000 then
    let* q := truediv_int val 1000000 in
    let s := format_2f false q in
    Ret ((if endswith s (lit ".00") then drop_last 3 s else s) ++ lit "M")
  else if ge_int val 1000 then
    let* q := truediv_int val 1000 in
    let s := format_2f false q in
    Ret ((if endswith s (lit ".00") then drop_last 3 s else s) ++ lit "K")
  else Ret (format_number val).

Definition DANK_MEMER_ID : Z := 270904126974590976.

(** ([\d,\.]+)\s+user(?:s)? got the payout, re.IGNORECASE *)
Definition count_pattern : regex :=
  seq [ Grp (Plus (fun c => is_digit c || (c =? 44)%N || (c =? 46)%N));
        Plus is_space;
        literal imatch (lit "user");
        Opt (Chr (imatch 115%N));
        literal imatch (lit " got the payout") ].

(** racked up a total.*?<glyph>\s*([\d,\.kmKMbB]+), re.IGNORECASE *)
Definition total_pattern : regex :=
  seq [ literal imatch (lit "racked up a total");
        Star false (fun c => negb (c =? 10)%N);
        Chr (imatch glyph);
        Star true is_space;
        Grp (Plus (fun c => is_digit c || (c =? 44)%N || (c =? 46)%N
                            || imatch 107%N c || imatch 109%N c || imatch 98%N c)) ].

(** The text of a message: its content and the last embed's title and
    description. *)
Definition combined_content (msg : message) : str :=
  match last (embeds msg) with
  | Some last_embed =>
      content msg ++ [10%N] ++ or_empty (title last_embed)
        ++ [10%N] ++ or_empty (description last_embed)
  | None => content msg
  end.

(** The body of [for line in lines], on the two variables it assigns. *)
Definition scan_line (line : str) (total_coins : option float) (payout_count : Z)
  : outcome (option float * Z) :=
  let clean_line := strip (re_sub_plus (mem_char (lit "`*")) [] false line) in
  let* total_coins :=
    match re_search total_pattern clean_line with
    | Some m_tot =>
        let* val := parse_currency_value (glyph :: lit " " ++ group m_tot 1) in
        Ret (match val with Some v => Some v | None => total_coins end)
    | None => Ret total_coins
    end in
  let* payout_count :=
    match re_search count_pattern clean_line with
    | Some m_pay =>
        let* num_val := parse_plain_number (group m_pay 1) in
        match num_val with
        | Some v => int_of_float v
        | None => Ret payout_count
        end
    | None => Ret payout_count
    end in
  Ret (total_coins, payout_count).

Fixpoint scan_lines (lines : list str) (total_coins : option float) (payout_count : Z)
  : outcome (option float * Z) :=
  match lines with
  | [] => Ret (total_coins, payout_count)
  | line :: rest =>
      let* (total_coins, payout_count) := scan_line line total_coins payout_count in
      scan_lines rest total_coins payout_count
  end.

Definition detection : Type := message * float * Z.

(** What one iteration of [for msg in messages] does to [found]: [None]
    when the iteration ends in [continue], before the test of the limit. *)
Definition scan_message (msg : message) (found : list detection)
  : outcome (option (list detection)) :=
  if negb (author_id msg =? DANK_MEMER_ID)%Z then Ret None
  else
    let content := combined_content msg in
    if negb (contains (lit "amazing job everybody") (lower content)) then Ret None
    else
      let lines := splitlines (strip content) in
      let* (total_coins, payout_count) := scan_lines lines None 0 in
      match total_coins with
      | Some total => if (payout_count >? 0)%Z
                      then Ret (Some (found ++ [(msg, total, payout_count)]))
                      else Ret (Some found)
      | None => Ret (Some found)
      end.

Fixpoint scan_messages (messages : list message) (limit : Z) (found : list detection)
  : outcome (list detection) :=
  match messages with
  | [] => Ret found
  | msg :: rest =>
      let* r := scan_message msg found in
      match r with
      | None => scan_messages rest limit found
      | Some found =>
          if (Z.of_nat (length found) >=? limit)%Z then Ret found
          else scan_messages rest limit found
      end
  end.

Definition get_recent_heist_messages (ch : channel) (limit : Z)
  : outcome (list detection) :=
  let* found := scan_messages (history ch 100) limit [] in
  Ret (rev found).

(** The share of each detection, as [heist_summary_slash] and
    [heist_summary_prefix] compute it: [total_coins / payout_count]. *)
Fixpoint each_amounts (found : list detection) : outcome (list (message * Z * float)) :=
  match found with
  | [] => Ret []
  | (msg, total_coins, payout_count) :: rest =>
      let* each_amount := truediv_int total_coins payout_count in
      let* tl := each_amounts rest in
      Ret ((msg, payout_count, each_amount) :: tl)
  end.

(** The two commands up to the rows of the summary: the guard on
    [heists_count], the scan, and the shares. [None] stands for the
    messages sent instead of a summary. *)
Definition heist_summary (ch : channel) (heists_count : Z)
  : outcome (option (list (message * Z * float))) :=
  if (heists_count <? 1)%Z || (heists_count >? 5)%Z then Ret None
  else
    let* found := get_recent_heist_messages ch heists_count in
    match found with
    | [] => Ret None
    | _ => let* rows := each_amounts found in Ret (Some rows)
    end.

(** *** The two commands *)

(** What a command handler does to Discord: a message sent to the channel,
    an embed sent to the channel, the ephemeral answer to the interaction,
    and the deletion of the invoking message (whose failure the handler
    ignores). *)
Inductive action :=
  | Send (text : str)
  | SendEmbed (embed_title embed_description embed_footer : str)
  | Respond (text : str)
  | DeleteInvocation.

(** The names of the heists: [heist_names] cut at "/" and ",", each piece
    stripped, the empty ones dropped. *)
Definition name_list (heist_names : str) : list str :=
  let tmp := replace (lit ",") (lit ",") (replace (lit "/") (lit ",") heist_names) in
  map strip (filter (fun n => strip n <> []) (split 44%N tmp)).

(** [while len(name_list) < len(found): name_list.append("Unnamed Heist")] *)
Definition pad_names (name_list : list str) (found : list detection) : list str :=
  name_list ++ replicate (length found - length name_list) (lit "Unnamed Heist").

(** The link to a message; [msg.guild] is [None] outside a guild. *)
Definition jump_link (msg : message) : result str :=
  match guild_id msg with
  | Some gid =>
      Ok (lit "https://discord.com/channels/" ++ str_of_int gid ++ lit "/"
            ++ str_of_int (channel_id msg) ++ lit "/" ++ str_of_int (msg_id msg))
  | None => Err AttributeError
  end.

(** [for i, (msg, total_coins, payout_count) in enumerate(found)], from
    index [i] on. *)
Fixpoint summary_data (name_list : list str) (i : nat) (found : list detection)
  : result (list (str * str * Z * float)) :=
  match found with
  | [] => Ok []
  | (msg, total_coins, payout_count) :: rest =>
      let! link := jump_link msg in
      let! each_amount := of_outcome (truediv_int total_coins payout_count) in
      let! name := match name_list !! i with
                   | Some n => Ok n
                   | None => Err IndexError
                   end in
      let! tl := summary_data name_list (S i) rest in
      Ok ((name, link, payout_count, each_amount) :: tl)
  end.

Fixpoint summary_lines (items : list (str * str * Z * float)) (emoji : str)
  : outcome (list str) :=
  match items with
  | [] => Ret []
  | (heist_name, link, count, each_got) :: rest =>
      let* each_abbrev := abbreviate_number each_got in
      let* tl := summary_lines rest emoji in
      Ret ((emoji ++ lit " **[" ++ heist_name ++ lit "](" ++ link ++ lit ") - "
              ++ str_of_int count ++ lit " payouts** each got: **" ++ [glyph] ++ lit " "
              ++ each_abbrev ++ lit "**") :: tl)
  end.

Definition build_heist_summary_text (items : list (str * str * Z * float)) (emoji : str)
  : outcome str :=
  let* lines := summary_lines items emoji in
  Ret (join [10%N] lines).

(** [guild.name if guild else "Server"] *)
Definition server_name (guild_name : option str) : str :=
  match guild_name with
  | Some n => n
  | None => lit "Server"
  end.

(** The prefix command, in channel [ch] of the guild named [guild_name]. *)
Definition heist_summary_prefix (ch : channel) (guild_name : option str)
    (heists_count : Z) (heist_names : str) : result (list action) :=
  if (heists_count <? 1)%Z || (heists_count >? 5)%Z then
    Ok [Send (lit "heists_count must be between 1 and 5.")]
  else
    let name_list := name_list heist_names in
    let! found := of_outcome (get_recent_heist_messages ch heists_count) in
    match found with
    | [] => Ok [DeleteInvocation; Send (lit "No heist payouts found in the last 100 messages.")]
    | _ =>
        let name_list := pad_names name_list found in
        let! summary_data := summary_data name_list 0 found in
        let! summary_text := of_outcome (build_heist_summary_text summary_data (lit "-")) in
        let header := lit "**" ++ server_name guild_name ++ lit "'s Heist Summary**" ++ [10%N] in
        Ok [DeleteInvocation; Send (header ++ summary_text)]
    end.

(** The slash command. *)
Definition heist_summary_slash (ch : channel) (guild_name : option str)
    (heists_count : Z) (heist_names : str) (emoji : str) (embedded : bool)
  : result (list action) :=
  if (heists_count <? 1)%Z || (heists_count >? 5)%Z then
    Ok [Respond (lit "heists_count must be between 1 and 5.")]
  else
    let name_list := name_list heist_names in
    let! found := of_outcome (get_recent_heist_messages ch heists_count) in
    match found with
    | [] => Ok [Respond (lit "No heist payouts found in the last 100 messages.")]
    | _ =>
        let name_list := pad_names name_list found in
        let! summary_data := summary_data name_list 0 found in
        let! summary_text := of_outcome (build_heist_summary_text summary_data emoji) in
        if embedded then
          Ok [Respond (lit "Heist summary posted successfully!");
              SendEmbed (server_name guild_name ++ lit "'s Heist Summary") summary_text
                (lit "Use /heist_summary.")]
        else
          let header := lit "**" ++ server_name guild_name ++ lit "'s Heist Summary**"
                          ++ [10%N] in
          Ok [Respond (lit "Heist summary posted successfully!");
              Send (header ++ summary_text)]
    end.

End Cog.
End HeistSummary.

(** ** The heist auto calculator *)
Module HeistCalc.
Import Py.

(** *** The logger *)

Inductive level := DEBUG | INFO | ERROR.

Inductive logarg := ArgStr (s : str) | ArgInt (n : Z) | ArgExn (e : exn).

Record log_record := { lvl : level; fmt : string; args : list logarg }.

(** A computation that logs: the records written, oldest first, and the
    outcome. *)
Definition logged (A : Type) : Type := list log_record * outcome A.

Definition ret {A} (a : A) : logged A := ([], Ret a).

Definition lift {A} (m : outcome A) : logged A := ([], m).

Definition log (l : level) (f : string) (a : list logarg) : logged unit :=
  ([{| lvl := l; fmt := f; args := a |}], Ret tt).

Definition bind_log {A B} (m : logged A) (k : A -> logged B) : logged B :=
  match m with
  | (l, Ret a) => let '(l', r) := k a in (l ++ l', r)
  | (l, Raise e) => (l, Raise e)
  end.

Notation "'let+' x ':=' m 'in' k" := (bind_log m (fun x => k))
  (at level 10, x pattern, m at level 100, k at level 200, only parsing).

(** *** The cog's state *)

(** The values of the configuration file. *)
Inductive pyval := PNone | PBool (b : bool) | PInt (n : Z) | PStr (s : str).

#[global] Instance pyval_eq_dec : EqDecision pyval.
Proof. solve_decision. Defined.

Definition truthy (v : pyval) : bool :=
  match v with
  | PNone => false
  | PBool b => b
  | PInt n => negb (n =? 0)%Z
  | PStr s => match s with [] => false | _ => true end
  end.

Record cog := {
  config_data : gmap str (gmap str pyval);
  processed_messages : gset Z
}.

(** What [on_message] answers the payout message with. With the image
    template the cog sends the generated image and, should that fail,
    the embed. *)
Inductive reply :=
  | ReplyEmbed (descr : str)
  | ReplyImage (payout_count : Z) (each_amount : float) (fallback_descr : str).

Section Cog.
Context {U : UnicodeData}.

Definition re_num : regex :=                 (* ([\d\.]+) *)
  Grp (Plus (fun c => is_digit c || (c =? 46)%N)).

Definition re_currency : regex :=            (* ([\d\.]+)([kKmMbB]?) *)
  Cat re_num (Grp (Opt (Chr (mem_char (lit "kKmMbB"))))).

Definition parse_currency_value (raw : str) : logged (option float) :=
  match raw with
  | [] => ret None
  | _ =>
      let text := strip (replace (lit ",") [] (replace [glyph] [] raw)) in
      match re_match re_currency text with
      | None =>
          let+ _ := log DEBUG "parse_currency_value: No match in '%s'" [ArgStr raw] in
          ret None
      | Some groups =>
          let num_str := group groups 1 in
          let suffix := upper (group groups 2) in
          match py_float num_str with
          | Raise ValueError =>
              let+ _ := log ERROR "parse_currency_value: cannot convert '%s' to float: %s"
                          [ArgStr num_str; ArgExn ValueError] in
              ret None
          | Raise e => lift (Raise e)
          | Ret base_val =>
              if decide (suffix = lit "K") then
                let+ base_val := lift (mul_int base_val 1000) in ret (Some base_val)
              else if decide (suffix = lit "M") then
                let+ base_val := lift (mul_int base_val 1000000) in ret (Some base_val)
              else if decide (suffix = lit "B") then
                let+ base_val := lift (mul_int base_val 1000000000) in ret (Some base_val)
              else ret (Some base_val)
          end
      end
  end.

Definition parse_plain_number (raw : str) : logged (option float) :=
  match raw with
  | [] => ret None
  | _ =>
      let text := strip (replace (lit ",") [] raw) in
      match re_match re_num text with
      | None =>
          let+ _ := log DEBUG "parse_plain_number: No numeric match in '%s'" [ArgStr raw] in
          ret None
      | Some groups =>
          match py_float (group groups 1) with
          | Raise ValueError =>
              let+ _ := log ERROR "parse_plain_number: error converting '%s': %s"
                          [ArgStr (group groups 1); ArgExn ValueError] in
              ret None
          | Raise e => lift (Raise e)
          | Ret v => ret (Some v)
          end
      end
  end.

Definition format_number (val : float) : str :=
  let formatted := format_2f true val in
  if endswith formatted (lit ".00") then drop_last 3 formatted
  else rstrip (lit ".") (rstrip (lit "0") formatted).

Definition abbreviate_number (val : float) : outcome str :=
  if ge_int val 1000000000 then
    let* q := truediv_int val 1000000000 in
    let s := format_2f false q in
    Ret ((if endswith s (lit ".00") then drop_last 3 s else s) ++ lit "B")
  else if ge_int val 1000000 then
    let* q := truediv_int val 1000000 in
    let s := format_2f false q in
    Ret ((if endswith s (lit ".00") then drop_last 3 s else s) ++ lit "M")
  else if ge_int val 1000 then
    let* q := truediv_int val 1000 in
    let s := format_2f false q in
    Ret ((if endswith s (lit ".00") then drop_last 3 s else s) ++ lit "K")
  else Ret (format_number val).

Definition DANK_MEMER_ID : Z := 270904126974590976.

Definition get_guild_config (self : cog) (guild_id : Z) : cog * gmap str pyval :=
  let str_gid := str_of_int guild_id in
  let cfg := default ∅ (config_data self !! str_gid) in
  let cfg := match cfg !! lit "template" with
             | Some _ => cfg
             | None => <[lit "template" := PStr (lit "text")]> cfg
             end in
  ({| config_data := <[str_gid := cfg]> (config_data self);
      processed_messages := processed_messages self |}, cfg).

(** racked up a total.*?<glyph>\s*([\d,\.kmKMbB]+), re.IGNORECASE *)
Definition total_pattern : regex :=
  seq [ literal imatch (lit "racked up a total");
        Star false (fun c => negb (c =? 10)%N);
        Chr (imatch glyph);
        Star true is_space;
        Grp (Plus (fun c => is_digit c || (c =? 44)%N || (c =? 46)%N
                            || imatch 107%N c || imatch 109%N c || imatch 98%N c)) ].

(** ([\d,\.]+)\s+user(?:s)? got the payout, re.IGNORECASE *)
Definition payout_pat : regex :=
  seq [ Grp (Plus (fun c => is_digit c || (c =? 44)%N || (c =? 46)%N));
        Plus is_space;
        literal imatch (lit "user");
        Opt (Chr (imatch 115%N));
        literal imatch (lit " got the payout") ].

Definition combined_content (msg : message) : str :=
  match last (embeds msg) with
  | Some last_embed =>
      content msg ++ [10%N] ++ or_empty (title last_embed)
        ++ [10%N] ++ or_empty (description last_embed)
  | None => content msg
  end.

(** The body of [for line in lines], on the two variables it assigns. *)
Definition scan_line (line : str) (total_coins : option float) (payout_count : Z)
  : logged (option float * Z) :=
  let clean_line := strip (re_sub_plus (mem_char (lit "`*")) [] false line) in
  let+ total_coins :=
    match re_search total_pattern clean_line with
    | Some m_tot =>
        let+ val := parse_currency_value (glyph :: lit " " ++ group m_tot 1) in
        ret (match val with Some v => Some v | None => total_coins end)
    | None => ret total_coins
    end in
  let+ payout_count :=
    match re_search payout_pat clean_line with
    | Some m_pay =>
        let+ num_val := parse_plain_number (group m_pay 1) in
        match num_val with
        | Some v => lift (int_of_float v)
        | None => ret payout_count
        end
    | None => ret payout_count
    end in
  ret (total_coins, payout_count).

Fixpoint scan_lines (lines : list str) (total_coins : option float) (payout_count : Z)
  : logged (option float * Z) :=
  match lines with
  | [] => ret (total_coins, payout_count)
  | line :: rest =>
      let+ (total_coins, payout_count) := scan_line line total_coins payout_count in
      scan_lines rest total_coins payout_count
  end.

(** [on_message] from the combined text on, for an enabled guild with
    configuration [cfg]. *)
Definition detect_and_reply (cfg : gmap str pyval) (message : message)
  : logged (option reply) :=
  let content := combined_content message in
  if negb (contains (lit "amazing job everybody") (lower content)) then ret None
  else
    let lines := splitlines (strip content) in
    let+ (total_coins, payout_count) := scan_lines lines None 0 in
    match total_coins with
    | Some total_coins =>
        if (payout_count =? 0)%Z then
          let+ _ := log DEBUG "HeistCalc: Found 'amazing job' message but no numeric data." [] in
          ret None
        else
          let+ each_amount := lift (truediv_int total_coins payout_count) in
          let template_choice := default (PStr (lit "text")) (cfg !! lit "template") in
          let+ abbr := lift (abbreviate_number each_amount) in
          let descr := str_of_int payout_count ++ lit " Person Got: " ++ [glyph]
                         ++ lit " " ++ format_number each_amount
                         ++ lit " **(" ++ abbr ++ lit ")**" in
          if decide (template_choice = PStr (lit "image")) then
            ret (Some (ReplyImage payout_count each_amount descr))
          else
            let+ _ := log INFO "HeistCalc: Text embed sent (guild %s, channel %s)."
                        [ArgInt (default 0%Z (guild_id message)); ArgInt (channel_id message)] in
            ret (Some (ReplyEmbed descr))
    | None =>
        let+ _ := log DEBUG "HeistCalc: Found 'amazing job' message but no numeric data." [] in
        ret None
    end.

Definition on_message (self : cog) (message : message) : cog * logged (option reply) :=
  if decide (msg_id message ∈ processed_messages self) then (self, ret None)
  else
    let self := {| config_data := config_data self;
                   processed_messages := {[msg_id message]} ∪ processed_messages self |} in
    match guild_id message with
    | None => (self, ret None)
    | Some gid =>
        if negb (author_id message =? DANK_MEMER_ID)%Z then (self, ret None)
        else
          let '(self, cfg) := get_guild_config self gid in
          let channel_toggle :=
            default (PBool false) (cfg !! str_of_int (channel_id message)) in
          let global_toggle := default (PBool false) (cfg !! lit "global") in
          if negb (truthy channel_toggle || truthy global_toggle) then (self, ret None)
          else (self, detect_and_reply cfg message)
    end.

(** *** The configuration commands, as invoked by a member of a guild *)

(** What a configuration command does besides changing the cog: the data
    [save_config] hands to [json.dump], and the answer to the invoker. *)
Inductive effect :=
  | SaveConfig (data : gmap str (gmap str pyval))
  | Answer (text : str).

(** The cog after assignments to the dict [get_guild_config] returned,
    which is the guild's entry of [config_data] itself. *)
Definition with_guild_config (self : cog) (guild_id : Z) (cfg : gmap str pyval) : cog :=
  {| config_data := <[str_of_int guild_id := cfg]> (config_data self);
     processed_messages := processed_messages self |}.

(** "enabled" if enable else "disabled" *)
Definition state_str (enable : bool) : str :=
  if enable then lit "enabled" else lit "disabled".

Definition heist_calculate_cmd (self : cog) (administrator : bool)
    (guild_id channel_id : Z) (channel_mention : str)
    (enable full_server : bool) (template : str) : cog * list effect :=
  if negb administrator then (self, [Answer (lit "Admin permissions required.")])
  else if negb (bool_decide (template ∈ [lit "text"; lit "image"])) then
    (self, [Answer (lit "Invalid template. Choose 'text' or 'image'.")])
  else
    let '(self, cfg) := get_guild_config self guild_id in
    let cfg := if full_server then <[lit "global" := PBool enable]> cfg
               else <[str_of_int channel_id := PBool enable]> cfg in
    let cfg := <[lit "template" := PStr template]> cfg in
    let self := with_guild_config self guild_id cfg in
    let scope_str := if full_server then lit "the entire server"
                     else lit "this channel (" ++ channel_mention ++ lit ")" in
    (self, [SaveConfig (config_data self);
            Answer (lit "Heist Calculator is now **" ++ state_str enable ++ lit "** for **"
                      ++ scope_str ++ lit "** using **" ++ template ++ lit "** template.")]).

Definition heist_cal_toggle (self : cog) (administrator : bool)
    (guild_id channel_id : Z) (channel_mention : str)
    (enable : bool) (template : str) : cog * list effect :=
  if negb administrator then (self, [Answer (lit "Admin perms required.")])
  else if negb (bool_decide (template ∈ [lit "text"; lit "image"])) then
    (self, [Answer (lit "Template must be 'text' or 'image'.")])
  else
    let '(self, cfg) := get_guild_config self guild_id in
    let cfg := <[str_of_int channel_id := PBool enable]> cfg in
    let cfg := <[lit "template" := PStr template]> cfg in
    let self := with_guild_config self guild_id cfg in
    (self, [SaveConfig (config_data self);
            Answer (lit "Heist Calculator is now **" ++ state_str enable ++ lit "** in "
                      ++ channel_mention ++ lit " with `" ++ template ++ lit "` template.")]).

Definition heist_cal_global (self : cog) (administrator : bool) (guild_id : Z)
    (enable : bool) : cog * list effect :=
  if negb administrator then (self, [Answer (lit "Admin perms required.")])
  else
    let '(self, cfg) := get_guild_config self guild_id in
    let cfg := <[lit "global" := PBool enable]> cfg in
    let self := with_guild_config self guild_id cfg in
    (self, [SaveConfig (config_data self);
            Answer (lit "Global Heist Calculator is now **" ++ state_str enable
                      ++ lit "** for this server.")]).

(** *** The icon cache *)

(** What the request for the icon comes to: an exception raised by the
    session, the request or the reading of the body, with its text, or a
    response with its status and the data read. *)
Inductive response :=
  | RequestFails (text : str)
  | Status (status : Z) (data : list Z).

(** A guild, as the icon code reads it: [guild.id] and [guild.icon.url],
    [None] without an icon. *)
Record guild := {
  guild_ident : Z;
  guild_icon_url : option str
}.

Section Icons.

(** The images of OpenCV: [blank] is the grey image of 256 by 256 pixels
    and [imdecode data] is [cv2.imdecode(np.frombuffer(data, np.uint8),
    cv2.IMREAD_COLOR)], [None] when the data holds no image. *)
Context {image : Type}.
Variable blank : image.
Variable imdecode : list Z -> option image.

(** [self.icon_cache]: per guild the icon and the time it was stored, in
    microseconds. *)
Definition icon_cache : Type := gmap Z (image * Z).

(** [fetch_server_icon] at the time [now], where the request, if one is
    made, comes to [resp]. *)
Definition fetch_server_icon (cache : icon_cache) (now : Z) (g : guild) (resp : response)
  : icon_cache * (list log_record * image) :=
  let gid := guild_ident g in
  let fresh := match cache !! gid with
               | Some (icon, timestamp) =>
                   if (now - timestamp <? 600 * 1000000)%Z then Some icon else None
               | None => None
               end in
  match fresh with
  | Some icon =>
      (cache, ([{| lvl := DEBUG; fmt := "Using cached icon for guild %s";
                   args := [ArgInt gid] |}], icon))
  | None =>
      match guild_icon_url g with
      | None | Some [] =>
          (<[gid := (blank, now)]> cache,
           ([{| lvl := DEBUG; fmt := "No icon for guild %s; using blank image.";
                args := [ArgInt gid] |}], blank))
      | Some (_ :: _) =>
          let fetched : str + image :=
            match resp with
            | RequestFails text => inl text
            | Status status data =>
                if negb (status =? 200)%Z then
                  inl (lit "HTTP " ++ str_of_int status ++ lit " error fetching icon.")
                else match imdecode data with
                     | None => inl (lit "cv2.imdecode returned None.")
                     | Some icon_img => inr icon_img
                     end
            end in
          match fetched with
          | inr icon_img =>
              (<[gid := (icon_img, now)]> cache,
               ([{| lvl := DEBUG; fmt := "Fetched new icon for guild %s";
                    args := [ArgInt gid] |}], icon_img))
          | inl text =>
              (<[gid := (blank, now)]> cache,
               ([{| lvl := ERROR; fmt := "Error fetching server icon for guild %s: %s";
                    args := [ArgInt gid; ArgStr text] |}], blank))
          end
      end
  end.

Definition refresh_icon_cache (cache : icon_cache) (now : Z) (g : guild) (resp : response)
  : icon_cache * list log_record :=
  let cache := delete (guild_ident g) cache in
  let '(cache, (records, _)) := fetch_server_icon cache now g resp in
  (cache, records ++ [{| lvl := DEBUG; fmt := "Forced icon cache refresh for guild %s";
                         args := [ArgInt (guild_ident g)] |}]).

End Icons.

End Cog.
End HeistCalc.

(** ** heistspree.py: the time strings of the temporary channels *)
Module HeistSpree.
Import Py.

Section Helper.
Context {U : UnicodeData}.

(** [sys.int_max_str_digits]: the interpreter's bound on the digits [int]
    converts (4300 by default since Python 3.11, 0 for none). *)
Variable int_max_str_digits : nat.

(** (\d+)([smhd]), re.IGNORECASE *)
Definition pattern : regex :=
  Cat (Grp (Plus is_digit))
      (Grp (Chr (fun c => imatch 115%N c || imatch 109%N c || imatch 104%N c
                          || imatch 100%N c))).

(** [int(value)] for a run of digits. *)
Definition int_of_digits (value : str) : outcome Z :=
  if (0 <? int_max_str_digits)%nat && (int_max_str_digits <? length value)%nat
  then Raise ValueError
  else
    match value, digits_value_from 0 value with
    | _ :: _, Some n => Ret (Z.of_N n)
    | _, _ => Raise ValueError
    end.

(** The body of [for (value, unit) in matches]. *)
Fixpoint add_matches (matches : list (list str)) (total_seconds : Z) : outcome Z :=
  match matches with
  | [] => Ret total_seconds
  | m :: rest =>
      let* val := int_of_digits (group m 1) in
      let unit := lower (group m 2) in
      let total_seconds :=
        if decide (unit = lit "s") then (total_seconds + val)%Z
        else if decide (unit = lit "m") then (total_seconds + val * 60)%Z
        else if decide (unit = lit "h") then (total_seconds + val * 3600)%Z
        else if decide (unit = lit "d") then (total_seconds + val * 86400)%Z
        else total_seconds in
      add_matches rest total_seconds
  end.

Definition parse_time_string (time_str : str) : outcome Z :=
  match findall pattern time_str with
  | [] => Raise ValueError
  | matches => add_matches matches 0
  end.

End Helper.
End HeistSpree.

Import Py.

(** ** Vocabulary of the statements

    The notions of the specification the theorems are stated with, and the
    messages they are tried on. *)
Section Vocabulary.
Context {U : UnicodeData}.

(** The head of [s], if any, is outside the class [p]. *)
Definition stops (p : char -> bool) (s : str) : Prop :=
  match s with
  | [] => True
  | c :: _ => p c = false
  end.

Definition num_class (c : char) : bool := is_digit c || (c =? 46)%N.

Definition suffix_of (rest : str) : str :=
  match rest with
  | c :: _ => if mem_char (lit "kKmMbB") c then [c] else []
  | [] => []
  end.

(** The factor the character after the numeric literal stands for. *)
Definition scale_of (rest : str) : option Z :=
  match rest with
  | c :: _ =>
      if (c =? 107)%N || (c =? 75)%N then Some 1000%Z
      else if (c =? 109)%N || (c =? 77)%N then Some 1000000%Z
      else if (c =? 98)%N || (c =? 66)%N then Some 1000000000%Z
      else None
  | [] => None
  end.

(** [raw] with the glyph and the commas removed, stripped. *)
Definition cleaned (raw : str) : str :=
  strip (replace (lit ",") [] (replace [glyph] [] raw)).

Definition ascii_digits (s : str) : Prop := Forall (fun c => is_ascii_digit c = true) s.

(** ASCII digits and dots. *)
Definition ascii_numeric (s : str) : Prop :=
  Forall (fun c => is_ascii_digit c = true \/ c = 46%N) s.

(** A line as the patterns see it. *)
Definition clean_line (line : str) : str :=
  strip (re_sub_plus (mem_char (lit "`*")) [] false line).

(** The token a line gives to the total, if the line matches the pattern. *)
Definition total_token (line : str) : option str :=
  (fun m => group m 1) <$> re_search HeistSummary.total_pattern (clean_line line).

Definition count_token (line : str) : option str :=
  (fun m => group m 1) <$> re_search HeistSummary.count_pattern (clean_line line).

Definition parsed (r : outcome (option float)) : option float :=
  match r with
  | Ret (Some v) => Some v
  | _ => None
  end.

(** The value a line assigns to [total_coins]: its token, parsed. *)
Definition parsed_total (line : str) : option float :=
  tok ← total_token line;
  parsed (HeistSummary.parse_currency_value (glyph :: lit " " ++ tok)).

(** The value a line assigns to [payout_count], before [int]. *)
Definition parsed_count (line : str) : option float :=
  tok ← count_token line; parsed (HeistSummary.parse_plain_number tok).

Definition keep_or (old : option float) (new : option float) : option float :=
  match new with
  | Some v => Some v
  | None => old
  end.

Definition phrase : str := lit "amazing job everybody".

(** A message the detectors look into: sent by Dank Memer, with the
    phrase in its lower-cased text. *)
Definition qualifies (msg : message) : bool :=
  (author_id msg =? HeistSummary.DANK_MEMER_ID)%Z
  && contains phrase (lower (HeistSummary.combined_content msg)).

Definition message_lines (msg : message) : list str :=
  splitlines (strip (HeistSummary.combined_content msg)).

(** The single-message detector of the summary cog: what one iteration of
    the scan adds to [found]. *)
Definition detect (msg : message) : outcome (option HeistSummary.detection) :=
  let* r := HeistSummary.scan_message msg [] in
  Ret (match r with
       | Some [d] => Some d
       | _ => None
       end).

Definition dank (id : Z) (text : str) (es : list embed) : message :=
  {| msg_id := id; author_id := 270904126974590976; guild_id := Some 1%Z;
     channel_id := 7%Z; content := text; embeds := es |}.

Definition other (id : Z) (text : str) : message :=
  {| msg_id := id; author_id := 42; guild_id := Some 1%Z;
     channel_id := 7%Z; content := text; embeds := [] |}.

Definition nl : str := [10%N].

Definition payout_text (total count : string) : str :=
  lit "Amazing job everybody! You racked up a total of " ++ [glyph] ++ lit " " ++ lit total
    ++ nl ++ lit count ++ lit " users got the payout".

Definition overflow_message : message :=
  dank 1 (lit "Amazing job everybody" ++ nl ++ repeat 57%N 310 ++ lit " users got the payout") [].

Definition ten_messages : list message :=
  [ other 10 (payout_text "5" "1");
    dank 9 (payout_text "1,000" "2") [];
    dank 8 (lit "nothing to see") [];
    dank 7 (lit "amazing job everybody, but no numbers") [];
    dank 6 []
      [ {| title := Some (lit "AMAZING JOB EVERYBODY");
           description := Some (lit "**`racked up a total of " ++ [glyph] ++ lit "3.5M`**"
                                  ++ nl ++ lit "`7 users got the payout`") |} ];
    dank 5 (payout_text "77" "0") [];
    other 4 (lit "hello");
    dank 3 (lit "racked up a total of 5") [];
    dank 2 (payout_text "90k" "3") [];
    dank 1 (lit "bye") [] ].

(** The scales of the abbreviated form, largest first. *)
Definition scales : list (Z * str) :=
  [ (1000000000%Z, lit "B"); (1000000%Z, lit "M"); (1000%Z, lit "K") ].

(** Whether the magnitude divided by the scale is at least one. *)
Definition quotient_at_least_one (val : float) (scale : Z) : bool :=
  match val with
  | S754_nan => false
  | S754_infinity s => negb s
  | S754_zero _ => false
  | S754_finite s m e => Qle_bool 1 (finite_Q s m e / inject_Z scale)
  end.

(** Two decimals, a trailing ".00" dropped. *)
Definition two_decimals (q : float) : str :=
  let s := format_2f false q in
  if endswith s (lit ".00") then drop_last 3 s else s.

(** The abbreviated form in the words of the specification, with the
    stripping rule the code applies to the quotient. *)
Definition abbreviate_spec (val : float) : str :=
  match List.find (fun sc => quotient_at_least_one val sc.1) scales with
  | Some (scale, letter) =>
      two_decimals (SFdiv prec emax val (float_of_Z scale)) ++ letter
  | None => HeistSummary.format_number val
  end.

(** The hundredths a non-negative float is rendered with. *)
Definition cents_of (v : float) : N :=
  match v with
  | S754_finite _ m e => Z.to_N (round_half_even (100 * finite_Q false m e))
  | _ => Z.to_N (round_half_even (100 * 0))
  end.

(** The decimals [format_number] keeps. *)
Definition short_frac (c : N) : str :=
  let f := (c mod 100)%N in
  if (f =? 0)%N then []
  else if (f mod 10 =? 0)%N then [46; 48 + f / 10]%N
  else [46; 48 + f / 10; 48 + f mod 10]%N.

Definition no_phrase_message : message :=
  dank 11 (lit "You racked up a total of " ++ [glyph] ++ lit " 1,000" ++ nl
             ++ lit "2 users got the payout") [].

Definition total_line (token : string) : str :=
  lit "racked up a total of " ++ [glyph] ++ lit " " ++ lit token.

(** Two lines that match the total pattern; the token of the second does
    not parse. *)
Definition two_totals : list str := [ total_line "5"; total_line "." ].

Definition one_payout : channel :=
  {| messages_newest_first := [ dank 9 (payout_text "1,000" "2") [] ] |}.

(** A calculator cog that is switched on for the whole guild of the
    example messages. *)
Definition enabled_cog : HeistCalc.cog :=
  {| HeistCalc.config_data := {[ lit "1" := {[ lit "global" := HeistCalc.PBool true ]} ]};
     HeistCalc.processed_messages := ∅ |}.

(** What is known of a detection [(msg, total, count)] taken from [msgs]. *)
Definition sound_detection (msgs : list message) (d : HeistSummary.detection) : Prop :=
  d.1.1 ∈ msgs /\ qualifies d.1.1 = true
  /\ HeistSummary.scan_lines (message_lines d.1.1) None 0 = Ret (Some d.1.2, d.2)
  /\ (1 <= d.2)%Z.

(** Neither NaN nor negative: the sign bit is clear. *)
Definition sign_clear (v : float) : bool :=
  match v with
  | S754_zero s | S754_finite s _ _ | S754_infinity s => negb s
  | S754_nan => false
  end.

(** A name as [name_list] keeps it: not empty, no white space at either
    end, neither "/" nor ",". *)
Definition plain_name (n : str) : Prop :=
  n <> [] /\ strip n = n /\ (44%N ∉ n) /\ (47%N ∉ n).

(** What stands between two names: a "/" or a ",", with white space before
    and after it or none. *)
Definition separator (sep : str) : Prop :=
  exists a c b, sep = a ++ c :: b /\ (c = 47%N \/ c = 44%N)
    /\ Forall (fun x => is_space x = true) a /\ Forall (fun x => is_space x = true) b.

(** The argument [heist_names] written from its names: the first name, then
    each further name behind its separator. *)
Fixpoint names_text (first : str) (rest : list (str * str)) : str :=
  match rest with
  | [] => first
  | (sep, n) :: rest => first ++ sep ++ names_text n rest
  end.

(** The name of the [i]-th heist of a summary. *)
Definition heist_label (heist_names : str) (i : nat) : str :=
  default (lit "Unnamed Heist") (HeistSummary.name_list heist_names !! i).

(** One line of a summary. *)
Definition summary_row (emoji name link : str) (count : Z) (each : float) : str :=
  emoji ++ lit " **[" ++ name ++ lit "](" ++ link ++ lit ") - " ++ str_of_int count
    ++ lit " payouts** each got: **" ++ [glyph] ++ lit " " ++ abbreviate_spec each ++ lit "**".

(** The lines of the summary of [found], whose links and shares are
    [shares], one below the other. *)
Definition summary_text (emoji heist_names : str) (found : list HeistSummary.detection)
    (shares : list (str * float)) : str :=
  join nl (imap (fun i '(d, share) =>
                   summary_row emoji (heist_label heist_names i) share.1 d.2 share.2)
                (zip found shares)).

(** The first line of a summary sent as text. *)
Definition summary_header (guild_name : option str) : str :=
  lit "**" ++ HeistSummary.server_name guild_name ++ lit "'s Heist Summary**" ++ nl.

(** The link and the share of a detection. *)
Definition share_of (d : HeistSummary.detection) (share : str * float) : Prop :=
  HeistSummary.jump_link d.1.1 = Ok share.1 /\ truediv_int d.1.2 d.2 = Ret share.2.

(** The settings of a guild, empty when it has none yet. *)
Definition guild_settings (self : HeistCalc.cog) (g : Z) : gmap str HeistCalc.pyval :=
  default ∅ (HeistCalc.config_data self !! str_of_int g).

(** The switch of a channel, as [on_message] reads it. *)
Definition channel_on (self : HeistCalc.cog) (g c : Z) : bool :=
  HeistCalc.truthy (default (HeistCalc.PBool false) (guild_settings self g !! str_of_int c)).

(** The switch of the whole guild. *)
Definition global_on (self : HeistCalc.cog) (g : Z) : bool :=
  HeistCalc.truthy (default (HeistCalc.PBool false) (guild_settings self g !! lit "global")).

(** The template of a guild, "text" when none is set. *)
Definition template_of (self : HeistCalc.cog) (g : Z) : HeistCalc.pyval :=
  default (HeistCalc.PStr (lit "text")) (guild_settings self g !! lit "template").

(** The text of the calculator's answer. *)
Definition reply_text (count : Z) (each : float) : str :=
  str_of_int count ++ lit " Person Got: " ++ [glyph] ++ lit " "
    ++ HeistSummary.format_number each ++ lit " **(" ++ abbreviate_spec each ++ lit ")**".

(** The answer under a template: the image (with the embed to fall back
    on) for "image", the embed for anything else. *)
Definition reply_for (template : HeistCalc.pyval) (count : Z) (each : float) : HeistCalc.reply :=
  if decide (template = HeistCalc.PStr (lit "image"))
  then HeistCalc.ReplyImage count each (reply_text count each)
  else HeistCalc.ReplyEmbed (reply_text count each).

(** The unit letters of a time string, in either case. *)
Definition unit_letter (c : char) : bool := mem_char (lit "smhdSMHD") c.

(** The class [[smhd]] of the pattern under [re.IGNORECASE]. *)
Definition unit_class (c : char) : bool :=
  imatch 115%N c || imatch 109%N c || imatch 104%N c || imatch 100%N c.

(** The seconds a unit letter stands for. *)
Definition seconds_of (u : char) : Z :=
  if (ascii_lower u =? 115)%N then 1
  else if (ascii_lower u =? 109)%N then 60
  else if (ascii_lower u =? 104)%N then 3600
  else if (ascii_lower u =? 100)%N then 86400
  else 0.

(** A time string made of tokens, each a number and a unit letter behind
    a separator, and a tail. *)
Definition duration_text (tokens : list (str * N * char)) (tail : str) : str :=
  foldr (fun '(sep, n, u) rest => sep ++ digits_of_N n ++ u :: rest) tail tokens.

Definition duration_seconds (tokens : list (str * N * char)) : Z :=
  foldr (fun '(_, n, u) rest => (Z.of_N n * seconds_of u + rest)%Z) 0%Z tokens.

(** The number of digits [int] accepts. *)
Definition digits_allowed (int_max_str_digits : nat) (n : N) : Prop :=
  int_max_str_digits = 0%nat \/ (length (digits_of_N n) <= int_max_str_digits)%nat.

(** The icon a request gives: the decoded image when the guild has an
    icon, the response has status 200 and its data decodes, the grey image
    otherwise. *)
Definition fetched_icon {image : Type} (blank : image) (imdecode : list Z -> option image)
    (g : HeistCalc.guild) (resp : HeistCalc.response) : image :=
  match HeistCalc.guild_icon_url g, resp with
  | Some (_ :: _), HeistCalc.Status 200 data => default blank (imdecode data)
  | _, _ => blank
  end.

(** No entry of the cache for the guild is less than ten minutes old. *)
Definition stale {image : Type} (cache : gmap Z (image * Z)) (now : Z) (gid : Z) : Prop :=
  match cache !! gid with
  | Some (_, timestamp) => (600 * 1000000 <= now - timestamp)%Z
  | None => True
  end.

(** The characters of a total token. *)
Definition total_class (c : char) : bool :=
  is_digit c || (c =? 44)%N || (c =? 46)%N || imatch 107%N c || imatch 109%N c || imatch 98%N c.

(** The characters of a count token. *)
Definition count_class (c : char) : bool := is_digit c || (c =? 44)%N || (c =? 46)%N.

(** The first line of a payout announcement for a whole total, and the
    line of the count. *)
Definition payout_line_total (total : N) : str :=
  lit "Amazing job everybody! You racked up a total of " ++ [glyph] ++ lit " "
    ++ group3 (digits_of_N total).

Definition payout_line_count (count : N) : str :=
  digits_of_N count ++ lit " users got the payout".

(** The text of a payout announcement. *)
Definition payout_content (total count : N) : str :=
  payout_line_total total ++ 10%N :: payout_line_count count.

End Vocabulary.

(** ** Properties *)

Section Basics.
Context {U : UnicodeData}.

Lemma py_float_outcome s : (exists v, py_float s = Ret v) \/ py_float s = Raise ValueError.
Proof.
  unfold py_float.
  destruct (take_until_dot s ++ tail (drop_until_dot s)); [by right|].
  destruct (digits_value_from _ _); [left; eauto | by right].
Qed.

Lemma mul_int_1000 x : mul_int x 1000 = Ret (SFmul prec emax x (S754_finite false 8796093022208000 (-43))).
Proof. reflexivity. Qed.

Lemma mul_int_returns x n : (n = 1000 \/ n = 1000000 \/ n = 1000000000)%Z -> returns (mul_int x n).
Proof. intros [-> | [-> | ->]]; eexists; reflexivity. Qed.

Lemma summary_parse_currency_value_returns raw :
  returns (HeistSummary.parse_currency_value raw).
Proof.
  unfold HeistSummary.parse_currency_value.
  destruct raw as [|c raw]; [eexists; reflexivity|].
  destruct (re_match _ _) as [groups|]; [|eexists; reflexivity].
  destruct (py_float_outcome (group groups 1)) as [[v ->] | ->]; [|eexists; reflexivity].
  repeat case_decide; eexists; reflexivity.
Qed.

Lemma summary_parse_plain_number_returns raw :
  returns (HeistSummary.parse_plain_number raw).
Proof.
  unfold HeistSummary.parse_plain_number.
  destruct raw as [|c raw]; [eexists; reflexivity|].
  destruct (re_match _ _) as [groups|]; [|eexists; reflexivity].
  destruct (py_float_outcome (group groups 1)) as [[v ->] | ->]; eexists; reflexivity.
Qed.

Lemma calc_parse_currency_value_result raw :
  (HeistCalc.parse_currency_value raw).2 = HeistSummary.parse_currency_value raw.
Proof.
  unfold HeistCalc.parse_currency_value, HeistSummary.parse_currency_value.
  destruct raw as [|c raw]; [reflexivity|].
  change HeistCalc.re_currency with HeistSummary.re_currency.
  destruct (re_match _ _) as [groups|]; [|reflexivity].
  destruct (py_float_outcome (group groups 1)) as [[v ->] | ->]; [|reflexivity].
  repeat case_decide; reflexivity.
Qed.

Lemma calc_parse_plain_number_result raw :
  (HeistCalc.parse_plain_number raw).2 = HeistSummary.parse_plain_number raw.
Proof.
  unfold HeistCalc.parse_plain_number, HeistSummary.parse_plain_number.
  destruct raw as [|c raw]; [reflexivity|].
  change HeistCalc.re_num with HeistSummary.re_num.
  destruct (re_match _ _) as [groups|]; [|reflexivity].
  destruct (py_float_outcome (group groups 1)) as [[v ->] | ->]; reflexivity.
Qed.

End Basics.

Section StringLemmas.

Lemma prefix_b_app p s : prefix_b p (p ++ s) = true.
Proof. induction p as [|a p IH]; simpl; [done|]. by rewrite N.eqb_refl. Qed.

Lemma prefix_b_spec p s : prefix_b p s = true <-> exists t, s = p ++ t.
Proof.
  revert s; induction p as [|a p IH]; intros s; simpl.
  - split; eauto.
  - destruct s as [|b s]; [split; [done | intros [t Ht]; discriminate]|].
    rewrite andb_true_iff, N.eqb_eq, IH. split.
    + intros [-> [t ->]]. eauto.
    + intros [t Ht]. injection Ht as -> ->. eauto.
Qed.

Lemma replace_char_absent a s :
  Forall (fun c => c <> a) s -> replace [a] [] s = s.
Proof.
  unfold replace. induction 1 as [|c s Hc _ IH]; simpl; [done|].
  destruct (N.eqb_spec a c) as [->|_]; [done|]. simpl. by rewrite IH.
Qed.

Lemma replace_char_cons a c s :
  replace [a] [] (c :: s) = if (a =? c)%N then replace [a] [] s else c :: replace [a] [] s.
Proof. unfold replace. simpl. by destruct (a =? c)%N. Qed.

Lemma replace_char_app a s t :
  replace [a] [] (s ++ t) = replace [a] [] s ++ replace [a] [] t.
Proof.
  induction s as [|c s IH]; [done|].
  rewrite <- app_comm_cons, !replace_char_cons. destruct (a =? c)%N; [done|].
  by rewrite IH.
Qed.

Lemma lstrip_by_head p c s : p c = false -> lstrip_by p (c :: s) = c :: s.
Proof. intros Hc. simpl. by rewrite Hc. Qed.

Lemma rstrip_by_last p s c : p c = false -> rstrip_by p (s ++ [c]) = s ++ [c].
Proof.
  intros Hc. unfold rstrip_by. rewrite rev_app_distr. simpl. rewrite Hc.
  change (c :: rev s) with ([c] ++ rev s). by rewrite rev_app_distr, rev_involutive.
Qed.

Lemma rstrip_by_nil p : rstrip_by p [] = [].
Proof. reflexivity. Qed.

Lemma rstrip_by_snoc p s c : p c = true -> rstrip_by p (s ++ [c]) = rstrip_by p s.
Proof.
  intros Hc. unfold rstrip_by. rewrite rev_app_distr. simpl. by rewrite Hc.
Qed.

(** A string none of whose characters is white space is its own [strip]. *)
Lemma strip_no_space s : Forall (fun c => is_space c = false) s -> strip s = s.
Proof.
  intros Hs. unfold strip.
  assert (lstrip_by is_space s = s) as ->.
  { destruct Hs; [done|]. by apply lstrip_by_head. }
  destruct s as [|c s _] using rev_ind; [done|].
  apply Forall_app in Hs as [_ Hc]. inversion_clear Hc.
  by apply rstrip_by_last.
Qed.

End StringLemmas.

Section RegexLemmas.
Context {U : UnicodeData}.

Lemma star_greedy_max {R} p (run rest : str) caps (k : cont (R:=R)) r :
  Forall (fun c => p c = true) run -> stops p rest ->
  k rest caps = Some r ->
  star_greedy p (run ++ rest) caps k = Some r.
Proof.
  intros Hrun Hrest Hk. induction Hrun as [|c run Hc _ IH].
  - destruct rest as [|c rest]; simpl in *; [done|]. by rewrite Hrest.
  - simpl. by rewrite Hc, IH.
Qed.

Lemma take_app_suffix (num rest : str) :
  take (length (num ++ rest) - length rest) (num ++ rest) = num.
Proof.
  rewrite length_app. replace (length num + length rest - length rest) with (length num) by lia.
  by rewrite take_app_length.
Qed.

Lemma run_group_plus_max {R} p (num rest : str) caps (k : cont (R:=R)) r :
  num <> [] -> Forall (fun c => p c = true) num -> stops p rest ->
  k rest (caps ++ [num]) = Some r ->
  run (Grp (Plus p)) (num ++ rest) caps k = Some r.
Proof.
  intros Hne Hnum Hrest Hk. destruct num as [|c num]; [done|].
  inversion_clear Hnum as [|? ? Hc Hnum']. unfold Plus. cbn [run app]. rewrite Hc.
  apply star_greedy_max; [done..|].
  change (c :: num ++ rest) with ((c :: num) ++ rest).
  by rewrite take_app_suffix.
Qed.

Lemma run_group_plus_fail {R} p (s : str) caps (k : cont (R:=R)) :
  stops p s -> run (Grp (Plus p)) s caps k = None.
Proof. destruct s as [|c s]; simpl; [done|]. by intros ->. Qed.

Lemma re_match_num num rest :
  num <> [] -> Forall (fun c => num_class c = true) num -> stops num_class rest ->
  re_match HeistSummary.re_num (num ++ rest) = Some [num].
Proof.
  intros. unfold re_match, HeistSummary.re_num.
  by apply (run_group_plus_max num_class).
Qed.


Lemma re_match_currency num rest :
  num <> [] -> Forall (fun c => num_class c = true) num -> stops num_class rest ->
  re_match HeistSummary.re_currency (num ++ rest) = Some [num; suffix_of rest].
Proof.
  intros. unfold re_match, HeistSummary.re_currency. cbn [run].
  apply (run_group_plus_max num_class); [done..|].
  destruct rest as [|c rest]; [done|]. cbn [run suffix_of].
  destruct (mem_char _ c); [|by rewrite Nat.sub_diag].
  cbn [or_else length]. replace (S (length rest) - length rest) with 1 by lia. done.
Qed.


End RegexLemmas.

Section ParserLemmas.
Context {U : UnicodeData}.

Lemma parse_currency_value_literal raw num rest base :
  raw <> [] -> cleaned raw = num ++ rest ->
  num <> [] -> Forall (fun c => num_class c = true) num -> stops num_class rest ->
  py_float num = Ret base ->
  HeistSummary.parse_currency_value raw =
    match scale_of rest with
    | Some k => let* v := mul_int base k in Ret (Some v)
    | None => Ret (Some base)
    end.
Proof.
  intros Hraw Hclean Hne Hnum Hrest Hbase.
  unfold HeistSummary.parse_currency_value. destruct raw as [|c0 raw]; [done|].
  fold (cleaned (c0 :: raw)). rewrite Hclean, re_match_currency by done.
  change (group [num; suffix_of rest] 1) with num.
  change (group [num; suffix_of rest] 2) with (suffix_of rest). rewrite Hbase.
  destruct rest as [|c rest]; [reflexivity|].
  unfold suffix_of, scale_of.
  change (mem_char (lit "kKmMbB") c) with (mem_char [107; 75; 109; 77; 98; 66]%N c).
  unfold mem_char. cbn [existsb].
  destruct (N.eqb_spec c 107) as [->|]; [reflexivity|].
  destruct (N.eqb_spec c 75) as [->|]; [reflexivity|].
  destruct (N.eqb_spec c 109) as [->|]; [reflexivity|].
  destruct (N.eqb_spec c 77) as [->|]; [reflexivity|].
  destruct (N.eqb_spec c 98) as [->|]; [reflexivity|].
  destruct (N.eqb_spec c 66) as [->|]; reflexivity.
Qed.

(** The calculator's copy on a literal: the same value, and no log record. *)
Lemma calc_parse_currency_value_literal raw num rest base :
  raw <> [] -> cleaned raw = num ++ rest ->
  num <> [] -> Forall (fun c => num_class c = true) num -> stops num_class rest ->
  py_float num = Ret base ->
  HeistCalc.parse_currency_value raw =
    ([], match scale_of rest with
         | Some k => let* v := mul_int base k in Ret (Some v)
         | None => Ret (Some base)
         end).
Proof.
  intros Hraw Hclean Hne Hnum Hrest Hbase.
  unfold HeistCalc.parse_currency_value. destruct raw as [|c0 raw]; [done|].
  fold (cleaned (c0 :: raw)). change HeistCalc.re_currency with HeistSummary.re_currency.
  rewrite Hclean, re_match_currency by done.
  change (group [num; suffix_of rest] 1) with num.
  change (group [num; suffix_of rest] 2) with (suffix_of rest). rewrite Hbase.
  destruct rest as [|c rest]; [reflexivity|].
  unfold suffix_of, scale_of.
  change (mem_char (lit "kKmMbB") c) with (mem_char [107; 75; 109; 77; 98; 66]%N c).
  unfold mem_char. cbn [existsb].
  destruct (N.eqb_spec c 107) as [->|]; [reflexivity|].
  destruct (N.eqb_spec c 75) as [->|]; [reflexivity|].
  destruct (N.eqb_spec c 109) as [->|]; [reflexivity|].
  destruct (N.eqb_spec c 77) as [->|]; [reflexivity|].
  destruct (N.eqb_spec c 98) as [->|]; [reflexivity|].
  destruct (N.eqb_spec c 66) as [->|]; reflexivity.
Qed.


Lemma parse_plain_number_literal raw num rest base :
  raw <> [] -> strip (replace (lit ",") [] raw) = num ++ rest ->
  num <> [] -> Forall (fun c => num_class c = true) num -> stops num_class rest ->
  py_float num = Ret base ->
  HeistSummary.parse_plain_number raw = Ret (Some base).
Proof.
  intros Hraw Hclean Hne Hnum Hrest Hbase.
  unfold HeistSummary.parse_plain_number. destruct raw as [|c0 raw]; [done|].
  rewrite Hclean, re_match_num by done.
  change (group [num] 1) with num. by rewrite Hbase.
Qed.




End ParserLemmas.

(** Case analysis on the comparisons of code points in the goal. *)
Ltac char_cases :=
  repeat
    (match goal with
     | |- context [(?a <=? ?b)%N] => destruct (N.leb_spec a b)
     | |- context [(?a <? ?b)%N] => destruct (N.ltb_spec a b)
     | |- context [(?a =? ?b)%N] => destruct (N.eqb_spec a b)
     end; try lia; simpl);
  try done; try lia.

Section CharLemmas.
Context {U : UnicodeData}.

Lemma ascii_digit_bounds c : is_ascii_digit c = true <-> (48 <= c <= 57)%N.
Proof. unfold is_ascii_digit. rewrite andb_true_iff, !N.leb_le. done. Qed.

Lemma ascii_digit_value c : is_ascii_digit c = true -> digit_value c = Some (c - 48)%N.
Proof.
  intros Hc. unfold digit_value. rewrite Hc.
  apply ascii_digit_bounds in Hc. unfold is_ascii. by char_cases.
Qed.

Lemma ascii_digit_is_digit c : is_ascii_digit c = true -> is_digit c = true.
Proof.
  intros Hc. unfold is_digit. rewrite (ascii_digit_value c Hc).
  apply bool_decide_eq_true. eauto.
Qed.

Lemma dot_not_digit : digit_value 46%N = None.
Proof. reflexivity. Qed.

Lemma ascii_numeric_class c :
  is_ascii_digit c = true \/ c = 46%N -> num_class c = true.
Proof.
  unfold num_class. intros [Hc | ->]; [|by rewrite orb_true_r].
  by rewrite ascii_digit_is_digit.
Qed.

Lemma ascii_numeric_not_space c :
  is_ascii_digit c = true \/ c = 46%N -> is_space c = false.
Proof.
  intros [Hc | ->]; [|reflexivity].
  apply ascii_digit_bounds in Hc. unfold is_space. by char_cases.
Qed.


Lemma ascii_numeric_plain_cleaned s :
  ascii_numeric s -> strip (replace (lit ",") [] s) = s.
Proof.
  intros Hs. change (lit ",") with [44%N]. rewrite (replace_char_absent 44%N).
  - apply strip_no_space. eapply Forall_impl; [exact Hs|]. apply ascii_numeric_not_space.
  - eapply Forall_impl; [exact Hs|]. intros c [Hc | ->]; [|done].
    apply ascii_digit_bounds in Hc. lia.
Qed.

Lemma ascii_digits_numeric s : ascii_digits s -> ascii_numeric s.
Proof. intros Hs. eapply Forall_impl; [exact Hs | auto]. Qed.

Lemma take_until_dot_digits a rest :
  ascii_digits a -> take_until_dot (a ++ 46%N :: rest) = a.
Proof.
  induction 1 as [|c a Hc _ IH]; [done|]. simpl.
  apply ascii_digit_bounds in Hc. destruct (N.eqb_spec c 46); [lia|]. by rewrite IH.
Qed.

Lemma drop_until_dot_digits a rest :
  ascii_digits a -> drop_until_dot (a ++ 46%N :: rest) = 46%N :: rest.
Proof.
  induction 1 as [|c a Hc _ IH]; [done|]. simpl.
  apply ascii_digit_bounds in Hc. destruct (N.eqb_spec c 46); [lia|]. by rewrite IH.
Qed.



End CharLemmas.

Section ScanLemmas.
Context {U : UnicodeData}.

#[local] Arguments HeistSummary.parse_currency_value : simpl never.
#[local] Arguments HeistSummary.parse_plain_number : simpl never.
#[local] Arguments HeistCalc.parse_currency_value : simpl never.
#[local] Arguments HeistCalc.parse_plain_number : simpl never.
#[local] Arguments int_of_float : simpl never.
#[local] Arguments re_search : simpl never.

Lemma scan_line_spec line t c :
  HeistSummary.scan_line line t c =
    match parsed_count line with
    | Some v => let* c' := int_of_float v in Ret (keep_or t (parsed_total line), c')
    | None => Ret (keep_or t (parsed_total line), c)
    end.
Proof.
  unfold HeistSummary.scan_line, parsed_total, parsed_count, total_token, count_token.
  fold (clean_line line).
  destruct (re_search HeistSummary.total_pattern _) as [m_tot|];
    destruct (re_search HeistSummary.count_pattern _) as [m_pay|];
    cbn [fmap option_fmap option_map mbind option_bind];
    try (destruct (summary_parse_currency_value_returns (glyph :: lit " " ++ group m_tot 1))
           as [val ->]);
    try (destruct (summary_parse_plain_number_returns (group m_pay 1)) as [num_val ->]);
    cbn [bind parsed keep_or];
    try destruct val; try destruct num_val as [v|]; cbn [bind parsed keep_or];
    try destruct (int_of_float v); reflexivity.
Qed.

Lemma scan_lines_app a b t c :
  HeistSummary.scan_lines (a ++ b) t c =
    let* (t1, c1) := HeistSummary.scan_lines a t c in HeistSummary.scan_lines b t1 c1.
Proof.
  revert t c; induction a as [|line a IH]; intros t c; simpl; [done|].
  destruct (HeistSummary.scan_line line t c) as [[t1 c1]|e]; simpl; [apply IH | done].
Qed.

Lemma scan_lines_total lines t0 c0 t c :
  HeistSummary.scan_lines lines t0 c0 = Ret (t, c) ->
  t = keep_or t0 (last (omap parsed_total lines)).
Proof.
  revert t0 c0; induction lines as [|line lines IH]; intros t0 c0; simpl.
  - by intros [= <- <-].
  - rewrite scan_line_spec.
    assert (forall c1, HeistSummary.scan_lines lines (keep_or t0 (parsed_total line)) c1 = Ret (t, c) ->
      t = keep_or t0 (last (omap parsed_total (line :: lines)))) as Hstep.
    { intros c1 Hc1. apply IH in Hc1 as ->. simpl.
      destruct (parsed_total line) as [v|]; simpl; [|done].
      rewrite last_cons. by destruct (last _). }
    destruct (parsed_count line) as [v|]; [|apply Hstep].
    destruct (int_of_float v); simpl; [apply Hstep | done].
Qed.

Lemma scan_lines_count lines t0 c0 t c :
  HeistSummary.scan_lines lines t0 c0 = Ret (t, c) ->
  match last (omap parsed_count lines) with
  | Some v => int_of_float v = Ret c
  | None => c = c0
  end.
Proof.
  revert t0 c0; induction lines as [|line lines IH]; intros t0 c0; simpl.
  - by intros [= <- <-].
  - rewrite scan_line_spec.
    destruct (parsed_count line) as [v|]; [|apply IH].
    destruct (int_of_float v) as [c1|e] eqn:Hv; simpl; [|done].
    intros Hc1. apply IH in Hc1. rewrite last_cons.
    destruct (last _); [done|]. by subst.
Qed.

Lemma calc_scan_line_result line t c :
  (HeistCalc.scan_line line t c).2 = HeistSummary.scan_line line t c.
Proof.
  unfold HeistCalc.scan_line, HeistSummary.scan_line.
  change HeistCalc.total_pattern with HeistSummary.total_pattern.
  change HeistCalc.payout_pat with HeistSummary.count_pattern.
  set (cl := strip _).
  destruct (re_search HeistSummary.total_pattern cl) as [m_tot|].
  - rewrite <- calc_parse_currency_value_result.
    destruct (HeistCalc.parse_currency_value _) as [l1 [val|e]]; simpl; [|done].
    destruct (re_search HeistSummary.count_pattern cl) as [m_pay|]; simpl; [|done].
    rewrite <- calc_parse_plain_number_result.
    destruct (HeistCalc.parse_plain_number _) as [l2 [num_val|e]]; simpl; [|done].
    destruct num_val as [v|]; simpl; [|done]. by destruct (int_of_float v).
  - simpl.
    destruct (re_search HeistSummary.count_pattern cl) as [m_pay|]; simpl; [|done].
    rewrite <- calc_parse_plain_number_result.
    destruct (HeistCalc.parse_plain_number _) as [l2 [num_val|e]]; simpl; [|done].
    destruct num_val as [v|]; simpl; [|done]. by destruct (int_of_float v).
Qed.

Lemma calc_scan_lines_result lines t c :
  (HeistCalc.scan_lines lines t c).2 = HeistSummary.scan_lines lines t c.
Proof.
  revert t c; induction lines as [|line lines IH]; intros t c; simpl; [done|].
  rewrite <- calc_scan_line_result.
  destruct (HeistCalc.scan_line line t c) as [l1 [[t1 c1]|e]]; simpl; [|done].
  rewrite <- IH. by destruct (HeistCalc.scan_lines lines t1 c1).
Qed.

End ScanLemmas.

Section BatchLemmas.
Context {U : UnicodeData}.

#[local] Arguments HeistSummary.scan_lines : simpl never.
#[local] Arguments contains : simpl never.

Lemma scan_message_unqualified msg found :
  qualifies msg = false -> HeistSummary.scan_message msg found = Ret None.
Proof.
  unfold qualifies, HeistSummary.scan_message, phrase.
  destruct (author_id msg =? _)%Z; simpl; [|done]. by intros ->.
Qed.

Lemma scan_message_qualified msg found :
  qualifies msg = true ->
  HeistSummary.scan_message msg found =
    let* (t, c) := HeistSummary.scan_lines (message_lines msg) None 0 in
    Ret (Some (match t with
               | Some total => if (c >? 0)%Z then found ++ [(msg, total, c)] else found
               | None => found
               end)).
Proof.
  unfold qualifies, HeistSummary.scan_message, phrase, message_lines.
  destruct (author_id msg =? _)%Z; simpl; [|done]. intros ->. simpl.
  destruct (HeistSummary.scan_lines _ _ _) as [[[t|] c]|e]; simpl; try done.
  by destruct (c >? 0)%Z.
Qed.

Lemma scan_message_found msg found :
  HeistSummary.scan_message msg found =
    let* r := HeistSummary.scan_message msg [] in Ret ((fun d => found ++ d) <$> r).
Proof.
  destruct (qualifies msg) eqn:Hq.
  - rewrite !scan_message_qualified by done.
    destruct (HeistSummary.scan_lines _ _ _) as [[[t|] c]|e]; simpl; try done.
    + destruct (c >? 0)%Z; simpl; [done|]. by rewrite app_nil_r.
    + by rewrite app_nil_r.
  - by rewrite !scan_message_unqualified.
Qed.

Lemma scan_message_nil_cases msg r :
  HeistSummary.scan_message msg [] = Ret r ->
  r = None \/ r = Some [] \/ exists t c, r = Some [(msg, t, c)] /\ (0 < c)%Z.
Proof.
  destruct (qualifies msg) eqn:Hq.
  - rewrite scan_message_qualified by done.
    destruct (HeistSummary.scan_lines _ _ _) as [[[t|] c]|e]; simpl; try done.
    + destruct (c >? 0)%Z eqn:Hc; intros [= <-]; [|auto].
      right; right. exists t, c. split; [done|]. lia.
    + intros [= <-]; auto.
  - rewrite scan_message_unqualified by done. intros [= <-]; auto.
Qed.

(** A detection always has a positive count. *)
Lemma detect_positive msg m t c : detect msg = Ret (Some (m, t, c)) -> m = msg /\ (0 < c)%Z.
Proof.
  unfold detect. destruct (HeistSummary.scan_message msg []) as [r|e] eqn:Hr; simpl; [|done].
  apply scan_message_nil_cases in Hr as [-> | [-> | (t' & c' & -> & Hc)]]; try done.
  by intros [= <- <- <-].
Qed.

Lemma scan_messages_spec limit msgs rs found :
  (1 <= limit)%Z -> (Z.of_nat (length found) < limit)%Z ->
  Forall2 (fun m r => detect m = Ret r) msgs rs ->
  HeistSummary.scan_messages msgs limit found =
    Ret (take (Z.to_nat limit) (found ++ omap id rs)).
Proof.
  intros Hlim Hlen Hall. revert found Hlen.
  induction Hall as [|msg r msgs rs Hr _ IH]; intros found Hlen.
  - simpl. rewrite app_nil_r, take_ge by lia. done.
  - cbn [HeistSummary.scan_messages]. rewrite scan_message_found.
    unfold detect in Hr.
    destruct (HeistSummary.scan_message msg []) as [r0|e] eqn:Hr0; simpl in Hr; [|done].
    injection Hr as <-.
    apply scan_message_nil_cases in Hr0 as [-> | [-> | (t & c & -> & Hc)]]; simpl.
    + by apply IH.
    + rewrite app_nil_r. destruct (Z.geb_spec (Z.of_nat (length found)) limit); [lia|].
      by apply IH.
    + rewrite length_app. simpl.
      destruct (Z.geb_spec (Z.of_nat (length found + 1)) limit) as [Hge|Hlt].
      * f_equal.
        transitivity (take (Z.to_nat limit) ((found ++ [(msg, t, c)]) ++ omap id rs)).
        -- rewrite take_app_length'; [done|]. rewrite length_app. simpl. lia.
        -- by rewrite <- app_assoc.
      * rewrite IH by (rewrite length_app; simpl; lia). by rewrite <- app_assoc.
Qed.

Lemma scan_messages_length limit msgs found0 found :
  (Z.of_nat (length found0) < limit)%Z ->
  HeistSummary.scan_messages msgs limit found0 = Ret found ->
  (Z.of_nat (length found) <= limit)%Z.
Proof.
  revert found0. induction msgs as [|msg msgs IH]; intros found0 Hlen; simpl.
  - intros [= <-]. lia.
  - rewrite scan_message_found.
    destruct (HeistSummary.scan_message msg []) as [r0|e] eqn:Hr0; simpl; [|done].
    apply scan_message_nil_cases in Hr0 as [-> | [-> | (t & c & -> & Hc)]]; simpl.
    + by apply IH.
    + rewrite app_nil_r. destruct (Z.geb_spec (Z.of_nat (length found0)) limit); [lia|].
      by apply IH.
    + rewrite length_app. simpl.
      destruct (Z.geb_spec (Z.of_nat (length found0 + 1)) limit) as [Hge|Hlt].
      * intros [= <-]. rewrite length_app. simpl. lia.
      * apply IH. rewrite length_app. simpl. lia.
Qed.

(** Once [limit] detections are collected the rest is not looked at. *)
Lemma scan_messages_stop limit pre suf found0 found :
  (Z.of_nat (length found0) < limit)%Z ->
  HeistSummary.scan_messages pre limit found0 = Ret found ->
  (limit <= Z.of_nat (length found))%Z ->
  HeistSummary.scan_messages (pre ++ suf) limit found0 = Ret found.
Proof.
  revert found0. induction pre as [|msg pre IH]; intros found0 Hlen; simpl.
  - intros [= <-]. lia.
  - rewrite scan_message_found.
    destruct (HeistSummary.scan_message msg []) as [r0|e] eqn:Hr0; simpl; [|done].
    apply scan_message_nil_cases in Hr0 as [-> | [-> | (t & c & -> & Hc)]]; simpl.
    + by apply IH.
    + rewrite app_nil_r. destruct (Z.geb_spec (Z.of_nat (length found0)) limit); [lia|].
      by apply IH.
    + rewrite length_app. simpl.
      destruct (Z.geb_spec (Z.of_nat (length found0 + 1)) limit) as [Hge|Hlt]; [done|].
      apply IH. rewrite length_app. simpl. lia.
Qed.

(** Every collected detection has a positive count. *)
Lemma scan_messages_positive limit msgs found0 found :
  Forall (fun d => (0 < d.2)%Z) found0 ->
  HeistSummary.scan_messages msgs limit found0 = Ret found ->
  Forall (fun d => (0 < d.2)%Z) found.
Proof.
  revert found0. induction msgs as [|msg msgs IH]; intros found0 Hpos; simpl.
  - by intros [= <-].
  - rewrite scan_message_found.
    destruct (HeistSummary.scan_message msg []) as [r0|e] eqn:Hr0; simpl; [|done].
    apply scan_message_nil_cases in Hr0 as [-> | [-> | (t & c & -> & Hc)]]; simpl.
    + by apply IH.
    + rewrite app_nil_r. destruct (_ >=? _)%Z; [by intros [= <-] | by apply IH].
    + assert (Forall (fun d : HeistSummary.detection => (0 < d.2)%Z) (found0 ++ [(msg, t, c)])).
      { apply Forall_app. split; [done|]. by repeat constructor. }
      destruct (_ >=? _)%Z; [by intros [= <-] | by apply IH].
Qed.

End BatchLemmas.

Section Examples.
Context {U : UnicodeData}.

Lemma ten_messages_scan :
  HeistSummary.get_recent_heist_messages {| messages_newest_first := ten_messages |} 2 =
    Ret [ (dank 6 []
            [ {| title := Some (lit "AMAZING JOB EVERYBODY");
                 description := Some (lit "**`racked up a total of " ++ [glyph] ++ lit "3.5M`**"
                                        ++ nl ++ lit "`7 users got the payout`") |} ],
           S754_finite false 7516192768000000 (-31), 7%Z);
          (dank 9 (payout_text "1,000" "2") [], S754_finite false 8796093022208000 (-43), 2%Z) ].
Proof. vm_compute. reflexivity. Qed.

Lemma overflow_message_scan :
  HeistSummary.scan_message overflow_message [] = Raise OverflowError.
Proof. vm_compute. reflexivity. Qed.

End Examples.

Section Abbreviate.

Lemma Qle_bool_quotient (n : Z) (q : Q) :
  (0 < n)%Z -> Qle_bool (inject_Z n) q = Qle_bool 1 (q / inject_Z n).
Proof.
  intros Hn. apply eq_true_iff_eq. rewrite !Qle_bool_iff.
  assert (0 < inject_Z n)%Q as Hpos by (unfold Qlt; simpl; lia).
  split; intros Hle.
  - apply Qle_shift_div_l; [done|]. by rewrite Qmult_1_l.
  - apply (Qmult_le_r _ _ (/ inject_Z n)).
    + by apply Qinv_lt_0_compat.
    + rewrite Qmult_inv_r by (intros E; rewrite E in Hpos; by apply Qlt_irrefl in Hpos).
      exact Hle.
Qed.

Lemma ge_int_quotient val n : (0 < n)%Z -> ge_int val n = quotient_at_least_one val n.
Proof.
  intros Hn. destruct val as [s|s| |s m e]; simpl; try done.
  - apply Z.leb_gt. lia.
  - by apply Qle_bool_quotient.
Qed.

Lemma truediv_int_const val n :
  (n = 1000 \/ n = 1000000 \/ n = 1000000000)%Z ->
  truediv_int val n = Ret (SFdiv prec emax val (float_of_Z n)).
Proof. intros [-> | [-> | ->]]; reflexivity. Qed.

Lemma summary_abbreviate_number_spec val :
  HeistSummary.abbreviate_number val = Ret (abbreviate_spec val).
Proof.
  unfold HeistSummary.abbreviate_number, abbreviate_spec, scales. cbn [List.find fst].
  rewrite !ge_int_quotient by lia.
  destruct (quotient_at_least_one val 1000000000);
    [by rewrite truediv_int_const by auto|].
  destruct (quotient_at_least_one val 1000000);
    [by rewrite truediv_int_const by auto|].
  destruct (quotient_at_least_one val 1000);
    [by rewrite truediv_int_const by auto|].
  done.
Qed.

Lemma calc_abbreviate_number_eq val :
  HeistCalc.abbreviate_number val = HeistSummary.abbreviate_number val.
Proof. reflexivity. Qed.

Lemma calc_format_number_eq val :
  HeistCalc.format_number val = HeistSummary.format_number val.
Proof. reflexivity. Qed.

Lemma abbreviate_examples :
  HeistSummary.abbreviate_number (float_of_Z 1000) = Ret (lit "1K")
  /\ HeistSummary.abbreviate_number (float_of_Z 1500) = Ret (lit "1.50K")
  /\ HeistSummary.abbreviate_number (float_of_Z 1234567) = Ret (lit "1.23M")
  /\ HeistSummary.abbreviate_number (float_of_Z 2000000000) = Ret (lit "2B")
  /\ HeistSummary.abbreviate_number (float_of_Z 999) = Ret (lit "999").
Proof. repeat split; vm_compute; reflexivity. Qed.

End Abbreviate.

Section Rounding.

Lemma round_half_even_bounds (q : Q) :
  (q - (1 # 2) <= inject_Z (round_half_even q) <= q + (1 # 2))%Q.
Proof.
  destruct q as [n d]. unfold round_half_even. cbn [Qnum Qden].
  pose proof (Z.div_mod n (Zpos d) ltac:(lia)) as Hdm.
  pose proof (Z.mod_pos_bound n (Zpos d) ltac:(lia)) as Hr.
  set (f := (n / Z.pos d)%Z) in *. set (r := (n mod Z.pos d)%Z) in *.
  assert (forall z, (z = f /\ 2 * r <= Zpos d \/ z = f + 1 /\ Zpos d <= 2 * r)%Z ->
          (n # d) - (1 # 2) <= inject_Z z <= (n # d) + (1 # 2))%Q as Hz.
  { intros z Hz. unfold Qle, Qminus, Qplus, Qopp, inject_Z. cbn [Qnum Qden].
    rewrite !Pos2Z.inj_mul. nia. }
  destruct (Z.compare_spec (2 * r) (Zpos d)) as [He|Hl|Hg].
  - destruct (Z.even f); apply Hz; lia.
  - apply Hz; lia.
  - apply Hz; lia.
Qed.

Lemma round_half_even_nonneg (q : Q) : (0 <= q)%Q -> (0 <= round_half_even q)%Z.
Proof.
  intros Hq. pose proof (round_half_even_bounds q) as [Hlo _].
  assert (- (1 # 2) <= inject_Z (round_half_even q))%Q as H.
  { eapply Qle_trans; [|exact Hlo]. unfold Qle, Qminus, Qplus, Qopp in *.
    cbn [Qnum Qden] in *. destruct q as [n d]. cbn [Qnum Qden] in *.
    rewrite ?Pos2Z.inj_mul. nia. }
  unfold Qle, inject_Z, Qopp in H. cbn [Qnum Qden] in H. lia.
Qed.

Lemma round_half_even_upper (q : Q) (b : Z) :
  (q < inject_Z b)%Q -> (round_half_even q <= b)%Z.
Proof.
  intros Hq. pose proof (round_half_even_bounds q) as [_ Hhi].
  assert (inject_Z (round_half_even q) < inject_Z b + (1 # 2))%Q as H.
  { eapply Qle_lt_trans; [exact Hhi|]. by apply Qplus_lt_l. }
  unfold Qlt, inject_Z, Qplus in H. cbn [Qnum Qden] in H. lia.
Qed.

End Rounding.

Section Digits.
Context {U : UnicodeData}.

Lemma digits_value_from_app a x y :
  digits_value_from a (x ++ y) = digits_value_from a x ≫= (fun b => digits_value_from b y).
Proof.
  revert a; induction x as [|c x IH]; intros a; simpl; [done|].
  destruct (digit_value c); [apply IH | done].
Qed.

Lemma ascii_digit_of_residue n : is_ascii_digit (48 + n mod 10)%N = true.
Proof.
  apply ascii_digit_bounds. pose proof (N.mod_lt n 10 ltac:(lia)) as H.
  revert H. generalize (n mod 10)%N. intros r Hr. lia.
Qed.

Lemma digits_value_from_residue a n :
  digits_value_from a [(48 + n mod 10)%N] = Some (10 * a + n mod 10)%N.
Proof.
  simpl. rewrite (ascii_digit_value _ (ascii_digit_of_residue n)). f_equal.
  generalize (n mod 10)%N. intros r. lia.
Qed.

Lemma digits_fuel_S fuel n acc :
  digits_fuel (S fuel) n acc =
    if (n <? 10)%N then (48 + n mod 10)%N :: acc
    else digits_fuel fuel (n / 10)%N ((48 + n mod 10)%N :: acc).
Proof. reflexivity. Qed.

Lemma digits_fuel_spec fuel n acc :
  (n < 10 ^ N.of_nat (S fuel))%N ->
  exists ds, digits_fuel (S fuel) n acc = ds ++ acc /\ ascii_digits ds /\ ds <> []
    /\ forall a, digits_value_from a ds = Some (a * 10 ^ N.of_nat (length ds) + n)%N.
Proof.
  revert n acc; induction fuel as [|fuel IH]; intros n acc Hn.
  - change (10 ^ N.of_nat 1)%N with 10%N in Hn.
    exists [(48 + n mod 10)%N]. rewrite digits_fuel_S.
    destruct (N.ltb_spec n 10); [|lia].
    split; [done|]. split; [by repeat constructor; apply ascii_digit_of_residue|].
    split; [done|]. intros a. rewrite digits_value_from_residue.
    rewrite N.mod_small by done. f_equal. cbn [length]. change (10 ^ N.of_nat 1)%N with 10%N. lia.
  - rewrite digits_fuel_S. destruct (N.ltb_spec n 10) as [Hlt|Hge].
    + exists [(48 + n mod 10)%N].
      split; [done|]. split; [by repeat constructor; apply ascii_digit_of_residue|].
      split; [done|]. intros a. rewrite digits_value_from_residue.
      rewrite N.mod_small by done. f_equal. cbn [length]. change (10 ^ N.of_nat 1)%N with 10%N. lia.
    + destruct (IH (n / 10)%N ((48 + n mod 10)%N :: acc)) as (ds & Hds & Hdig & Hne & Hval).
      { apply N.Div0.div_lt_upper_bound.
        replace (N.of_nat (S (S fuel))) with (N.succ (N.of_nat (S fuel))) in Hn by lia.
        by rewrite N.pow_succ_r' in Hn. }
      exists (ds ++ [(48 + n mod 10)%N]).
      split; [by rewrite Hds, <- app_assoc|].
      split; [apply Forall_app; split; [done|]; by repeat constructor; apply ascii_digit_of_residue|].
      split; [by destruct ds|].
      intros a. rewrite digits_value_from_app, Hval. cbn [mbind option_bind].
      rewrite digits_value_from_residue. f_equal.
      rewrite length_app. cbn [length].
      replace (N.of_nat (length ds + 1)) with (N.succ (N.of_nat (length ds))) by lia.
      rewrite N.pow_succ_r'. pose proof (N.div_mod n 10 ltac:(lia)) as Hdm.
      revert Hdm. generalize (n mod 10)%N (n / 10)%N (10 ^ N.of_nat (length ds))%N.
      intros r q p ->. ring.
Qed.

Lemma digits_of_N_spec n :
  ascii_digits (digits_of_N n) /\ digits_of_N n <> []
  /\ digits_value_from 0%N (digits_of_N n) = Some n.
Proof.
  unfold digits_of_N.
  destruct (digits_fuel_spec (N.to_nat (N.log2 n)) n []) as (ds & Hds & Hdig & Hne & Hval).
  { rewrite Nat2N.inj_succ, N2Nat.id.
    destruct (N.eq_dec n 0%N) as [->|Hn0]; [done|].
    destruct (N.log2_spec n ltac:(lia)) as [_ Hlt].
    eapply N.lt_le_trans; [exact Hlt|]. apply N.pow_le_mono_l. lia. }
  rewrite app_nil_r in Hds. rewrite Hds. split; [done|]. split; [done|].
  rewrite Hval. f_equal; lia.
Qed.

End Digits.

Section Grouping.

Lemma replace_char_rev a s : replace [a] [] (rev s) = rev (replace [a] [] s).
Proof.
  induction s as [|c s IH]; [done|].
  cbn [rev]. rewrite replace_char_app, IH, !replace_char_cons.
  destruct (a =? c)%N; [by rewrite app_nil_r | done].
Qed.

Lemma group3_rev_unfold a b c d rest :
  group3_rev (a :: b :: c :: d :: rest) = a :: b :: c :: 44%N :: group3_rev (d :: rest).
Proof. reflexivity. Qed.

Lemma group3_rev_short ds : length ds <= 3 -> group3_rev ds = ds.
Proof. destruct ds as [|a [|b [|c [|d rest]]]]; simpl; intros; try done; lia. Qed.

Lemma group3_rev_uncomma ds :
  Forall (fun c => c <> 44%N) ds -> replace [44%N] [] (group3_rev ds) = ds.
Proof.
  remember (length ds) as n eqn:Hn. revert ds Hn.
  induction n as [n IH] using lt_wf_ind. intros ds Hn Hds.
  destruct ds as [|a [|b [|c [|d rest]]]];
    try (rewrite group3_rev_short by (simpl; lia); by apply replace_char_absent).
  rewrite group3_rev_unfold.
  inversion_clear Hds as [|? ? Ha Hds1]. inversion_clear Hds1 as [|? ? Hb Hds2].
  inversion_clear Hds2 as [|? ? Hc Hds3].
  rewrite !replace_char_cons.
  destruct (N.eqb_spec 44 a); [done|]. destruct (N.eqb_spec 44 b); [done|].
  destruct (N.eqb_spec 44 c); [done|]. cbn [N.eqb Pos.eqb].
  rewrite (IH (length (d :: rest))); [done| |done|done].
  subst n. simpl. lia.
Qed.

Lemma group3_rev_Forall (P : char -> Prop) ds :
  P 44%N -> Forall P ds -> Forall P (group3_rev ds).
Proof.
  intros H44. remember (length ds) as n eqn:Hn. revert ds Hn.
  induction n as [n IH] using lt_wf_ind. intros ds Hn Hds.
  destruct ds as [|a [|b [|c [|d rest]]]];
    try (rewrite group3_rev_short by (simpl; lia); done).
  rewrite group3_rev_unfold.
  inversion_clear Hds as [|? ? Ha Hds1]. inversion_clear Hds1 as [|? ? Hb Hds2].
  inversion_clear Hds2 as [|? ? Hc Hds3].
  repeat (constructor; [done|]).
  apply (IH (length (d :: rest))); [|done|done]. subst n. simpl. lia.
Qed.

Lemma group3_uncomma ds :
  Forall (fun c => c <> 44%N) ds -> replace [44%N] [] (group3 ds) = ds.
Proof.
  intros Hds. unfold group3.
  rewrite replace_char_rev, group3_rev_uncomma, rev_involutive; [done|].
  by apply Forall_rev.
Qed.

Lemma group3_Forall (P : char -> Prop) ds :
  P 44%N -> Forall P ds -> Forall P (group3 ds).
Proof.
  intros H44 Hds. unfold group3. apply Forall_rev, group3_rev_Forall; [done|].
  by apply Forall_rev.
Qed.

End Grouping.

Section FormatShape.
Context {U : UnicodeData}.

Lemma format_2f_nonneg g v :
  nonneg_finite v = true ->
  format_2f g v =
    (if g then group3 (digits_of_N (cents_of v / 100)) else digits_of_N (cents_of v / 100))
      ++ [46; 48 + (cents_of v mod 100) / 10; 48 + (cents_of v mod 100) mod 10]%N.
Proof. destruct v as [[]|[]| |[] m e]; try done. Qed.

Lemma endswith_00 (x : str) a b c :
  endswith (x ++ [a; b; c]) (lit ".00") = (48 =? c)%N && ((48 =? b)%N && ((46 =? a)%N && true)).
Proof. unfold endswith. rewrite rev_app_distr. reflexivity. Qed.

Lemma drop_last_3 (x : str) a b c : drop_last 3 (x ++ [a; b; c]) = x.
Proof.
  unfold drop_last. rewrite length_app. cbn [length].
  replace (length x + 3 - 3) with (length x) by lia. by rewrite take_app_length.
Qed.

Lemma rstrip_snoc cs (x : str) c :
  rstrip cs (x ++ [c]) = if mem_char cs c then rstrip cs x else x ++ [c].
Proof.
  unfold rstrip. destruct (mem_char cs c) eqn:Hc.
  - by apply rstrip_by_snoc.
  - by apply rstrip_by_last.
Qed.

Lemma format_number_nonneg v :
  nonneg_finite v = true ->
  HeistSummary.format_number v =
    group3 (digits_of_N (cents_of v / 100)) ++ short_frac (cents_of v).
Proof.
  intros Hv. unfold HeistSummary.format_number, short_frac.
  rewrite (format_2f_nonneg true v Hv).
  set (x := group3 _). set (f := (cents_of v mod 100)%N).
  assert (f < 100)%N as Hf by (apply N.mod_lt; lia).
  pose proof (N.div_mod f 10 ltac:(lia)) as Hdm.
  pose proof (N.mod_lt f 10 ltac:(lia)) as Hd2.
  revert Hdm Hd2. generalize (f / 10)%N (f mod 10)%N. intros d1 d2 Hdm Hd2.
  rewrite endswith_00.
  destruct (N.eqb_spec f 0) as [Hf0|Hf0].
  - assert (d1 = 0 /\ d2 = 0)%N as [-> ->] by lia. change (48 + 0)%N with 48%N.
    rewrite !N.eqb_refl. cbn [andb]. by rewrite drop_last_3, app_nil_r.
  - destruct (N.eqb_spec d2 0) as [->|Hd20].
    + assert (d1 <> 0)%N by lia.
      destruct (N.eqb_spec 48 (48 + d1)); [lia|]. rewrite andb_false_r.
      change (x ++ [46; 48 + d1; 48 + 0]%N) with (x ++ [46; 48 + d1]%N ++ [48%N]).
      rewrite app_assoc, rstrip_snoc. cbn [mem_char existsb lit map list_ascii_of_string].
      change (N_of_ascii "0") with 48%N. rewrite N.eqb_refl. cbn [orb].
      change (x ++ [46; 48 + d1]%N) with (x ++ [46%N] ++ [(48 + d1)%N]).
      rewrite app_assoc, rstrip_snoc. cbn [mem_char existsb lit map list_ascii_of_string].
      change (N_of_ascii "0") with 48%N.
      destruct (N.eqb_spec (48 + d1) 48); [lia|]. cbn [orb].
      rewrite rstrip_snoc. cbn [mem_char existsb lit map list_ascii_of_string].
      change (N_of_ascii ".") with 46%N.
      destruct (N.eqb_spec (48 + d1) 46); [lia|]. cbn [orb]. by rewrite <- ?app_assoc.
    + destruct (N.eqb_spec 48 (48 + d2)); [lia|]. cbn [andb].
      change (x ++ [46; 48 + d1; 48 + d2]%N) with (x ++ [46; 48 + d1]%N ++ [(48 + d2)%N]).
      rewrite app_assoc, rstrip_snoc. cbn [mem_char existsb lit map list_ascii_of_string].
      change (N_of_ascii "0") with 48%N.
      destruct (N.eqb_spec (48 + d2) 48); [lia|]. cbn [orb].
      rewrite rstrip_snoc. cbn [mem_char existsb lit map list_ascii_of_string].
      change (N_of_ascii ".") with 46%N.
      destruct (N.eqb_spec (48 + d2) 46); [lia|]. cbn [orb]. by rewrite <- ?app_assoc.
Qed.

End FormatShape.

Section RoundTripText.
Context {U : UnicodeData}.

Lemma float_of_Q_proper (q q' : Q) : q == q' -> float_of_Q q = float_of_Q q'.
Proof. intros Hq. unfold float_of_Q. by rewrite (Qred_complete _ _ Hq). Qed.

Lemma take_until_dot_nodot ds : ascii_digits ds -> take_until_dot ds = ds.
Proof.
  induction 1 as [|c ds Hc _ IH]; [done|]. simpl.
  apply ascii_digit_bounds in Hc. destruct (N.eqb_spec c 46); [lia|]. by rewrite IH.
Qed.

Lemma drop_until_dot_nodot ds : ascii_digits ds -> drop_until_dot ds = [].
Proof.
  induction 1 as [|c ds Hc _ IH]; [done|]. simpl.
  apply ascii_digit_bounds in Hc. destruct (N.eqb_spec c 46); [lia|]. by rewrite IH.
Qed.

Lemma py_float_integer ds n :
  ascii_digits ds -> ds <> [] -> digits_value_from 0%N ds = Some n ->
  py_float ds = Ret (float_of_Q (Z.of_N n # 1)).
Proof.
  intros Hds Hne Hn. unfold py_float.
  rewrite take_until_dot_nodot, drop_until_dot_nodot by done. cbn [tail length].
  rewrite app_nil_r, Hn. by destruct ds.
Qed.

Lemma py_float_decimal ds fd n :
  ascii_digits ds -> ds <> [] -> digits_value_from 0%N (ds ++ fd) = Some n ->
  py_float (ds ++ 46%N :: fd) =
    Ret (float_of_Q (Z.of_N n # Z.to_pos (10 ^ Z.of_nat (length fd)))).
Proof.
  intros Hds Hne Hn. unfold py_float.
  rewrite take_until_dot_digits, drop_until_dot_digits by done. cbn [tail].
  rewrite Hn. by destruct ds.
Qed.

Lemma digits_value_from_digit a d :
  (d < 10)%N -> digits_value_from a [(48 + d)%N] = Some (10 * a + d)%N.
Proof.
  intros Hd. simpl. rewrite ascii_digit_value by (apply ascii_digit_bounds; lia).
  f_equal. lia.
Qed.

Lemma short_frac_numeric c : ascii_numeric (short_frac c).
Proof.
  unfold short_frac. set (f := (c mod 100)%N).
  assert (f < 100)%N as Hf by (apply N.mod_lt; lia).
  pose proof (N.div_mod f 10 ltac:(lia)) as Hdm.
  pose proof (N.mod_lt f 10 ltac:(lia)) as Hd2.
  revert Hdm Hd2. generalize (f / 10)%N (f mod 10)%N. intros d1 d2 Hdm Hd2.
  unfold ascii_numeric.
  destruct (f =? 0)%N; [apply List.Forall_nil|].
  destruct (d2 =? 0)%N;
    repeat (apply List.Forall_cons; [first [by right | left; apply ascii_digit_bounds; lia]|]);
    apply List.Forall_nil.
Qed.

(** The rendering of [c] hundredths reads back as the float nearest to
    [c / 100]. *)
Lemma py_float_rendered c :
  py_float (digits_of_N (c / 100) ++ short_frac c) = Ret (float_of_Q (Z.of_N c # 100)).
Proof.
  destruct (digits_of_N_spec (c / 100)) as (Hds & Hne & Hval).
  unfold short_frac. set (f := (c mod 100)%N).
  assert (f < 100)%N as Hf by (apply N.mod_lt; lia).
  pose proof (N.div_mod c 100 ltac:(lia)) as Hc. fold f in Hc.
  pose proof (N.div_mod f 10 ltac:(lia)) as Hdm.
  pose proof (N.mod_lt f 10 ltac:(lia)) as Hd2.
  revert Hdm Hd2 Hc Hds Hne Hval.
  generalize (digits_of_N (c / 100)). generalize (c / 100)%N.
  generalize (f mod 10)%N. generalize (f / 10)%N.
  intros d1 d2 i ds Hdm Hd2 Hc Hds Hne Hval.
  destruct (N.eqb_spec f 0) as [Hf0|Hf0]; cbv iota.
  - rewrite app_nil_r, (py_float_integer ds i) by done. f_equal.
    apply float_of_Q_proper. unfold Qeq. cbn [Qnum Qden]. lia.
  - destruct (N.eqb_spec d2 0) as [Hd20|Hd20]; cbv iota.
    + rewrite (py_float_decimal ds [(48 + d1)%N] (10 * i + d1)%N); [|done|done|].
      * f_equal. apply float_of_Q_proper. unfold Qeq. cbn [Qnum Qden length]. lia.
      * rewrite digits_value_from_app, Hval. cbn [mbind option_bind].
        apply digits_value_from_digit. lia.
    + rewrite (py_float_decimal ds [(48 + d1)%N; (48 + d2)%N] c); [|done|done|].
      * f_equal.
      * rewrite digits_value_from_app, Hval. cbn [mbind option_bind].
        change [(48 + d1)%N; (48 + d2)%N] with ([(48 + d1)%N] ++ [(48 + d2)%N]).
        rewrite digits_value_from_app, digits_value_from_digit by lia.
        cbn [mbind option_bind]. rewrite digits_value_from_digit by lia. f_equal. lia.
Qed.

Lemma cleaned_rendered c :
  cleaned (group3 (digits_of_N (c / 100)) ++ short_frac c)
  = digits_of_N (c / 100) ++ short_frac c.
Proof.
  destruct (digits_of_N_spec (c / 100)) as (Hds & _ & _).
  pose proof (short_frac_numeric c) as Hsf.
  unfold cleaned. change (lit ",") with [44%N].
  rewrite (replace_char_absent glyph).
  - rewrite replace_char_app, group3_uncomma, (replace_char_absent 44%N (short_frac c)).
    + apply strip_no_space, Forall_app. split.
      * eapply Forall_impl; [exact Hds|]. intros c0 Hc0. apply ascii_numeric_not_space. auto.
      * eapply Forall_impl; [exact Hsf|]. apply ascii_numeric_not_space.
    + eapply Forall_impl; [exact Hsf|]. intros c0 [Hc0 | ->]; [|done].
      apply ascii_digit_bounds in Hc0. lia.
    + eapply Forall_impl; [exact Hds|]. intros c0 Hc0.
      apply ascii_digit_bounds in Hc0. lia.
  - apply Forall_app. split.
    + apply group3_Forall; [done|]. eapply Forall_impl; [exact Hds|]. intros c0 Hc0.
      apply ascii_digit_bounds in Hc0. unfold glyph. lia.
    + eapply Forall_impl; [exact Hsf|]. intros c0 [Hc0 | ->]; [|done].
      apply ascii_digit_bounds in Hc0. unfold glyph. lia.
Qed.

Lemma parse_currency_value_rendered c :
  HeistSummary.parse_currency_value (group3 (digits_of_N (c / 100)) ++ short_frac c)
  = Ret (Some (float_of_Q (Z.of_N c # 100))).
Proof.
  destruct (digits_of_N_spec (c / 100)) as (Hds & Hne & _).
  rewrite (parse_currency_value_literal _ (digits_of_N (c / 100) ++ short_frac c) []
             (float_of_Q (Z.of_N c # 100))); [done| | | | |done|].
  - intros Hnil. pose proof (cleaned_rendered c) as Hcl. rewrite Hnil in Hcl.
    change (cleaned []) with (@nil char) in Hcl. symmetry in Hcl.
    apply app_eq_nil in Hcl as [? _]. done.
  - by rewrite cleaned_rendered, app_nil_r.
  - intros Hnil. apply app_eq_nil in Hnil as [? _]. done.
  - apply Forall_app. split.
    + eapply Forall_impl; [exact Hds|]. intros c0 Hc0. apply ascii_numeric_class. auto.
    + eapply Forall_impl; [apply short_frac_numeric|]. apply ascii_numeric_class.
  - apply py_float_rendered.
Qed.

(** Formatting a non-negative float and parsing the text back gives the
    float nearest to its two-decimal rounding. *)
Lemma parse_format_number v :
  nonneg_finite v = true ->
  HeistSummary.parse_currency_value (HeistSummary.format_number v)
  = Ret (Some (float_of_Q (Z.of_N (cents_of v) # 100))).
Proof. intros Hv. rewrite format_number_nonneg by done. apply parse_currency_value_rendered. Qed.

End RoundTripText.

Section NearestFloat.

Lemma floor_log2_below n d b :
  (0 <= b)%Z -> (Zpos n < Zpos d * 2 ^ b)%Z -> (floor_log2 n d < b)%Z.
Proof.
  intros Hb Hn. unfold floor_log2.
  set (k := (Z.log2 (Z.pos n) - Z.log2 (Z.pos d))%Z).
  assert (k <= b)%Z as Hk.
  { assert (Z.log2 (Z.pos n) <= Z.log2 (Z.pos d * 2 ^ b))%Z as Hle
      by (apply Z.log2_le_mono; lia).
    rewrite Z.log2_mul_pow2 in Hle by lia. lia. }
  destruct (Qle_bool 1 (scaled n d k)) eqn:Htest; [|lia].
  destruct (Z.eq_dec k b) as [Heq|Hne]; [|lia].
  exfalso. rewrite Heq in Htest. unfold scaled in Htest.
  destruct (Z.leb_spec 0 b); [|lia].
  unfold Qle_bool in Htest. cbn [Qnum Qden] in Htest.
  apply Z.leb_le in Htest. rewrite Pos2Z.inj_mul, Z2Pos.id in Htest; [lia|].
  apply Z.pow_pos_nonneg; lia.
Qed.

Lemma round_half_even_unique (x : Q) (c : Z) :
  (Qabs (x - inject_Z c) < 1 # 2)%Q -> round_half_even x = c.
Proof.
  intros Hx. apply Qabs_Qlt_condition in Hx as [Hlo Hhi].
  pose proof (round_half_even_bounds x) as [Hrlo Hrhi].
  revert Hrlo Hrhi. generalize (round_half_even x). intros z Hrlo Hrhi.
  destruct x as [n d]. unfold Qlt, Qle, Qminus, Qplus, Qopp, inject_Z in *.
  cbn [Qnum Qden] in *. rewrite ?Pos2Z.inj_mul in *. nia.
Qed.

(** Below the first bit of exponent 0 the rounding to a float errs by at
    most half a unit of the last bit. *)
Lemma round_to_float_near n d e :
  e = Z.max (floor_log2 n d - 52) (-1074) -> (e <= -2)%Z ->
  nonneg_finite (round_to_float false n d) = true
  /\ exists qw, value (round_to_float false n d) = Some qw
       /\ (Qabs (qw - (Zpos n # d)) <= 1 # Z.to_pos (2 * 2 ^ (- e)))%Q.
Proof.
  intros He Hneg. unfold round_to_float. rewrite <- He.
  assert (0 < 2 ^ (- e))%Z as HP by (apply Z.pow_pos_nonneg; lia).
  assert (scaled n d e = (Zpos n * 2 ^ (- e)) # d) as Hsc.
  { unfold scaled. destruct (Z.leb_spec 0 e); [lia | done]. }
  rewrite Hsc.
  pose proof (round_half_even_bounds ((Zpos n * 2 ^ (- e)) # d)) as [Hlo Hhi].
  assert (0 <= round_half_even ((Zpos n * 2 ^ (- e)) # d))%Z as Hm0.
  { apply round_half_even_nonneg. unfold Qle. cbn [Qnum Qden]. nia. }
  revert Hlo Hhi Hm0. generalize (round_half_even ((Zpos n * 2 ^ (- e)) # d)).
  intros m Hlo Hhi Hm0.
  assert (forall qw, (qw == m # Z.to_pos (2 ^ (- e)))%Q ->
          (Qabs (qw - (Zpos n # d)) <= 1 # Z.to_pos (2 * 2 ^ (- e)))%Q) as Hbound.
  { intros qw ->. apply Qabs_Qle_condition.
    unfold Qle, Qminus, Qplus, Qopp, inject_Z in *. cbn [Qnum Qden] in *.
    rewrite ?Pos2Z.inj_mul, ?Z2Pos.id in * by lia.
    revert HP Hlo Hhi. generalize (2 ^ (- e))%Z. intros P HP Hlo Hhi.
    assert (- Zpos d <= 2 * (m * Zpos d - Zpos n * P) <= Zpos d)%Z as HX by lia.
    replace ((m * Z.pos d + - Z.pos n * P) * (2 * P))%Z
      with (P * (2 * (m * Z.pos d - Z.pos n * P)))%Z by ring.
    revert HX. generalize (2 * (m * Zpos d - Zpos n * P))%Z. intros Y HY.
    split; nia. }
  destruct (Z.eqb_spec m (2 ^ 53)) as [->|Hne].
  - change (2 ^ 52)%Z with (Zpos 4503599627370496).
    destruct (Z.leb_spec (e + 1) 971); [|lia].
    split; [done|]. eexists. split; [reflexivity|]. apply Hbound.
    unfold finite_Q. destruct (Z.leb_spec 0 (e + 1)); [lia|].
    assert (2 ^ (- e) = 2 * 2 ^ (- (e + 1)))%Z as Hpow.
    { replace (- e)%Z with (1 + - (e + 1))%Z by lia. by rewrite Z.pow_add_r by lia. }
    assert (0 < 2 ^ (- (e + 1)))%Z as HP' by (apply Z.pow_pos_nonneg; lia).
    unfold Qeq. cbn [Qnum Qden]. rewrite !Z2Pos.id by lia. rewrite Hpow.
    change (2 ^ 53)%Z with 9007199254740992%Z. lia.
  - destruct m as [|p|p]; [| |lia].
    + split; [done|]. eexists. split; [reflexivity|]. apply Hbound. done.
    + destruct (Z.leb_spec e 971); [|lia].
      split; [done|]. eexists. split; [reflexivity|]. apply Hbound.
      unfold finite_Q. destruct (Z.leb_spec 0 e); [lia|]. done.
Qed.

End NearestFloat.

Section RoundTripValue.
Context {U : UnicodeData}.

Lemma cents_of_value v q :
  nonneg_finite v = true -> value v = Some q ->
  cents_of v = Z.to_N (round_half_even (100 * q)) /\ (0 <= q)%Q.
Proof.
  destruct v as [[]|[]| |[] m e]; try done; intros _ [= <-].
  - split; [done|]. apply Qle_refl.
  - split; [done|]. unfold finite_Q.
    destruct (0 <=? e)%Z; unfold Qle, inject_Z; cbn [Qnum Qden]; lia.
Qed.

(** The float nearest to [c / 100], for [c] up to 100000, is within
    2^-44 of it and is rendered with [c] hundredths again. *)
Lemma nearest_cents c :
  (c <= 100000)%N ->
  nonneg_finite (float_of_Q (Z.of_N c # 100)) = true
  /\ exists qw, value (float_of_Q (Z.of_N c # 100)) = Some qw
       /\ (Qabs (qw - (Z.of_N c # 100)) <= 1 # 17592186044416)%Q
       /\ cents_of (float_of_Q (Z.of_N c # 100)) = c.
Proof.
  intros Hc. unfold float_of_Q.
  pose proof (Qred_correct (Z.of_N c # 100)) as Hred.
  destruct (Qred (Z.of_N c # 100)) as [rn d]. cbn [Qnum Qden].
  unfold Qeq in Hred. cbn [Qnum Qden] in Hred.
  destruct rn as [|n|n]; [| |lia].
  - assert (c = 0%N) as -> by lia. split; [done|].
    exists 0%Q. split; [done|]. split; [done|]. reflexivity.
  - assert (floor_log2 n d < 10)%Z as Hfl.
    { apply floor_log2_below; [lia|]. change (2 ^ 10)%Z with 1024%Z. nia. }
    set (e := Z.max (floor_log2 n d - 52) (-1074)).
    destruct (round_to_float_near n d e eq_refl ltac:(lia)) as (Hnn & qw & Hqw & Hnear).
    split; [done|]. exists qw. split; [done|].
    assert (Zpos n # d == Z.of_N c # 100)%Q as Heq by (unfold Qeq; cbn [Qnum Qden]; lia).
    rewrite Heq in Hnear.
    assert (Qabs (qw - (Z.of_N c # 100)) <= 1 # 17592186044416)%Q as Hclose.
    { eapply Qle_trans; [exact Hnear|]. unfold Qle. cbn [Qnum Qden].
      assert (2 ^ 43 <= 2 ^ (- e))%Z by (apply Z.pow_le_mono_r; lia).
      rewrite Z2Pos.id by lia. change (2 ^ 43)%Z with 8796093022208%Z in *. lia. }
    split; [done|].
    destruct (cents_of_value _ qw Hnn Hqw) as [-> _].
    rewrite (round_half_even_unique (100 * qw) (Z.of_N c)); [lia|].
    apply Qabs_Qle_condition in Hclose as [Hlo Hhi]. apply Qabs_Qlt_condition.
    destruct qw as [a b]. revert Hlo Hhi. generalize (Z.of_N c). intros z Hlo Hhi.
    unfold Qlt, Qle, Qminus, Qplus, Qopp, Qmult, inject_Z in *. cbn [Qnum Qden] in *.
    rewrite ?Pos2Z.inj_mul in *. split; lia.
Qed.

End RoundTripValue.

Section RoundTripParse.
Context {U : UnicodeData}.

Lemma round_trip_value v q :
  nonneg_finite v = true -> value v = Some q -> (q < 1000)%Q ->
  exists w qw,
    HeistSummary.parse_currency_value (HeistSummary.format_number v) = Ret (Some w)
    /\ nonneg_finite w = true /\ value w = Some qw
    /\ (Qabs (qw - q) <= (1 # 200) + (1 # 17592186044416))%Q
    /\ HeistSummary.format_number w = HeistSummary.format_number v.
Proof.
  intros Hv Hq Hlt.
  destruct (cents_of_value v q Hv Hq) as [Hc Hq0].
  pose proof (round_half_even_bounds (100 * q)) as [Hlo Hhi].
  assert (0 <= round_half_even (100 * q))%Z as Hr0.
  { apply round_half_even_nonneg. apply Qmult_le_0_compat; [done | exact Hq0]. }
  assert (round_half_even (100 * q) <= 100000)%Z as Hr1.
  { apply round_half_even_upper. change (inject_Z 100000) with (100 * 1000)%Q.
    apply Qmult_lt_l; done. }
  assert (inject_Z (round_half_even (100 * q)) = (Z.of_N (cents_of v) # 1)) as Hinj.
  { rewrite Hc, Z2N.id by done. reflexivity. }
  rewrite Hinj in Hlo, Hhi.
  destruct (nearest_cents (cents_of v) ltac:(lia)) as (Hnn & qw & Hqw & Hval & Hcents).
  set (w := float_of_Q (Z.of_N (cents_of v) # 100)) in *.
  exists w, qw. split; [by apply parse_format_number|].
  split; [done|]. split; [done|]. split.
  - assert (qw - q == (qw - (Z.of_N (cents_of v) # 100)) + ((Z.of_N (cents_of v) # 100) - q))%Q
      as -> by ring.
    eapply Qle_trans; [apply Qabs_triangle|].
    rewrite Qplus_comm. apply Qplus_le_compat; [|exact Hval].
    apply Qabs_Qle_condition. revert Hlo Hhi. generalize (Z.of_N (cents_of v)). intros z.
    destruct q as [n d]. unfold Qle, Qminus, Qplus, Qopp, Qmult. cbn [Qnum Qden].
    rewrite ?Pos2Z.inj_mul. intros Hlo Hhi. split; nia.
  - rewrite !format_number_nonneg by done. by rewrite Hcents.
Qed.

End RoundTripParse.

Section DetectorLemmas.
Context {U : UnicodeData}.

Lemma scan_lines_cons line lines t c :
  HeistSummary.scan_lines (line :: lines) t c =
    let* (t1, c1) := HeistSummary.scan_line line t c in HeistSummary.scan_lines lines t1 c1.
Proof. reflexivity. Qed.

#[local] Arguments HeistSummary.scan_lines : simpl never.
#[local] Arguments HeistCalc.scan_lines : simpl never.
#[local] Arguments contains : simpl never.

Lemma calc_detect_no_phrase cfg msg :
  contains phrase (lower (HeistSummary.combined_content msg)) = false ->
  HeistCalc.detect_and_reply cfg msg = HeistCalc.ret None.
Proof.
  intros Hp. unfold HeistCalc.detect_and_reply.
  change (HeistCalc.combined_content msg) with (HeistSummary.combined_content msg).
  fold phrase. by rewrite Hp.
Qed.

Lemma calc_on_message_no_phrase self msg :
  contains phrase (lower (HeistSummary.combined_content msg)) = false ->
  (HeistCalc.on_message self msg).2 = HeistCalc.ret None.
Proof.
  intros Hp. unfold HeistCalc.on_message.
  destruct (decide _); [done|]. destruct (guild_id msg); [|done].
  destruct (negb (author_id msg =? _)%Z); [done|].
  destruct (HeistCalc.get_guild_config _ _) as [self' cfg].
  destruct (negb _); [done|]. by apply calc_detect_no_phrase.
Qed.

(** The line scan raises nothing but what [int] raises. *)
Lemma scan_lines_raise lines t c e :
  HeistSummary.scan_lines lines t c = Raise e -> e <> ZeroDivisionError.
Proof.
  revert t c; induction lines as [|line lines IH]; intros t c; [done|].
  rewrite scan_lines_cons, scan_line_spec. destruct (parsed_count line) as [v|]; [|apply IH].
  destruct v as [s|s| |s m e']; cbn [int_of_float bind]; try apply IH;
    by intros [= <-].
Qed.

Lemma truediv_int_nonzero x n e :
  n <> 0%Z -> truediv_int x n = Raise e -> e <> ZeroDivisionError.
Proof.
  intros Hn. unfold truediv_int. destruct (Z.eqb_spec n 0); [done|].
  unfold float_of_int. destruct (float_of_Z n); cbn [bind]; try done.
  by intros [= <-].
Qed.

Lemma each_amounts_raise found e :
  Forall (fun d : HeistSummary.detection => (0 < d.2)%Z) found ->
  HeistSummary.each_amounts found = Raise e -> e <> ZeroDivisionError.
Proof.
  induction 1 as [|[[msg t] c] found Hc _ IH]; cbn [HeistSummary.each_amounts]; [done|].
  destruct (truediv_int t c) as [each|e1] eqn:Hdiv; cbn [bind].
  - destruct (HeistSummary.each_amounts found) as [tl|e2]; cbn [bind]; [done|].
    intros [= <-]. by apply IH.
  - intros [= <-]. apply (truediv_int_nonzero t c); [simpl in Hc; lia | done].
Qed.

Lemma scan_messages_raise limit msgs found e :
  HeistSummary.scan_messages msgs limit found = Raise e -> e <> ZeroDivisionError.
Proof.
  revert found; induction msgs as [|msg msgs IH]; intros found;
    cbn [HeistSummary.scan_messages]; [done|].
  destruct (HeistSummary.scan_message msg found) as [r|e1] eqn:Hr; cbn [bind].
  - destruct r as [found'|]; [|apply IH]. destruct (_ >=? _)%Z; [done | apply IH].
  - intros [= <-]. destruct (qualifies msg) eqn:Hq.
    + rewrite scan_message_qualified in Hr by done.
      destruct (HeistSummary.scan_lines _ _ _) as [[t c]|e2] eqn:Hs; cbn [bind] in Hr; [done|].
      injection Hr as <-. by apply scan_lines_raise in Hs.
    + by rewrite scan_message_unqualified in Hr.
Qed.

(** Division by zero is unreachable in the summary commands. *)
Lemma summary_no_zero_division ch heists_count :
  HeistSummary.heist_summary ch heists_count <> Raise ZeroDivisionError.
Proof.
  unfold HeistSummary.heist_summary. destruct (_ || _); [done|].
  unfold HeistSummary.get_recent_heist_messages.
  destruct (HeistSummary.scan_messages _ _ _) as [found|e] eqn:Hs; cbn [bind].
  - apply scan_messages_positive in Hs; [|constructor].
    destruct (rev found) as [|d l] eqn:Hrev; [done|].
    destruct (HeistSummary.each_amounts (d :: l)) as [rows|e] eqn:He; cbn [bind]; [done|].
    intros [= ->]. eapply each_amounts_raise; [|exact He|done].
    rewrite <- Hrev. by apply Forall_rev.
  - intros [= ->]. by apply scan_messages_raise in Hs.
Qed.

Lemma abbreviate_number_returns val : returns (HeistSummary.abbreviate_number val).
Proof. rewrite summary_abbreviate_number_spec. by eexists. Qed.

(** Division by zero is unreachable in the calculator's listener. *)
Lemma calc_no_zero_division cfg msg :
  (HeistCalc.detect_and_reply cfg msg).2 <> Raise ZeroDivisionError.
Proof.
  unfold HeistCalc.detect_and_reply. destruct (negb _); [done|].
  pose proof (calc_scan_lines_result
    (splitlines (strip (HeistCalc.combined_content msg))) None 0) as Hs.
  destruct (HeistCalc.scan_lines _ _ _) as [l1 [[t c]|e]]; cbn [snd] in Hs.
  - cbn [HeistCalc.bind_log]. destruct t as [total|]; [|done].
    destruct (Z.eqb_spec c 0) as [->|Hc]; [done|].
    destruct (truediv_int total c) as [each|e] eqn:Hdiv.
    + cbn [HeistCalc.lift HeistCalc.bind_log].
      change (HeistCalc.abbreviate_number each) with (HeistSummary.abbreviate_number each).
      destruct (abbreviate_number_returns each) as [abbr ->].
      cbn [HeistCalc.lift HeistCalc.bind_log]. by destruct (decide _).
    + cbn [HeistCalc.lift HeistCalc.bind_log snd]. intros [= ->].
      by apply truediv_int_nonzero in Hdiv.
  - cbn [HeistCalc.bind_log snd]. intros [= ->]. symmetry in Hs.
    by apply scan_lines_raise in Hs.
Qed.

(** The calculator replies only with a positive count. *)
Lemma parsed_count_nonneg line v c :
  parsed_count line = Some v -> int_of_float v = Ret c -> (0 <= c)%Z.
Proof.
  unfold parsed_count. destruct (count_token line) as [tok|]; [|done]. cbn [mbind option_bind].
  unfold HeistSummary.parse_plain_number. destruct tok as [|c0 tok]; [done|].
  destruct (re_match _ _) as [groups|]; [|done].
  unfold py_float. destruct (_ ++ _); [done|]. destruct (digits_value_from _ _) as [n|]; [|done].
  cbn [parsed]. intros [= <-]. unfold float_of_Q, round_to_float.
  destruct (Qnum _) as [|p|p] eqn:Hnum.
  - by intros [= <-].
  - destruct (if (_ =? _)%Z then _ else _) as [m e''].
    destruct m as [|m|m]; try (by intros [= <-]).
    destruct (_ <=? _)%Z; [|done]. cbn [int_of_float].
    destruct (Z.leb_spec 0 e''); intros [= <-].
    + apply Z.mul_nonneg_nonneg; [lia | apply Z.pow_nonneg; lia].
    + apply Z.div_pos; [lia | apply Z.pow_pos_nonneg; lia].
  - exfalso. pose proof (Qred_correct (Z.of_N n # Z.to_pos (10 ^ Z.of_nat (length (tail (drop_until_dot (group groups 1))))))) as Hred.
    unfold Qeq in Hred. rewrite Hnum in Hred. cbn [Qnum Qden] in Hred. lia.
Qed.

End DetectorLemmas.

Section Detection.
Context {U : UnicodeData}.

(** C1: a message whose lower-cased combined text does not contain
    "amazing job everybody" is rejected by both detectors: the scan of the
    summary cog skips it whatever else it contains, and the calculator
    answers nothing and logs nothing, so no total or count is extracted. *)
Theorem payout_phrase_required (msg : message) :
  contains phrase (lower (HeistSummary.combined_content msg)) = false ->
  (forall found, HeistSummary.scan_message msg found = Ret None)
  /\ (forall cfg, HeistCalc.detect_and_reply cfg msg = HeistCalc.ret None)
  /\ (forall self, (HeistCalc.on_message self msg).2 = HeistCalc.ret None).
Proof.
  intros Hp. split; [|split].
  - intros found. apply scan_message_unqualified. unfold qualifies.
    by rewrite Hp, andb_false_r.
  - intros cfg. by apply calc_detect_no_phrase.
  - intros self. by apply calc_on_message_no_phrase.
Qed.

(** C2, at the failing input: a qualifying message with no total line and
    a count token beyond the float range makes [int] raise
    [OverflowError], which escapes the scan of the summary cog and the
    listener of the calculator instead of "no payout data". *)
Theorem count_overflow_escapes :
  omap total_token (message_lines overflow_message) = []
  /\ HeistSummary.scan_message overflow_message [] = Raise OverflowError
  /\ HeistSummary.get_recent_heist_messages
       {| messages_newest_first := [overflow_message] |} 1 = Raise OverflowError
  /\ (HeistCalc.detect_and_reply ∅ overflow_message).2 = Raise OverflowError
  /\ (HeistCalc.on_message enabled_cog overflow_message).2.2 = Raise OverflowError.
Proof. repeat split; vm_compute; reflexivity. Qed.

End Detection.

Section Extraction.
Context {U : UnicodeData}.

#[local] Arguments HeistSummary.scan_lines : simpl never.

Lemma scan_lines_nil t c : HeistSummary.scan_lines [] t c = Ret (t, c).
Proof. reflexivity. Qed.





(** C10: the total the scan ends with is the value of the last line whose
    token parses, and the count is [int] of the value of the last line
    whose count token parses; a line that matches a pattern but whose token
    does not parse leaves the value of the earlier lines in place. *)
Theorem last_parsed_line_wins lines t c :
  HeistSummary.scan_lines lines None 0 = Ret (t, c) ->
  t = last (omap parsed_total lines)
  /\ match last (omap parsed_count lines) with
     | Some v => int_of_float v = Ret c
     | None => c = 0%Z
     end
  /\ (HeistCalc.scan_lines lines None 0).2 = Ret (t, c)
  /\ (forall pre line, lines = pre ++ [line] ->
        total_token line <> None -> parsed_total line = None ->
        exists c', HeistSummary.scan_lines pre None 0 = Ret (t, c'))
  /\ (forall pre line, lines = pre ++ [line] ->
        count_token line <> None -> parsed_count line = None ->
        exists t', HeistSummary.scan_lines pre None 0 = Ret (t', c)).
Proof.
  intros Hscan. split; [|split; [|split; [|split]]].
  - apply scan_lines_total in Hscan as ->. by destruct (last _).
  - by apply scan_lines_count in Hscan.
  - by rewrite calc_scan_lines_result.
  - intros pre line -> _ Hnone. rewrite scan_lines_app in Hscan.
    destruct (HeistSummary.scan_lines pre None 0) as [[t1 c1]|e]; cbn [bind] in Hscan; [|done].
    exists c1. f_equal. f_equal.
    rewrite scan_lines_cons, scan_line_spec, Hnone in Hscan. cbn [keep_or] in Hscan.
    destruct (parsed_count line) as [v|]; [destruct (int_of_float v)|];
      cbn [bind] in Hscan; rewrite ?scan_lines_nil in Hscan; congruence.
  - intros pre line -> _ Hnone. rewrite scan_lines_app in Hscan.
    destruct (HeistSummary.scan_lines pre None 0) as [[t1 c1]|e]; cbn [bind] in Hscan; [|done].
    exists t1. f_equal. f_equal.
    rewrite scan_lines_cons, scan_line_spec, Hnone in Hscan.
    cbn [bind] in Hscan. rewrite scan_lines_nil in Hscan. congruence.
Qed.

(** C4: the commands run the batch scan only with a limit from 1 to 5, any
    other [heists_count] being refused before the scan. For such a limit
    the scan evaluates the messages newest first with the single-message
    detector, returns the first [limit] detections in chronological order,
    never more than [limit], and does not look past the message that
    completes them; over ten messages of which three qualify and a limit of
    two it returns the two most recent detections, the older first. *)
Theorem batch_scan_collects ch limit :
  (1 <= limit)%Z ->
  (forall heists_count, (heists_count < 1 \/ 5 < heists_count)%Z ->
     HeistSummary.heist_summary ch heists_count = Ret None)
  /\ (forall rs, Forall2 (fun m r => detect m = Ret r) (history ch 100) rs ->
     HeistSummary.get_recent_heist_messages ch limit =
       Ret (rev (take (Z.to_nat limit) (omap id rs))))
  /\ (forall found, HeistSummary.get_recent_heist_messages ch limit = Ret found ->
        (Z.of_nat (length found) <= limit)%Z)
  /\ (forall pre suf found, history ch 100 = pre ++ suf ->
        HeistSummary.scan_messages pre limit [] = Ret found ->
        (limit <= Z.of_nat (length found))%Z ->
        HeistSummary.get_recent_heist_messages ch limit = Ret (rev found))
  /\ HeistSummary.get_recent_heist_messages {| messages_newest_first := ten_messages |} 2 =
       Ret [ (dank 6 []
               [ {| title := Some (lit "AMAZING JOB EVERYBODY");
                    description := Some (lit "**`racked up a total of " ++ [glyph]
                                           ++ lit "3.5M`**" ++ nl
                                           ++ lit "`7 users got the payout`") |} ],
              float_of_Z 3500000, 7%Z);
             (dank 9 (payout_text "1,000" "2") [], float_of_Z 1000, 2%Z) ].
Proof.
  intros Hlim. split.
  { intros heists_count Hout. unfold HeistSummary.heist_summary.
    destruct (Z.ltb_spec heists_count 1); [done|].
    destruct (Z.gtb_spec heists_count 5); [done | lia]. }
  unfold HeistSummary.get_recent_heist_messages.
  split; [|split; [|split]].
  - intros rs Hrs.
    by rewrite (scan_messages_spec limit (history ch 100) rs []) by (done || simpl; lia).
  - intros found.
    destruct (HeistSummary.scan_messages _ _ _) as [found'|e] eqn:Hs; cbn [bind]; [|done].
    intros [= <-]. rewrite length_rev.
    apply (scan_messages_length limit (history ch 100) [] found'); [simpl; lia | done].
  - intros pre suf found -> Hpre Hlen.
    by rewrite (scan_messages_stop limit pre suf [] found) by (done || simpl; lia).
  - vm_compute. reflexivity.
Qed.

(** C5: the currency parser removes the glyph and the commas, strips the
    text, reads the leading numeric literal and multiplies it by 1,000,
    1,000,000 or 1,000,000,000 for a following k, m or b of either case,
    and leaves it as it is otherwise; the text of 1.5M with the glyph gives
    1,500,000 and "garbage" gives no value. The copy of the calculator
    returns the same and writes no log record when it returns a value. *)
Theorem parse_currency_value_scales raw num rest base :
  raw <> [] -> cleaned raw = num ++ rest ->
  num <> [] -> Forall (fun c => num_class c = true) num -> stops num_class rest ->
  py_float num = Ret base ->
  HeistSummary.parse_currency_value raw =
    match scale_of rest with
    | Some k => Ret (Some (SFmul prec emax base (float_of_Z k)))
    | None => Ret (Some base)
    end
  /\ HeistCalc.parse_currency_value raw =
       ([], match scale_of rest with
            | Some k => Ret (Some (SFmul prec emax base (float_of_Z k)))
            | None => Ret (Some base)
            end)
  /\ HeistSummary.parse_currency_value (glyph :: lit " 1.5M") = Ret (Some (float_of_Z 1500000))
  /\ (HeistCalc.parse_currency_value (glyph :: lit " 1.5M")).2 = Ret (Some (float_of_Z 1500000))
  /\ (exists q, value (float_of_Z 1500000) = Some q /\ q == inject_Z 1500000)%Q
  /\ HeistSummary.parse_currency_value (lit "garbage") = Ret None
  /\ (HeistCalc.parse_currency_value (lit "garbage")).2 = Ret None.
Proof.
  intros Hraw Hclean Hne Hnum Hrest Hbase.
  assert (match scale_of rest with
          | Some k => let* v := mul_int base k in Ret (Some v)
          | None => Ret (Some base)
          end
          = match scale_of rest with
            | Some k => Ret (Some (SFmul prec emax base (float_of_Z k)))
            | None => Ret (Some base)
            end) as Hscale.
  { unfold scale_of. destruct rest as [|c rest]; [done|].
    repeat (destruct (_ || _); [reflexivity|]). done. }
  split; [|split; [|split; [|split; [|split; [|split]]]]].
  - by rewrite (parse_currency_value_literal raw num rest base).
  - by rewrite (calc_parse_currency_value_literal raw num rest base), Hscale.
  - vm_compute. reflexivity.
  - vm_compute. reflexivity.
  - eexists. split; [reflexivity|]. vm_compute. reflexivity.
  - vm_compute. reflexivity.
  - vm_compute. reflexivity.
Qed.

End Extraction.

Section Formatting.
Context {U : UnicodeData}.

(** C6, amended: the abbreviated form takes the largest of billion,
    million and thousand the magnitude reaches, renders the quotient with
    two decimals, drops a trailing ".00" and nothing else, and appends B, M
    or K; below a thousand it is the grouped form. 1000 gives "1K", 1500
    gives "1.50K", 1234567 gives "1.23M" and 2000000000 gives "2B". Both
    copies do so, for every float. *)
Theorem abbreviate_number_follows_spec val :
  HeistSummary.abbreviate_number val = Ret (abbreviate_spec val)
  /\ HeistCalc.abbreviate_number val = Ret (abbreviate_spec val)
  /\ HeistSummary.abbreviate_number (float_of_Z 1000) = Ret (lit "1K")
  /\ HeistSummary.abbreviate_number (float_of_Z 1500) = Ret (lit "1.50K")
  /\ HeistSummary.abbreviate_number (float_of_Z 1234567) = Ret (lit "1.23M")
  /\ HeistSummary.abbreviate_number (float_of_Z 2000000000) = Ret (lit "2B").
Proof.
  split; [apply summary_abbreviate_number_spec|].
  split; [rewrite calc_abbreviate_number_eq; apply summary_abbreviate_number_spec|].
  repeat split; vm_compute; reflexivity.
Qed.


(** C8: a non-negative finite float below 1000, rendered by
    [format_number] and read back by [parse_currency_value], gives a float
    within 0.005 (and a float rounding of 2^-44) of the original, which
    [format_number] renders as the same text: the original up to its
    rounding at two decimals. *)
Theorem format_parse_round_trip v q :
  nonneg_finite v = true -> value v = Some q -> (q < 1000)%Q ->
  exists w qw,
    HeistSummary.parse_currency_value (HeistSummary.format_number v) = Ret (Some w)
    /\ nonneg_finite w = true /\ value w = Some qw
    /\ (Qabs (qw - q) <= (1 # 200) + (1 # 17592186044416))%Q
    /\ HeistSummary.format_number w = HeistSummary.format_number v.
Proof. apply round_trip_value. Qed.

(** C9: the four helpers of the heist auto calculator compute what those
    of heistsummary.py compute, for every input; the calculator's parsers
    write log records besides. *)
Theorem helpers_agree :
  (forall raw, (HeistCalc.parse_currency_value raw).2 = HeistSummary.parse_currency_value raw)
  /\ (forall raw, (HeistCalc.parse_plain_number raw).2 = HeistSummary.parse_plain_number raw)
  /\ (forall val, HeistCalc.format_number val = HeistSummary.format_number val)
  /\ (forall val, HeistCalc.abbreviate_number val = HeistSummary.abbreviate_number val).
Proof.
  split; [apply calc_parse_currency_value_result|].
  split; [apply calc_parse_plain_number_result|].
  split; [apply calc_format_number_eq | apply calc_abbreviate_number_eq].
Qed.

End Formatting.

(** ** Concrete inputs *)

Lemma payout_phrase_required_witness :
  contains phrase (lower (U:=ascii_tables) (HeistSummary.combined_content no_phrase_message))
    = false
  /\ HeistSummary.scan_message (U:=ascii_tables) no_phrase_message [] = Ret None.
Proof.
  split; [vm_compute; reflexivity|].
  pose proof (payout_phrase_required (U:=ascii_tables) no_phrase_message
                ltac:(vm_compute; reflexivity)) as [H _].
  exact (H []).
Defined.


Lemma last_parsed_line_wins_witness :
  HeistSummary.scan_lines (U:=ascii_tables) two_totals None 0 = Ret (Some (float_of_Z 5), 0%Z)
  /\ Some (float_of_Z 5) = last (omap (parsed_total (U:=ascii_tables)) two_totals).
Proof.
  split; [vm_compute; reflexivity|].
  pose proof (last_parsed_line_wins (U:=ascii_tables) two_totals (Some (float_of_Z 5)) 0
                ltac:(vm_compute; reflexivity)) as [H _].
  exact H.
Defined.

Lemma batch_scan_collects_witness :
  (1 <= 2)%Z
  /\ forall found,
       HeistSummary.get_recent_heist_messages (U:=ascii_tables)
         {| messages_newest_first := ten_messages |} 2 = Ret found ->
       (Z.of_nat (length found) <= 2)%Z.
Proof.
  split; [lia|].
  pose proof (batch_scan_collects (U:=ascii_tables)
                {| messages_newest_first := ten_messages |} 2 ltac:(lia)) as (_ & _ & H & _).
  exact H.
Defined.

Lemma parse_currency_value_scales_witness :
  cleaned (glyph :: lit " 1.5M") = lit "1.5" ++ lit "M"
  /\ HeistSummary.parse_currency_value (U:=ascii_tables) (glyph :: lit " 1.5M")
     = Ret (Some (SFmul prec emax (float_of_Q (15 # 10)) (float_of_Z 1000000)))
  /\ HeistCalc.parse_currency_value (U:=ascii_tables) (glyph :: lit " 1.5M")
     = ([], Ret (Some (SFmul prec emax (float_of_Q (15 # 10)) (float_of_Z 1000000)))).
Proof.
  split; [vm_compute; reflexivity|].
  pose proof (parse_currency_value_scales (U:=ascii_tables) (glyph :: lit " 1.5M")
                (lit "1.5") (lit "M") (float_of_Q (15 # 10))
                ltac:(discriminate) ltac:(vm_compute; reflexivity) ltac:(discriminate)
                ltac:(vm_compute; repeat constructor) ltac:(vm_compute; reflexivity)
                ltac:(vm_compute; reflexivity)) as (H & Hc & _).
  split; [exact H | exact Hc].
Defined.

(** C6 as stated fails: 1500 is abbreviated with its trailing zero. *)
Lemma abbreviate_keeps_trailing_zero :
  HeistSummary.abbreviate_number (float_of_Z 1500) = Ret (lit "1.50K")
  /\ HeistSummary.abbreviate_number (float_of_Z 1500) <> Ret (lit "1.5K").
Proof. split; [vm_compute; reflexivity | vm_compute; discriminate]. Qed.


Lemma format_parse_round_trip_witness :
  (finite_Q false 6755399441055744 (-52) < 1000)%Q
  /\ exists w qw,
       HeistSummary.parse_currency_value (U:=ascii_tables)
         (HeistSummary.format_number (S754_finite false 6755399441055744 (-52)))
       = Ret (Some w)
       /\ nonneg_finite w = true /\ value w = Some qw
       /\ (Qabs (qw - finite_Q false 6755399441055744 (-52))
           <= (1 # 200) + (1 # 17592186044416))%Q
       /\ HeistSummary.format_number w
          = HeistSummary.format_number (S754_finite false 6755399441055744 (-52)).
Proof.
  split; [vm_compute; reflexivity|].
  exact (format_parse_round_trip (U:=ascii_tables)
           (S754_finite false 6755399441055744 (-52)) _ eq_refl eq_refl
           ltac:(vm_compute; reflexivity)).
Defined.

Section Provenance.
Context {U : UnicodeData}.

Lemma scan_message_sound msg found found' :
  HeistSummary.scan_message msg found = Ret (Some found') ->
  found' = found
  \/ exists t c, found' = found ++ [(msg, t, c)] /\ qualifies msg = true
       /\ HeistSummary.scan_lines (message_lines msg) None 0 = Ret (Some t, c) /\ (1 <= c)%Z.
Proof.
  destruct (qualifies msg) eqn:Hq.
  - rewrite scan_message_qualified by done.
    destruct (HeistSummary.scan_lines _ _ _) as [[t c]|e] eqn:Hs; cbn [bind]; [|done].
    intros [= <-]. destruct t as [t|]; [|by left].
    destruct (Z.gtb_spec c 0); [|by left]. right. exists t, c. repeat split; try done. lia.
  - by rewrite scan_message_unqualified.
Qed.

Lemma scan_messages_sound all limit msgs found0 found :
  (forall m, m ∈ msgs -> m ∈ all) ->
  Forall (sound_detection all) found0 ->
  HeistSummary.scan_messages msgs limit found0 = Ret found ->
  Forall (sound_detection all) found.
Proof.
  revert found0. induction msgs as [|msg msgs IH]; intros found0 Hall H0; cbn [HeistSummary.scan_messages].
  - by intros [= <-].
  - destruct (HeistSummary.scan_message msg found0) as [[found1|]|e] eqn:Hm; cbn [bind]; [| |done].
    + assert (Forall (sound_detection all) found1) as H1.
      { apply scan_message_sound in Hm as [->|(t & c & -> & Hq & Hs & Hc)]; [done|].
        apply Forall_app. split; [done|]. apply List.Forall_cons; [|apply List.Forall_nil].
        repeat split; try done. cbn. apply Hall. by left. }
      destruct (_ >=? _)%Z.
      * by intros [= <-].
      * apply IH; [|done]. intros m Hin. apply Hall. by right.
    + apply IH; [|done]. intros m Hin. apply Hall. by right.
Qed.

Lemma recent_sound ch limit found :
  HeistSummary.get_recent_heist_messages ch limit = Ret found ->
  Forall (sound_detection (history ch 100)) found.
Proof.
  unfold HeistSummary.get_recent_heist_messages.
  destruct (HeistSummary.scan_messages _ _ _) as [found'|e] eqn:Hs; cbn [bind]; [|done].
  intros [= <-]. apply Forall_rev.
  by apply (scan_messages_sound (history ch 100)) in Hs; [|done|apply List.Forall_nil].
Qed.

Lemma scan_messages_sublist limit msgs found0 found :
  HeistSummary.scan_messages msgs limit found0 = Ret found ->
  exists ds, found = found0 ++ ds /\ sublist (map (fun d : HeistSummary.detection => d.1.1) ds) msgs.
Proof.
  revert found0. induction msgs as [|msg msgs IH]; intros found0; cbn [HeistSummary.scan_messages].
  - intros [= <-]. exists []. by rewrite app_nil_r.
  - destruct (HeistSummary.scan_message msg found0) as [[found1|]|e] eqn:Hm; cbn [bind]; [| |done].
    + apply scan_message_sound in Hm as [->|(t & c & -> & _)].
      * destruct (_ >=? _)%Z.
        -- intros [= <-]. exists []. rewrite app_nil_r. split; [done|]. apply sublist_nil_l.
        -- intros (ds & -> & Hsub)%IH. exists ds. split; [done|]. by apply sublist_cons.
      * destruct (_ >=? _)%Z.
        -- intros [= <-]. exists [(msg, t, c)]. split; [done|]. cbn.
           apply sublist_skip, sublist_nil_l.
        -- intros (ds & -> & Hsub)%IH. exists ((msg, t, c) :: ds).
           rewrite <- app_assoc. split; [done|]. cbn. by apply sublist_skip.
    + intros (ds & -> & Hsub)%IH. exists ds. split; [done|]. by apply sublist_cons.
Qed.

Lemma sublist_rev_both {A} (l k : list A) : sublist l k -> sublist (rev l) (rev k).
Proof.
  induction 1 as [|x l k _ IH|x l k _ IH]; cbn [rev]; [done| |].
  - by apply sublist_app.
  - apply sublist_inserts_r. done.
Qed.

Lemma scan_messages_filter limit msgs found0 :
  HeistSummary.scan_messages (filter (fun m => qualifies m = true) msgs) limit found0
  = HeistSummary.scan_messages msgs limit found0.
Proof.
  revert found0. induction msgs as [|msg msgs IH]; intros found0; [done|].
  rewrite filter_cons. destruct (decide (qualifies msg = true)) as [Hq|Hq].
  - cbn [HeistSummary.scan_messages].
    destruct (HeistSummary.scan_message msg found0) as [[found1|]|e]; cbn [bind]; [|done|done].
    by destruct (_ >=? _)%Z.
  - cbn [HeistSummary.scan_messages]. rewrite (scan_message_unqualified msg).
    + done.
    + by destruct (qualifies msg).
Qed.

(** X1: every detection the batch scan returns is built from one of the
    hundred newest messages of the channel, sent by Dank Memer and holding
    the payout phrase; its total and count are what the line scan of that
    message ends with, and the count is at least one. *)
Theorem detections_are_sound ch limit found :
  HeistSummary.get_recent_heist_messages ch limit = Ret found ->
  Forall (fun d : HeistSummary.detection =>
            d.1.1 ∈ history ch 100
            /\ author_id d.1.1 = HeistSummary.DANK_MEMER_ID
            /\ contains phrase (lower (HeistSummary.combined_content d.1.1)) = true
            /\ HeistSummary.scan_lines (message_lines d.1.1) None 0 = Ret (Some d.1.2, d.2)
            /\ (1 <= d.2)%Z) found.
Proof.
  unfold HeistSummary.get_recent_heist_messages.
  destruct (HeistSummary.scan_messages _ _ _) as [found'|e] eqn:Hs; cbn [bind]; [|done].
  intros [= <-].
  apply (scan_messages_sound (history ch 100)) in Hs; [|done|apply List.Forall_nil].
  apply Forall_rev. eapply Forall_impl; [exact Hs|].
  intros d (Hin & Hq & Hscan & Hc). unfold qualifies in Hq.
  apply andb_true_iff in Hq as [Ha Hp]. apply Z.eqb_eq in Ha. done.
Qed.

(** X2: the detections are returned in chronological order: their
    messages form a sub-sequence of the hundred newest messages of the
    channel read from the oldest to the newest, so no message is reported
    twice and none out of order. *)
Theorem detections_are_chronological ch limit found :
  HeistSummary.get_recent_heist_messages ch limit = Ret found ->
  sublist (map (fun d : HeistSummary.detection => d.1.1) found) (rev (history ch 100)).
Proof.
  unfold HeistSummary.get_recent_heist_messages.
  destruct (HeistSummary.scan_messages _ _ _) as [found'|e] eqn:Hs; cbn [bind]; [|done].
  intros [= <-]. apply scan_messages_sublist in Hs as (ds & -> & Hsub).
  cbn [app]. rewrite map_rev. by apply sublist_rev_both.
Qed.

(** X3: messages of other authors and messages without the payout phrase
    have no influence on the batch scan beyond the room they take among the
    hundred newest messages: scanning the window with them removed gives
    the same outcome, for every limit. *)
Theorem other_messages_are_skipped ch limit :
  HeistSummary.get_recent_heist_messages ch limit =
    let* found := HeistSummary.scan_messages
                    (filter (fun m => qualifies m = true) (history ch 100)) limit [] in
    Ret (rev found).
Proof.
  unfold HeistSummary.get_recent_heist_messages. by rewrite scan_messages_filter.
Qed.

End Provenance.

Lemma detections_are_sound_witness :
  HeistSummary.get_recent_heist_messages (U:=ascii_tables) one_payout 1
    = Ret [ (dank 9 (payout_text "1,000" "2") [], float_of_Z 1000, 2%Z) ]
  /\ author_id (dank 9 (payout_text "1,000" "2") []) = HeistSummary.DANK_MEMER_ID.
Proof.
  split; [vm_compute; reflexivity|].
  pose proof (detections_are_sound (U:=ascii_tables) one_payout 1 _ ltac:(vm_compute; reflexivity)) as H.
  apply Forall_cons in H as [(_ & H & _) _]. exact H.
Defined.

Lemma detections_are_chronological_witness :
  sublist [dank 6 []
             [ {| title := Some (lit "AMAZING JOB EVERYBODY");
                  description := Some (lit "**`racked up a total of " ++ [glyph]
                                         ++ lit "3.5M`**" ++ nl
                                         ++ lit "`7 users got the payout`") |} ];
           dank 9 (payout_text "1,000" "2") []]
          (rev (history {| messages_newest_first := ten_messages |} 100)).
Proof.
  exact (detections_are_chronological (U:=ascii_tables)
           {| messages_newest_first := ten_messages |} 2 _ ltac:(vm_compute; reflexivity)).
Defined.

Section Signs.
Context {U : UnicodeData}.

Lemma shr_1_nonneg mrs : (0 <= shr_m mrs)%Z -> (0 <= shr_m (shr_1 mrs))%Z.
Proof. destruct mrs as [[|[p|p|]|p] r s]; cbn; lia. Qed.

Lemma iter_shr_1_nonneg p mrs : (0 <= shr_m mrs)%Z -> (0 <= shr_m (SpecFloat.iter_pos shr_1 p mrs))%Z.
Proof.
  revert mrs. induction p as [p IH|p IH|]; intros mrs H; cbn [SpecFloat.iter_pos].
  - apply IH, IH. by apply shr_1_nonneg.
  - by apply IH, IH.
  - by apply shr_1_nonneg.
Qed.

Lemma shr_fexp_nonneg m e l :
  (0 <= m)%Z -> (0 <= shr_m (shr_fexp prec emax m e l).1)%Z.
Proof.
  intros Hm. unfold shr_fexp, shr.
  assert (0 <= shr_m (shr_record_of_loc m l))%Z as H0.
  { unfold shr_record_of_loc. destruct l as [|[]]; cbn; lia. }
  destruct (_ - _)%Z; cbn [fst]; [done| |done]. by apply iter_shr_1_nonneg.
Qed.

Lemma round_nearest_even_nonneg m l : (0 <= m)%Z -> (0 <= round_nearest_even m l)%Z.
Proof.
  intros Hm. unfold round_nearest_even. destruct l as [|[]]; try lia.
  destruct (Z.even m); lia.
Qed.

Lemma binary_round_aux_sign_clear m e l :
  (0 <= m)%Z -> sign_clear (binary_round_aux prec emax false m e l) = true.
Proof.
  intros Hm. unfold binary_round_aux.
  pose proof (shr_fexp_nonneg m e l Hm) as H1.
  destruct (shr_fexp prec emax m e l) as [mrs' e']. cbn [fst] in H1.
  pose proof (shr_fexp_nonneg _ e' loc_Exact
                (round_nearest_even_nonneg _ (loc_of_shr_record mrs') H1)) as H2.
  destruct (shr_fexp prec emax (round_nearest_even _ _) e' loc_Exact) as [mrs'' e''].
  cbn [fst] in H2. destruct (shr_m mrs''); [done| |lia].
  by destruct (_ <=? _)%Z.
Qed.

Lemma SFmul_sign_clear x p e :
  sign_clear x = true -> sign_clear (SFmul prec emax x (S754_finite false p e)) = true.
Proof.
  destruct x as [s|s| |s m ex]; cbn [sign_clear SFmul]; try done.
  - by rewrite xorb_false_r.
  - by rewrite xorb_false_r.
  - intros ->%negb_true_iff. cbn [xorb]. by apply binary_round_aux_sign_clear.
Qed.

Lemma float_of_Q_sign_clear q : (0 <= Qnum q)%Z -> sign_clear (float_of_Q q) = true.
Proof.
  intros Hq. unfold float_of_Q.
  pose proof (Qred_correct q) as Hred. unfold Qeq in Hred.
  destruct (Qnum (Qred q)) as [|n|n] eqn:Hn; [done| |].
  - unfold round_to_float. destruct (if (_ =? _)%Z then _ else _) as [m e].
    destruct m; [done| |done]. by destruct (_ <=? _)%Z.
  - exfalso. assert (0 <= Qnum q * Z.pos (Qden (Qred q)))%Z by (apply Z.mul_nonneg_nonneg; lia).
    lia.
Qed.

Lemma py_float_sign_clear s v : py_float s = Ret v -> sign_clear v = true.
Proof.
  unfold py_float. destruct (_ ++ _); [done|].
  destruct (digits_value_from _ _) as [n|]; [|done].
  intros [= <-]. apply float_of_Q_sign_clear. cbn [Qnum]. lia.
Qed.

Lemma mul_int_sign_clear x n v :
  (n = 1000 \/ n = 1000000 \/ n = 1000000000)%Z ->
  sign_clear x = true -> mul_int x n = Ret v -> sign_clear v = true.
Proof.
  intros [-> | [-> | ->]] Hx; vm_compute float_of_int; intros [= <-]; by apply SFmul_sign_clear.
Qed.

Lemma parse_currency_value_sign_clear raw v :
  HeistSummary.parse_currency_value raw = Ret (Some v) -> sign_clear v = true.
Proof.
  unfold HeistSummary.parse_currency_value.
  destruct raw as [|c raw]; [done|].
  destruct (re_match _ _) as [groups|]; [|done].
  destruct (py_float (group groups 1)) as [b|e] eqn:Hb; [|by destruct e].
  apply py_float_sign_clear in Hb.
  repeat case_decide.
  - destruct (mul_int b 1000) as [w|] eqn:Hw; cbn [bind]; [|done].
    intros [= <-]. eapply mul_int_sign_clear; [|done..]. auto.
  - destruct (mul_int b 1000000) as [w|] eqn:Hw; cbn [bind]; [|done].
    intros [= <-]. eapply mul_int_sign_clear; [|done..]. auto.
  - destruct (mul_int b 1000000000) as [w|] eqn:Hw; cbn [bind]; [|done].
    intros [= <-]. eapply mul_int_sign_clear; [|done..]. auto.
  - by intros [= <-].
Qed.

Lemma parse_plain_number_sign_clear raw v :
  HeistSummary.parse_plain_number raw = Ret (Some v) -> sign_clear v = true.
Proof.
  unfold HeistSummary.parse_plain_number.
  destruct raw as [|c raw]; [done|].
  destruct (re_match _ _) as [groups|]; [|done].
  destruct (py_float (group groups 1)) as [b|e] eqn:Hb; [|by destruct e].
  intros [= <-]. by apply py_float_sign_clear in Hb.
Qed.

(** X4: a value the token parsers return is never NaN and never negative,
    whatever the text: it is zero, a positive finite float or positive
    infinity. The same holds for the parsers of the calculator. *)
Theorem parsed_values_are_sign_clear raw v :
  (HeistSummary.parse_currency_value raw = Ret (Some v)
   \/ HeistSummary.parse_plain_number raw = Ret (Some v)
   \/ (HeistCalc.parse_currency_value raw).2 = Ret (Some v)
   \/ (HeistCalc.parse_plain_number raw).2 = Ret (Some v)) ->
  sign_clear v = true.
Proof.
  rewrite calc_parse_currency_value_result, calc_parse_plain_number_result.
  intros [H|[H|[H|H]]];
    eauto using parse_currency_value_sign_clear, parse_plain_number_sign_clear.
Qed.

End Signs.

Lemma parsed_values_are_sign_clear_witness :
  HeistSummary.parse_currency_value (U:=ascii_tables) (glyph :: lit " 1.5M")
    = Ret (Some (float_of_Z 1500000))
  /\ sign_clear (float_of_Z 1500000) = true.
Proof.
  split; [vm_compute; reflexivity|].
  exact (parsed_values_are_sign_clear (U:=ascii_tables) (glyph :: lit " 1.5M")
           (float_of_Z 1500000) ltac:(left; vm_compute; reflexivity)).
Defined.

Section Escapes.
Context {U : UnicodeData}.

Lemma int_of_float_raise v e :
  sign_clear v = true -> int_of_float v = Raise e -> e = OverflowError.
Proof. destruct v; try done. cbn. by intros _ [= <-]. Qed.

Lemma parsed_count_sign_clear line v : parsed_count line = Some v -> sign_clear v = true.
Proof.
  unfold parsed_count. destruct (count_token line) as [tok|]; [|done]. cbn.
  destruct (HeistSummary.parse_plain_number tok) as [[w|]|] eqn:Hw; try done.
  intros [= <-]. by apply parse_plain_number_sign_clear in Hw.
Qed.

Lemma scan_line_raise_overflow line t c e :
  HeistSummary.scan_line line t c = Raise e ->
  e = OverflowError /\ exists v, parsed_count line = Some v /\ int_of_float v = Raise OverflowError.
Proof.
  rewrite scan_line_spec. destruct (parsed_count line) as [v|] eqn:Hv; [|done].
  destruct (int_of_float v) as [c'|e'] eqn:Hi; cbn [bind]; [done|].
  intros [= <-]. apply parsed_count_sign_clear in Hv.
  pose proof (int_of_float_raise v e' Hv Hi) as ->. eauto.
Qed.

Lemma scan_lines_raise_overflow lines t c e :
  HeistSummary.scan_lines lines t c = Raise e ->
  e = OverflowError
  /\ exists line v, line ∈ lines /\ parsed_count line = Some v
       /\ int_of_float v = Raise OverflowError.
Proof.
  revert t c. induction lines as [|line lines IH]; intros t c; [done|].
  rewrite scan_lines_cons.
  destruct (HeistSummary.scan_line line t c) as [[t1 c1]|e1] eqn:Hl; cbn [bind].
  - intros (-> & l & v & Hin & Hv)%IH. split; [done|]. exists l, v. split; [by right|done].
  - intros [= <-]. apply scan_line_raise_overflow in Hl as (-> & v & Hv).
    split; [done|]. exists line, v. split; [by left|done].
Qed.

Lemma scan_message_raise_overflow msg found e :
  HeistSummary.scan_message msg found = Raise e ->
  e = OverflowError /\ qualifies msg = true
  /\ exists line v, line ∈ message_lines msg /\ parsed_count line = Some v
       /\ int_of_float v = Raise OverflowError.
Proof.
  destruct (qualifies msg) eqn:Hq.
  - rewrite scan_message_qualified by done.
    destruct (HeistSummary.scan_lines _ _ _) as [[t c]|e1] eqn:Hs; cbn [bind]; [done|].
    intros [= <-]. apply scan_lines_raise_overflow in Hs as [-> Hex]. done.
  - by rewrite scan_message_unqualified.
Qed.

Lemma scan_messages_raise_overflow limit msgs found e :
  HeistSummary.scan_messages msgs limit found = Raise e ->
  e = OverflowError
  /\ exists msg line v, msg ∈ msgs /\ qualifies msg = true /\ line ∈ message_lines msg
       /\ parsed_count line = Some v /\ int_of_float v = Raise OverflowError.
Proof.
  revert found. induction msgs as [|msg msgs IH]; intros found; [done|].
  cbn [HeistSummary.scan_messages].
  destruct (HeistSummary.scan_message msg found) as [[found1|]|e1] eqn:Hm; cbn [bind].
  - destruct (_ >=? _)%Z; [done|].
    intros (-> & m & l & v & Hin & H)%IH. split; [done|]. exists m, l, v. split; [by right|done].
  - intros (-> & m & l & v & Hin & H)%IH. split; [done|]. exists m, l, v. split; [by right|done].
  - intros [= <-]. apply scan_message_raise_overflow in Hm as (-> & Hq & l & v & H).
    split; [done|]. exists msg, l, v. split; [by left|done].
Qed.

Lemma recent_raise ch limit e :
  HeistSummary.get_recent_heist_messages ch limit = Raise e -> e = OverflowError.
Proof.
  unfold HeistSummary.get_recent_heist_messages.
  destruct (HeistSummary.scan_messages _ _ _) as [found|e1] eqn:Hs; cbn [bind]; [done|].
  intros [= <-]. by apply scan_messages_raise_overflow in Hs as [-> _].
Qed.

(** X5: whatever messages the history has delivered, the loop of the batch
    scan over them raises no exception but [OverflowError], and raises it
    only when one of them, a payout message of Dank Memer, has a line whose
    count token parses to an infinite float, on which [int] raises. No
    text of a message makes the loop raise [ValueError] or
    [ZeroDivisionError]. *)
Theorem scan_raises_only_overflow msgs limit e :
  HeistSummary.scan_messages msgs limit [] = Raise e ->
  e = OverflowError
  /\ exists msg line v,
       msg ∈ msgs /\ qualifies msg = true /\ line ∈ message_lines msg
       /\ parsed_count line = Some v /\ v = S754_infinity false.
Proof.
  intros (-> & m & l & v & Hin & Hq & Hl & Hv & Hi)%scan_messages_raise_overflow.
  split; [done|]. exists m, l, v. repeat split; try done.
  apply parsed_count_sign_clear in Hv. by destruct v as [| [] | |].
Qed.

End Escapes.

Section WholeNumbers.
Context {U : UnicodeData}.

Lemma short_frac_whole n : short_frac (100 * n) = [].
Proof.
  unfold short_frac. replace ((100 * n) mod 100)%N with 0%N; [done|].
  symmetry. rewrite N.mul_comm. apply N.Div0.mod_mul.
Qed.

(** X6: a non-negative finite float is rendered by [format_number] as its
    value rounded to the nearest hundredth, ties to even: the whole part
    with thousands separators, then no decimals when the hundredths are
    zero, one decimal when the last is zero, two otherwise. The copy of the
    calculator does the same. *)
Theorem format_number_renders_cents v :
  nonneg_finite v = true ->
  HeistSummary.format_number v
    = group3 (digits_of_N (cents_of v / 100)) ++ short_frac (cents_of v)
  /\ HeistCalc.format_number v
    = group3 (digits_of_N (cents_of v / 100)) ++ short_frac (cents_of v).
Proof.
  intros Hv. split; [by apply format_number_nonneg|].
  etrans; [apply calc_format_number_eq | by apply format_number_nonneg].
Qed.

(** X7: a non-negative finite float whose value is a whole number [n] is
    rendered by [format_number] as the decimal digits of [n] in groups of
    three separated by commas, without a decimal point: 1500 gives
    "1,500". *)
Theorem format_number_whole v q n :
  nonneg_finite v = true -> value v = Some q -> (q == inject_Z (Z.of_N n))%Q ->
  HeistSummary.format_number v = group3 (digits_of_N n).
Proof.
  intros Hv Hq Hn. rewrite format_number_nonneg by done.
  destruct (cents_of_value v q Hv Hq) as [-> _].
  rewrite (round_half_even_unique (100 * q) (100 * Z.of_N n)).
  - replace (Z.to_N (100 * Z.of_N n)) with (100 * n)%N by lia.
    rewrite short_frac_whole, app_nil_r. f_equal. f_equal.
    rewrite N.mul_comm. apply N.div_mul. done.
  - assert (100 * q - inject_Z (100 * Z.of_N n) == 0)%Q as ->.
    { rewrite Hn, inject_Z_mult. ring. }
    done.
Qed.

End WholeNumbers.

Lemma scan_raises_only_overflow_witness :
  HeistSummary.scan_messages (U:=ascii_tables) [overflow_message] 1 [] = Raise OverflowError
  /\ exists msg line v,
       msg ∈ [overflow_message]
       /\ qualifies (U:=ascii_tables) msg = true
       /\ line ∈ message_lines msg
       /\ parsed_count (U:=ascii_tables) line = Some v /\ v = S754_infinity false.
Proof.
  split; [vm_compute; reflexivity|].
  pose proof (scan_raises_only_overflow (U:=ascii_tables) [overflow_message] 1 OverflowError
                ltac:(vm_compute; reflexivity)) as [_ H].
  exact H.
Defined.

Lemma format_number_renders_cents_witness :
  HeistSummary.format_number (S754_finite false 5 (-2)) = lit "1.25".
Proof.
  pose proof (format_number_renders_cents (S754_finite false 5 (-2)) eq_refl)
    as [H _].
  rewrite H. vm_compute. reflexivity.
Defined.

Lemma format_number_whole_witness :
  HeistSummary.format_number (float_of_Z 1500) = lit "1,500".
Proof.
  rewrite (format_number_whole (float_of_Z 1500) _ 1500 eq_refl eq_refl
             ltac:(vm_compute; reflexivity)).
  vm_compute. reflexivity.
Defined.

Section Names.
Context {U : UnicodeData}.

Lemma replace_one a b s :
  replace [a] [b] s = map (fun c => if (a =? c)%N then b else c) s.
Proof.
  unfold replace. induction s as [|c s IH]; [done|].
  cbn [replace_from prefix_b length map]. rewrite andb_true_r.
  destruct (a =? c)%N; cbn [Nat.sub app]; by rewrite IH.
Qed.

Lemma split_from_Forall (P : char -> Prop) sep cur s :
  Forall P cur -> Forall (fun c => c <> sep -> P c) s ->
  Forall (Forall P) (split_from sep cur s).
Proof.
  revert cur. induction s as [|c s IH]; intros cur Hcur Hs; cbn [split_from].
  - apply List.Forall_cons; [by apply Forall_rev | apply List.Forall_nil].
  - apply Forall_cons in Hs as [Hc Hs]. destruct (N.eqb_spec c sep) as [->|Hne].
    + apply List.Forall_cons; [by apply Forall_rev|]. apply IH; [apply List.Forall_nil | done].
    + apply IH; [|done]. apply List.Forall_cons; [by apply Hc | done].
Qed.

Lemma lstrip_by_Forall (P : char -> Prop) p s : Forall P s -> Forall P (lstrip_by p s).
Proof.
  induction 1 as [|c s Hc Hs IH]; cbn [lstrip_by]; [done|].
  destruct (p c); [done | by apply List.Forall_cons].
Qed.

Lemma strip_Forall (P : char -> Prop) s : Forall P s -> Forall P (strip s).
Proof.
  intros H. unfold strip, rstrip_by.
  by apply Forall_rev, lstrip_by_Forall, Forall_rev, lstrip_by_Forall.
Qed.

Lemma lstrip_by_cases p s :
  lstrip_by p s = [] \/ exists c r, lstrip_by p s = c :: r /\ p c = false.
Proof.
  induction s as [|c s IH]; cbn [lstrip_by]; [by left|].
  destruct (p c) eqn:Hc; [done|]. right. eauto.
Qed.

Lemma lstrip_by_suffix p s : exists w, s = w ++ lstrip_by p s.
Proof.
  induction s as [|c s [w IH]]; cbn [lstrip_by]; [by exists []|].
  destruct (p c); [|by exists []]. exists (c :: w). cbn. by rewrite <- IH.
Qed.

Lemma rstrip_by_cases p s :
  rstrip_by p s = [] \/ exists r c, rstrip_by p s = r ++ [c] /\ p c = false.
Proof.
  unfold rstrip_by. destruct (lstrip_by_cases p (rev s)) as [->|(c & r & -> & Hc)]; [by left|].
  right. exists (rev r), c. done.
Qed.

Lemma rstrip_by_prefix p s : exists w, s = rstrip_by p s ++ w.
Proof.
  unfold rstrip_by. destruct (lstrip_by_suffix p (rev s)) as [w Hw].
  exists (rev w). rewrite <- rev_app_distr, <- Hw. by rewrite rev_involutive.
Qed.

Lemma strip_idempotent s : strip (strip s) = strip s.
Proof.
  unfold strip at 2 3.
  destruct (rstrip_by_cases is_space (lstrip_by is_space s)) as [->|(r & c & Hr & Hc)]; [done|].
  rewrite Hr. unfold strip.
  destruct (rstrip_by_prefix is_space (lstrip_by is_space s)) as [w Hw]. rewrite Hr in Hw.
  destruct (lstrip_by_cases is_space s) as [Hnil|(c0 & r0 & Hl & Hc0)].
  - rewrite Hnil in Hw. by destruct r.
  - rewrite Hl in Hw.
    assert (exists r1, r ++ [c] = c0 :: r1) as [r1 Hhead].
    { destruct r as [|a r]; cbn in Hw |- *; injection Hw as -> _; eauto. }
    rewrite Hhead, lstrip_by_head by done. rewrite <- Hhead. by apply rstrip_by_last.
Qed.

Lemma split_from_piece sep cur w s :
  sep ∉ w -> split_from sep cur (w ++ sep :: s) = (rev cur ++ w) :: split_from sep [] s.
Proof.
  revert cur. induction w as [|c w IH]; intros cur Hw; cbn [app split_from].
  - by rewrite N.eqb_refl, app_nil_r.
  - apply not_elem_of_cons in Hw as [Hc Hw]. destruct (N.eqb_spec c sep) as [->|_]; [done|].
    rewrite IH by done. cbn [rev]. by rewrite <- app_assoc.
Qed.

Lemma split_from_last sep cur w : sep ∉ w -> split_from sep cur w = [rev cur ++ w].
Proof.
  revert cur. induction w as [|c w IH]; intros cur Hw; cbn [split_from].
  - by rewrite app_nil_r.
  - apply not_elem_of_cons in Hw as [Hc Hw]. destruct (N.eqb_spec c sep) as [->|_]; [done|].
    rewrite IH by done. cbn [rev]. by rewrite <- app_assoc.
Qed.

Lemma lstrip_by_spaces p a s : Forall (fun x => p x = true) a -> lstrip_by p (a ++ s) = lstrip_by p s.
Proof. induction 1 as [|c a Hc _ IH]; [done|]. cbn [app lstrip_by]. by rewrite Hc. Qed.

Lemma rstrip_by_spaces p s b : Forall (fun x => p x = true) b -> rstrip_by p (s ++ b) = rstrip_by p s.
Proof.
  intros Hb. unfold rstrip_by. rewrite rev_app_distr, lstrip_by_spaces; [done|].
  by apply Forall_rev.
Qed.

Lemma plain_name_ends n :
  n <> [] -> strip n = n ->
  (exists c r, n = c :: r /\ is_space c = false) /\ (exists r d, n = r ++ [d] /\ is_space d = false).
Proof.
  intros Hne Hs. unfold strip in Hs.
  destruct (lstrip_by_suffix is_space n) as [w Hw].
  destruct (rstrip_by_prefix is_space (lstrip_by is_space n)) as [w' Hw'].
  rewrite Hs in Hw'. assert (w = [] /\ w' = []) as [-> ->].
  { rewrite Hw' in Hw. apply (f_equal (@length _)) in Hw. rewrite !length_app in Hw.
    destruct w, w'; cbn in Hw; try lia. done. }
  cbn [app] in Hw. rewrite <- Hw in Hs. split.
  - destruct (lstrip_by_cases is_space n) as [H|(c & r & H & Hc)]; rewrite <- Hw in H; [done|].
    by exists c, r.
  - destruct (rstrip_by_cases is_space n) as [H|(r & d & H & Hd)]; rewrite Hs in H; [done|].
    by exists r, d.
Qed.

Lemma strip_padded a n b :
  Forall (fun x => is_space x = true) a -> Forall (fun x => is_space x = true) b ->
  n <> [] -> strip n = n -> strip (a ++ n ++ b) = n.
Proof.
  intros Ha Hb Hne Hs. destruct (plain_name_ends n Hne Hs) as [(c & r & Hc & Hsc) (r' & d & Hd & Hsd)].
  unfold strip. rewrite lstrip_by_spaces by done.
  rewrite Hc. cbn [app]. rewrite lstrip_by_head by done.
  change (c :: r ++ b) with ((c :: r) ++ b). rewrite rstrip_by_spaces by done.
  rewrite <- Hc, Hd. by apply rstrip_by_last.
Qed.

Lemma strip_padded_l a n :
  Forall (fun x => is_space x = true) a -> n <> [] -> strip n = n -> strip (a ++ n) = n.
Proof. intros Ha Hne Hs. rewrite <- (app_nil_r n) at 1. by apply strip_padded. Qed.

Lemma spaces_no_delimiter a c :
  Forall (fun x => is_space x = true) a -> c = 47%N \/ c = 44%N -> c ∉ a.
Proof.
  intros Ha Hc Hin. rewrite Forall_forall in Ha. apply Ha in Hin.
  by destruct Hc as [-> | ->].
Qed.

Lemma app_middle {A} (a0 first a : list A) c b t :
  a0 ++ first ++ (a ++ c :: b) ++ t = (a0 ++ first ++ a) ++ c :: (b ++ t).
Proof. by rewrite <- !app_assoc. Qed.

(** The pieces of a text whose separators are commas. *)
Lemma names_split a0 first rest :
  Forall (fun x => is_space x = true) a0 -> plain_name first ->
  Forall (fun p : str * str =>
            (exists a b, p.1 = a ++ 44%N :: b /\ Forall (fun x => is_space x = true) a
                         /\ Forall (fun x => is_space x = true) b)
            /\ plain_name p.2) rest ->
  map strip (filter (fun n => strip n <> []) (split_from 44%N [] (a0 ++ names_text first rest)))
  = first :: map snd rest.
Proof.
  intros Ha0 Hfirst Hrest. revert a0 first Ha0 Hfirst.
  induction Hrest as [|[sep n] rest [(a & b & Hsep & Ha & Hb) Hn] _ IH];
    intros a0 first Ha0 (Hne & Hs & H44 & _); cbn [names_text].
  - rewrite split_from_last.
    + cbn [rev app]. rewrite filter_cons_True by (by rewrite strip_padded_l).
      rewrite filter_nil. cbn [map]. by rewrite strip_padded_l.
    + intros [Hin|Hin]%elem_of_app; [|done].
      by apply (spaces_no_delimiter a0 44%N Ha0); [right|].
  - cbn [fst snd] in *. subst sep.
    rewrite app_middle, split_from_piece.
    + cbn [rev app]. rewrite filter_cons_True by (by rewrite strip_padded).
      cbn [map]. rewrite strip_padded by done. f_equal. by apply IH.
    + intros [Hin|[Hin|Hin]%elem_of_app]%elem_of_app; [|done|].
      * by apply (spaces_no_delimiter a0 44%N Ha0); [right|].
      * by apply (spaces_no_delimiter a 44%N Ha); [right|].
Qed.

Lemma replace_one_app a b (x y : str) :
  replace [a] [b] (x ++ y) = replace [a] [b] x ++ replace [a] [b] y.
Proof. rewrite !replace_one. apply map_app. Qed.

Lemma replace_one_cons a b c (w : str) :
  replace [a] [b] (c :: w) = (if (a =? c)%N then b else c) :: replace [a] [b] w.
Proof. by rewrite !replace_one. Qed.

Lemma replace_one_absent a b (w : str) : a ∉ w -> replace [a] [b] w = w.
Proof.
  induction w as [|c w IH]; [done|]. intros [Hc Hw]%not_elem_of_cons.
  rewrite replace_one_cons, IH by done. by destruct (N.eqb_spec a c).
Qed.

Lemma replace_one_same a (w : str) : replace [a] [a] w = w.
Proof.
  induction w as [|c w IH]; [done|].
  rewrite replace_one_cons, IH. by destruct (N.eqb_spec a c) as [->|].
Qed.

Lemma slash_to_comma_names first rest :
  plain_name first -> Forall (fun p : str * str => separator p.1 /\ plain_name p.2) rest ->
  exists rest',
    replace [47%N] [44%N] (names_text first rest) = names_text first rest'
    /\ map snd rest' = map snd rest
    /\ Forall (fun p : str * str =>
                 (exists a b, p.1 = a ++ 44%N :: b /\ Forall (fun x => is_space x = true) a
                              /\ Forall (fun x => is_space x = true) b)
                 /\ plain_name p.2) rest'.
Proof.
  intros Hfirst Hrest. revert first Hfirst.
  induction Hrest as [|[sep n] rest [(a & c & b & Hsep & Hc & Ha & Hb) Hn] _ IH];
    intros first Hfirst; cbn [fst snd] in *; [|subst sep].
  - exists []. cbn [names_text map]. split; [|done]. apply replace_one_absent, Hfirst.
  - destruct (IH n Hn) as (rest' & Heq & Hsnd & Hall).
    exists ((a ++ 44%N :: b, n) :: rest'). cbn [names_text map fst snd]. split; [|split].
    + rewrite !replace_one_app.
      f_equal; [apply replace_one_absent, Hfirst|]. f_equal; [|exact Heq].
      f_equal; [by apply replace_one_absent, spaces_no_delimiter; [|left]|].
      rewrite replace_one_cons. f_equal; [by destruct Hc as [-> | ->]|].
      by apply replace_one_absent, spaces_no_delimiter; [|left].
    + by rewrite Hsnd.
    + apply List.Forall_cons; [|done]. split; [|done]. by exists a, b.
Qed.

(** X8: heist names written one after the other, separated by "/" or ","
    with or without white space around the separator, are read back as
    exactly these names in their order; and for every argument each name
    kept is non-empty, has no white space at either end and holds neither
    "/" nor ",". The empty argument gives no name. *)
Theorem name_list_pieces heist_names first rest :
  Forall plain_name (HeistSummary.name_list heist_names)
  /\ HeistSummary.name_list [] = []
  /\ (plain_name first ->
      Forall (fun p : str * str => separator p.1 /\ plain_name p.2) rest ->
      HeistSummary.name_list (names_text first rest) = first :: map snd rest).
Proof.
  split; [|split; [done|]].
  - unfold HeistSummary.name_list.
    change (lit ",") with [44%N]. change (lit "/") with [47%N]. rewrite !replace_one.
    match goal with |- context [split 44%N ?t] => set (tmp := t) end.
    assert (Forall (fun c => c <> 44%N -> c <> 44%N /\ c <> 47%N) tmp) as Htmp.
    { unfold tmp. rewrite Forall_map, Forall_map. apply Forall_true. intros c.
      cbv beta. destruct (N.eqb_spec 47 c) as [<-|H47].
      - by rewrite N.eqb_refl.
      - destruct (N.eqb_spec 44 c) as [<-|H44]; [done|]. intros _. split; congruence. }
    pose proof (split_from_Forall (fun c => c <> 44%N /\ c <> 47%N) 44%N [] tmp
                  (List.Forall_nil _) Htmp) as Hsp.
    fold (split 44%N tmp) in Hsp. revert Hsp. generalize (split 44%N tmp). intros pieces Hsp.
    rewrite Forall_map. apply Forall_forall. intros n [Hne Hin]%list_elem_of_filter.
    cbn. split; [done|]. split; [apply strip_idempotent|].
    rewrite Forall_forall in Hsp. specialize (Hsp n Hin).
    apply (strip_Forall _ n) in Hsp. rewrite Forall_forall in Hsp.
    split; intros Hc; apply Hsp in Hc as [? ?]; done.
  - intros Hfirst Hrest. unfold HeistSummary.name_list.
    change (lit ",") with [44%N]. change (lit "/") with [47%N].
    destruct (slash_to_comma_names first rest Hfirst Hrest) as (rest' & -> & <- & Hall).
    rewrite replace_one_same. unfold split. by apply (names_split [] first rest').
Qed.

End Names.

Lemma name_list_pieces_witness :
  HeistSummary.name_list (lit "Vault, Bank / Casino royal")
  = [lit "Vault"; lit "Bank"; lit "Casino royal"].
Proof.
  pose proof (name_list_pieces [] (lit "Vault")
                [(lit ", ", lit "Bank"); (lit " / ", lit "Casino royal")]) as (_ & _ & H).
  assert (forall n : str, bool_decide (n <> [] /\ strip n = n /\ (44%N ∉ n) /\ (47%N ∉ n)) = true ->
                          plain_name n) as Hplain.
  { intros n Hn. by apply bool_decide_eq_true in Hn. }
  apply H.
  - apply Hplain. vm_compute. reflexivity.
  - apply List.Forall_cons; [split|apply List.Forall_cons; [split|apply List.Forall_nil]].
    + exists [], 44%N, (lit " "). split; [reflexivity|]. split; [by right|].
      split; [apply List.Forall_nil|]. apply List.Forall_cons; [reflexivity | apply List.Forall_nil].
    + apply Hplain. vm_compute. reflexivity.
    + exists (lit " "), 47%N, (lit " "). split; [reflexivity|]. split; [by left|].
      split; apply List.Forall_cons; (reflexivity || apply List.Forall_nil).
    + apply Hplain. vm_compute. reflexivity.
Defined.

Section Commands.
Context {U : UnicodeData}.

Lemma pad_names_lookup names (found : list HeistSummary.detection) i :
  (i < length found)%nat ->
  HeistSummary.pad_names names found !! i
  = Some (default (lit "Unnamed Heist") (names !! i)).
Proof.
  intros Hi. unfold HeistSummary.pad_names.
  destruct (decide (i < length names)%nat) as [Hlt|Hge].
  - rewrite lookup_app_l by done. destruct (lookup_lt_is_Some_2 names i Hlt) as [x ->]. done.
  - rewrite lookup_app_r by lia. rewrite (lookup_ge_None_2 names i) by lia.
    cbn [default]. apply lookup_replicate_2. lia.
Qed.

Lemma summary_data_ok (lab : nat -> str) names found shares i :
  Forall2 share_of found shares ->
  (forall j, (j < length found)%nat -> names !! (i + j)%nat = Some (lab (i + j)%nat)) ->
  HeistSummary.summary_data names i found
  = Ok (imap (fun j '(d, share) => (lab (i + j)%nat, share.1, d.2, share.2))
             (zip found shares)).
Proof.
  intros H. revert i. induction H as [|[[msg t] c] [link each] found shares [Hl He] _ IH];
    intros i Hnames; [done|].
  cbn [HeistSummary.summary_data zip zip_with imap fst snd] in *.
  rewrite Hl, He. cbn [bind_result of_outcome].
  pose proof (Hnames 0%nat ltac:(cbn; lia)) as H0. rewrite Nat.add_0_r in H0 |- *.
  rewrite H0. cbn [bind_result]. rewrite (IH (S i)).
  - cbn [bind_result]. f_equal. f_equal. apply imap_ext. intros j [d s] _. cbn.
    by replace (i + S j)%nat with (S (i + j)) by lia.
  - intros j Hj. replace (S i + j)%nat with (i + S j)%nat by lia. apply Hnames. cbn. lia.
Qed.

Lemma summary_lines_ok emoji items :
  HeistSummary.summary_lines items emoji
  = Ret (map (fun '(name, link, count, each) => summary_row emoji name link count each) items).
Proof.
  induction items as [|[[[name link] count] each] items IH]; [done|].
  cbn [HeistSummary.summary_lines map]. rewrite summary_abbreviate_number_spec. cbn [bind].
  rewrite IH. done.
Qed.

Lemma summary_text_ok emoji heist_names found shares :
  Forall2 share_of found shares ->
  (let! rows := HeistSummary.summary_data
                  (HeistSummary.pad_names (HeistSummary.name_list heist_names) found) 0 found in
   of_outcome (HeistSummary.build_heist_summary_text rows emoji))
  = Ok (summary_text emoji heist_names found shares).
Proof.
  intros H. rewrite (summary_data_ok (heist_label heist_names) _ _ shares) by
    (done || intros j Hj; by rewrite pad_names_lookup).
  cbn [bind_result]. unfold HeistSummary.build_heist_summary_text.
  rewrite summary_lines_ok. cbn [bind of_outcome]. f_equal. unfold summary_text. f_equal.
  match goal with |- map ?f ?l = _ => change (map f l) with (f <$> l) end.
  rewrite fmap_imap. apply imap_ext. by intros j [d s] _.
Qed.

(** X9: when the scan finds payouts and every share is computed, both
    commands post one line per detection, the oldest first: the bullet, the
    [i]-th heist name given (or "Unnamed Heist" when fewer names are given
    than payouts are found), the link to the message, the number of
    payouts and the abbreviated share. The prefix command deletes its
    invocation and sends the lines under the header with "-" as bullet; the
    slash command sends them under the header, or as the description of an
    embed. *)
Theorem summary_commands_post_rows ch guild_name heists_count heist_names emoji found shares :
  (1 <= heists_count <= 5)%Z ->
  HeistSummary.get_recent_heist_messages ch heists_count = Ret found -> found <> [] ->
  Forall2 share_of found shares ->
  HeistSummary.heist_summary_prefix ch guild_name heists_count heist_names
    = Ok [HeistSummary.DeleteInvocation;
          HeistSummary.Send (summary_header guild_name
                               ++ summary_text (lit "-") heist_names found shares)]
  /\ HeistSummary.heist_summary_slash ch guild_name heists_count heist_names emoji false
    = Ok [HeistSummary.Respond (lit "Heist summary posted successfully!");
          HeistSummary.Send (summary_header guild_name
                               ++ summary_text emoji heist_names found shares)]
  /\ HeistSummary.heist_summary_slash ch guild_name heists_count heist_names emoji true
    = Ok [HeistSummary.Respond (lit "Heist summary posted successfully!");
          HeistSummary.SendEmbed
            (HeistSummary.server_name guild_name ++ lit "'s Heist Summary")
            (summary_text emoji heist_names found shares)
            (lit "Use /heist_summary.")].
Proof.
  intros Hn Hfound Hne Hshares.
  unfold HeistSummary.heist_summary_prefix, HeistSummary.heist_summary_slash.
  replace ((heists_count <? 1)%Z || (heists_count >? 5)%Z) with false by lia.
  rewrite Hfound. cbn [of_outcome bind_result].
  destruct found as [|d found]; [done|].
  pose proof (summary_text_ok (lit "-") heist_names (d :: found) shares Hshares) as H1.
  pose proof (summary_text_ok emoji heist_names (d :: found) shares Hshares) as H2.
  destruct (HeistSummary.summary_data _ _ _) as [rows|e]; cbn [bind_result] in *; [|done].
  rewrite H1, H2. cbn [bind_result]. done.
Qed.

Lemma summary_data_inv names i found rows :
  HeistSummary.summary_data names i found = Ok rows ->
  exists shares, Forall2 share_of found shares.
Proof.
  revert i rows. induction found as [|[[msg t] c] found IH]; intros i rows.
  - intros _. exists []. constructor.
  - cbn [HeistSummary.summary_data].
    destruct (HeistSummary.jump_link msg) as [link|] eqn:Hl; cbn [bind_result]; [|done].
    destruct (truediv_int t c) as [each|] eqn:He; cbn [bind_result of_outcome]; [|done].
    destruct (names !! i); cbn [bind_result]; [|done].
    destruct (HeistSummary.summary_data names (S i) found) as [tl|] eqn:Htl;
      cbn [bind_result]; [|done].
    intros _. destruct (IH _ _ Htl) as [shares Hs].
    exists ((link, each) :: shares). by constructor.
Qed.

Lemma summary_data_err names i found e :
  HeistSummary.summary_data names i found = Err e ->
  Forall (fun d : HeistSummary.detection => is_Some (guild_id d.1.1) /\ (1 <= d.2)%Z) found ->
  (i + length found <= length names)%nat ->
  e = Exn OverflowError.
Proof.
  revert i. induction found as [|[[msg t] c] found IH]; intros i; [done|].
  cbn [HeistSummary.summary_data]. intros He [[[gid Hg] Hc] Hf]%Forall_cons Hlen.
  cbn [fst snd length] in *. unfold HeistSummary.jump_link in He. rewrite Hg in He.
  cbn [bind_result] in He. unfold truediv_int, float_of_int in He.
  replace (c =? 0)%Z with false in He by lia.
  destruct (float_of_Z c); cbn [bind bind_result of_outcome] in He;
    try (by injection He as <-).
  all: destruct (lookup_lt_is_Some_2 names i ltac:(lia)) as [x Hx]; rewrite Hx in He;
    cbn [bind_result] in He;
    destruct (HeistSummary.summary_data names (S i) found) as [tl|e'] eqn:Htl;
    cbn [bind_result] in He; [done|]; injection He as <-;
    apply (IH (S i)); [done | done | lia].
Qed.

Lemma pad_names_length names (found : list HeistSummary.detection) :
  (length found <= length (HeistSummary.pad_names names found))%nat.
Proof. unfold HeistSummary.pad_names. rewrite length_app, length_replicate. lia. Qed.

Lemma recent_length ch limit found :
  (1 <= limit)%Z -> HeistSummary.get_recent_heist_messages ch limit = Ret found ->
  (Z.of_nat (length found) <= limit)%Z.
Proof.
  intros Hl. unfold HeistSummary.get_recent_heist_messages.
  destruct (HeistSummary.scan_messages _ _ _) as [found'|] eqn:Hs; cbn [bind]; [|done].
  intros [= <-]. rewrite length_rev.
  apply (scan_messages_length limit (history ch 100) [] found'); [cbn; lia | done].
Qed.

(** X10: the prefix command answers in one of three ways. A count
    outside 1..5 is refused before anything is read; with no payout among
    the hundred newest messages the invocation is deleted and a notice
    sent; otherwise the invocation is deleted and one message is sent, the
    header followed by the summary rows, at least one and at most
    [heists_count] of them, hence never more than five. *)
Theorem heist_summary_prefix_answers ch guild_name heists_count heist_names acts :
  HeistSummary.heist_summary_prefix ch guild_name heists_count heist_names = Ok acts ->
  (~ (1 <= heists_count <= 5)%Z
   /\ acts = [HeistSummary.Send (lit "heists_count must be between 1 and 5.")])
  \/ ((1 <= heists_count <= 5)%Z
      /\ HeistSummary.get_recent_heist_messages ch heists_count = Ret []
      /\ acts = [HeistSummary.DeleteInvocation;
                 HeistSummary.Send (lit "No heist payouts found in the last 100 messages.")])
  \/ ((1 <= heists_count <= 5)%Z
      /\ exists found shares,
           HeistSummary.get_recent_heist_messages ch heists_count = Ret found
           /\ Forall2 share_of found shares
           /\ (1 <= Z.of_nat (length found) <= heists_count)%Z
           /\ acts = [HeistSummary.DeleteInvocation;
                      HeistSummary.Send (summary_header guild_name
                                           ++ summary_text (lit "-") heist_names found shares)]).
Proof.
  unfold HeistSummary.heist_summary_prefix.
  destruct ((heists_count <? 1)%Z || (heists_count >? 5)%Z) eqn:Hg.
  { intros [= <-]. left. split; [lia | done]. }
  assert (1 <= heists_count <= 5)%Z as Hn by lia.
  destruct (HeistSummary.get_recent_heist_messages ch heists_count) as [found|] eqn:Hf;
    cbn [of_outcome bind_result]; [|done].
  destruct found as [|d found]; [intros [= <-]; right; by left|].
  destruct (HeistSummary.summary_data _ _ _) as [rows|] eqn:Hrows; cbn [bind_result]; [|done].
  destruct (summary_data_inv _ _ _ _ Hrows) as [shares Hs].
  pose proof (summary_text_ok (lit "-") heist_names (d :: found) shares Hs) as Ht.
  rewrite Hrows in Ht. cbn [bind_result] in Ht. rewrite Ht. cbn [bind_result].
  intros [= <-]. right. right. split; [done|].
  exists (d :: found), shares. repeat split; try done.
  - cbn [length]. lia.
  - apply (recent_length ch); [lia | done].
Qed.

(** X11: once the history has delivered its messages, all of a guild, what
    the two commands compute from them, the detections, the shares, the
    links, the names and the rows they are about to post, cannot fail with
    [ZeroDivisionError], [ValueError], a missing attribute or an index out
    of range: the only exception raised before anything is posted is
    [OverflowError]. *)
Theorem summary_commands_fail_only_on_overflow
    ch guild_name heists_count heist_names emoji embedded e :
  (forall m, m ∈ history ch 100 -> is_Some (guild_id m)) ->
  HeistSummary.heist_summary_prefix ch guild_name heists_count heist_names = Err e
  \/ HeistSummary.heist_summary_slash ch guild_name heists_count heist_names emoji embedded
     = Err e ->
  e = Exn OverflowError.
Proof.
  intros Hguild.
  assert (forall emoji' : str,
            (let! found := of_outcome (HeistSummary.get_recent_heist_messages ch heists_count) in
             match found with
             | [] => Ok []
             | _ => let! rows := HeistSummary.summary_data
                                   (HeistSummary.pad_names (HeistSummary.name_list heist_names)
                                      found) 0 found in
                    let! text := of_outcome (HeistSummary.build_heist_summary_text rows emoji') in
                    Ok text
             end) = Err e -> e = Exn OverflowError) as Hcore.
  { intros emoji'.
    destruct (HeistSummary.get_recent_heist_messages ch heists_count) as [found|e'] eqn:Hf;
      cbn [of_outcome bind_result].
    - destruct found as [|d found]; [done|].
      destruct (HeistSummary.summary_data _ _ _) as [rows|e'] eqn:Hrows; cbn [bind_result].
      + unfold HeistSummary.build_heist_summary_text. rewrite summary_lines_ok. done.
      + intros [= <-]. eapply summary_data_err; [exact Hrows| |].
        * apply recent_sound in Hf. eapply Forall_impl; [exact Hf|].
          intros d' (Hin & _ & _ & Hc). split; [by apply Hguild | done].
        * cbn [Nat.add]. apply pad_names_length.
    - intros [= <-]. by apply recent_raise in Hf as ->. }
  unfold HeistSummary.heist_summary_prefix, HeistSummary.heist_summary_slash.
  destruct ((heists_count <? 1)%Z || (heists_count >? 5)%Z); [by intros [|]|].
  intros [H|H].
  - apply (Hcore (lit "-")). revert H.
    destruct (of_outcome _) as [found|]; cbn [bind_result]; [|by intros [= <-]].
    destruct found; [done|].
    destruct (HeistSummary.summary_data _ _ _); cbn [bind_result]; [|by intros [= <-]].
    destruct (of_outcome _); cbn [bind_result]; [done | by intros [= <-]].
  - apply (Hcore emoji). revert H.
    destruct (of_outcome _) as [found|]; cbn [bind_result]; [|by intros [= <-]].
    destruct found; [done|].
    destruct (HeistSummary.summary_data _ _ _); cbn [bind_result]; [|by intros [= <-]].
    destruct (of_outcome _); cbn [bind_result]; [by destruct embedded | by intros [= <-]].
Qed.

End Commands.

Lemma summary_commands_post_rows_witness :
  HeistSummary.heist_summary_prefix (U:=ascii_tables) one_payout None 1 (lit "Vault")
  = Ok [HeistSummary.DeleteInvocation;
        HeistSummary.Send
          (lit "**Server's Heist Summary**" ++ nl
             ++ lit "- **[Vault](https://discord.com/channels/1/7/9) - 2 payouts** each got: **"
             ++ [glyph] ++ lit " 500**")].
Proof.
  pose proof (summary_commands_post_rows (U:=ascii_tables) one_payout None 1 (lit "Vault")
                (lit "-")
                [ (dank 9 (payout_text "1,000" "2") [], float_of_Z 1000, 2%Z) ]
                [ (lit "https://discord.com/channels/1/7/9",
                   SFdiv prec emax (float_of_Z 1000) (float_of_Z 2)) ]
                ltac:(lia) ltac:(vm_compute; reflexivity) ltac:(discriminate)
                ltac:(constructor; [split; vm_compute; reflexivity | constructor]))
    as [H _].
  rewrite H. vm_compute. reflexivity.
Defined.

Lemma heist_summary_prefix_answers_witness :
  exists found shares,
    HeistSummary.get_recent_heist_messages (U:=ascii_tables) one_payout 1 = Ret found
    /\ Forall2 share_of found shares /\ (1 <= Z.of_nat (length found) <= 1)%Z.
Proof.
  destruct (heist_summary_prefix_answers (U:=ascii_tables) one_payout None 1 (lit "Vault") _
              ltac:(vm_compute; reflexivity))
    as [[Hn _] | [(_ & Hnil & _) | (_ & found & shares & Hf & Hs & Hl & _)]].
  - exfalso. apply Hn. lia.
  - exfalso. revert Hnil. vm_compute. discriminate.
  - exists found, shares. split; [exact Hf | split; [exact Hs | exact Hl]].
Defined.

Lemma summary_commands_fail_only_on_overflow_witness :
  HeistSummary.heist_summary_prefix (U:=ascii_tables)
    {| messages_newest_first := [overflow_message] |} None 1 (lit "Vault")
  = Err (Exn OverflowError).
Proof.
  assert (exists e, HeistSummary.heist_summary_prefix (U:=ascii_tables)
            {| messages_newest_first := [overflow_message] |} None 1 (lit "Vault") = Err e)
    as [e He] by (eexists; vm_compute; reflexivity).
  rewrite He. f_equal.
  apply (summary_commands_fail_only_on_overflow (U:=ascii_tables)
           {| messages_newest_first := [overflow_message] |} None 1 (lit "Vault") [] false e).
  - intros m Hm. apply list_elem_of_singleton in Hm as ->. by exists 1%Z.
  - by left.
Defined.

Section Keys.

Lemma str_of_int_head n :
  exists c s, str_of_int n = c :: s /\ (c = 45%N \/ (48 <= c <= 57)%N).
Proof.
  destruct n as [|p|p]; cbn [str_of_int].
  - destruct (digits_of_N_spec (U:=ascii_tables) (Z.to_N 0)) as (Hds & Hne & _).
    destruct (digits_of_N _) as [|c s]; [done|]. exists c, s. split; [done|]. right.
    apply Forall_cons in Hds as [Hc _]. by apply ascii_digit_bounds.
  - destruct (digits_of_N_spec (U:=ascii_tables) (Z.to_N (Z.pos p))) as (Hds & Hne & _).
    destruct (digits_of_N _) as [|c s]; [done|]. exists c, s. split; [done|]. right.
    apply Forall_cons in Hds as [Hc _]. by apply ascii_digit_bounds.
  - exists 45%N, (digits_of_N (N.pos p)). split; [done | by left].
Qed.

Lemma digits_of_N_inj a b : digits_of_N a = digits_of_N b -> a = b.
Proof.
  intros H.
  destruct (digits_of_N_spec (U:=ascii_tables) a) as (_ & _ & Ha).
  destruct (digits_of_N_spec (U:=ascii_tables) b) as (_ & _ & Hb).
  rewrite H in Ha. congruence.
Qed.

Lemma digits_of_N_head n :
  exists c s, digits_of_N n = c :: s /\ (48 <= c <= 57)%N.
Proof.
  destruct (digits_of_N_spec (U:=ascii_tables) n) as (Hds & Hne & _).
  destruct (digits_of_N n) as [|c s]; [done|]. exists c, s. split; [done|].
  apply Forall_cons in Hds as [Hc _]. by apply ascii_digit_bounds.
Qed.

Lemma digits_of_N_not_minus n s : digits_of_N n <> 45%N :: s.
Proof.
  destruct (digits_of_N_head n) as (c & s' & -> & Hc). intros [= -> _]. lia.
Qed.

Lemma str_of_int_inj a b : str_of_int a = str_of_int b -> a = b.
Proof.
  destruct a as [|p|p], b as [|q|q]; cbn [str_of_int]; intros H;
    try (apply digits_of_N_inj in H; lia);
    try (injection H as H; apply digits_of_N_inj in H; lia);
    try (by apply digits_of_N_not_minus in H);
    try (symmetry in H; by apply digits_of_N_not_minus in H).
Qed.

Lemma str_of_int_not_global n : str_of_int n <> lit "global".
Proof.
  destruct (str_of_int_head n) as (c & s & -> & Hc). intros [= -> _]. lia.
Qed.

Lemma str_of_int_not_template n : str_of_int n <> lit "template".
Proof.
  destruct (str_of_int_head n) as (c & s & -> & Hc). intros [= -> _]. lia.
Qed.

End Keys.

Section Settings.

Lemma get_guild_config_spec self g :
  HeistCalc.get_guild_config self g =
    let cfg := <[lit "template" := template_of self g]> (guild_settings self g) in
    ({| HeistCalc.config_data := <[str_of_int g := cfg]> (HeistCalc.config_data self);
        HeistCalc.processed_messages := HeistCalc.processed_messages self |}, cfg).
Proof.
  unfold HeistCalc.get_guild_config, template_of. fold (guild_settings self g).
  destruct (guild_settings self g !! lit "template") as [v|] eqn:Ht; cbn [default].
  - unfold id. by rewrite (insert_id (guild_settings self g) (lit "template") v Ht).
  - done.
Qed.

Lemma guild_settings_with self g cfg :
  guild_settings (HeistCalc.with_guild_config self g cfg) g = cfg.
Proof. unfold guild_settings. cbn. by rewrite lookup_insert_eq. Qed.

Lemma guild_settings_with_ne self g g' cfg :
  g' <> g -> guild_settings (HeistCalc.with_guild_config self g cfg) g' = guild_settings self g'.
Proof.
  intros Hg. unfold guild_settings. cbn. rewrite lookup_insert_ne; [done|].
  intros H%str_of_int_inj. done.
Qed.

(** X12: [get_guild_config] returns the settings of the guild, completed
    with the template "text" when they have none, and leaves exactly what
    it returns under the guild's key: no setting that was present is
    changed, no other guild is touched, the set of handled messages is
    kept, and a second call changes nothing. *)
Theorem get_guild_config_initialises self g :
  let self' := (HeistCalc.get_guild_config self g).1 in
  let cfg := (HeistCalc.get_guild_config self g).2 in
  HeistCalc.config_data self' !! str_of_int g = Some cfg
  /\ cfg !! lit "template"
     = Some (default (HeistCalc.PStr (lit "text")) (guild_settings self g !! lit "template"))
  /\ (forall k, k <> lit "template" -> cfg !! k = guild_settings self g !! k)
  /\ (forall g', g' <> g ->
        HeistCalc.config_data self' !! str_of_int g'
        = HeistCalc.config_data self !! str_of_int g')
  /\ HeistCalc.processed_messages self' = HeistCalc.processed_messages self
  /\ HeistCalc.get_guild_config self' g = (self', cfg).
Proof.
  rewrite get_guild_config_spec. cbn zeta. cbn [fst snd HeistCalc.config_data].
  split; [by rewrite lookup_insert_eq|].
  split; [by rewrite lookup_insert_eq|].
  split; [intros k Hk; by rewrite lookup_insert_ne|].
  split. { intros g' Hg. rewrite lookup_insert_ne; [done|]. by intros H%str_of_int_inj. }
  split; [done|].
  set (cfg := <[lit "template" := template_of self g]> (guild_settings self g)).
  set (self' := {| HeistCalc.config_data := _; HeistCalc.processed_messages := _ |}).
  rewrite get_guild_config_spec. cbn zeta.
  assert (guild_settings self' g = cfg) as Hs.
  { unfold guild_settings, self'. cbn [HeistCalc.config_data]. by rewrite lookup_insert_eq. }
  assert (template_of self' g = template_of self g) as Ht.
  { unfold template_of at 1. rewrite Hs. unfold cfg. by rewrite lookup_insert_eq. }
  rewrite Hs, Ht. fold cfg.
  assert (<[lit "template" := template_of self g]> cfg = cfg) as ->.
  { unfold cfg. by rewrite insert_insert_eq. }
  unfold self' at 1 2. cbn [HeistCalc.config_data HeistCalc.processed_messages].
  by rewrite insert_insert_eq.
Qed.

Lemma settings_after_update (self : HeistCalc.cog) (g : Z) (upd : gmap str HeistCalc.pyval -> gmap str HeistCalc.pyval) :
  let self' := HeistCalc.with_guild_config (HeistCalc.get_guild_config self g).1 g
                 (upd (HeistCalc.get_guild_config self g).2) in
  guild_settings self' g = upd (<[lit "template" := template_of self g]> (guild_settings self g))
  /\ (forall g', g' <> g -> guild_settings self' g' = guild_settings self g')
  /\ HeistCalc.processed_messages self' = HeistCalc.processed_messages self.
Proof.
  rewrite get_guild_config_spec. cbn zeta. cbn [fst snd].
  split; [by rewrite guild_settings_with|]. split; [|done].
  intros g' Hg. rewrite guild_settings_with_ne by done.
  unfold guild_settings. cbn [HeistCalc.config_data]. rewrite lookup_insert_ne; [done|].
  by intros H%str_of_int_inj.
Qed.

Lemma template_valid template :
  template ∈ [lit "text"; lit "image"] ->
  negb (bool_decide (template ∈ [lit "text"; lit "image"])) = false.
Proof. intros H. by rewrite bool_decide_true. Qed.

Lemma toggle_switches self g c mention enable template :
  template ∈ [lit "text"; lit "image"] ->
  let self' := (HeistCalc.heist_cal_toggle self true g c mention enable template).1 in
  channel_on self' g c = enable
  /\ template_of self' g = HeistCalc.PStr template
  /\ global_on self' g = global_on self g
  /\ (forall c', c' <> c -> channel_on self' g c' = channel_on self g c')
  /\ (forall g', g' <> g -> guild_settings self' g' = guild_settings self g')
  /\ HeistCalc.processed_messages self' = HeistCalc.processed_messages self.
Proof.
  intros Ht. unfold HeistCalc.heist_cal_toggle. cbn [negb]. rewrite template_valid by done.
  destruct (settings_after_update self g
              (fun cfg => <[lit "template" := HeistCalc.PStr template]>
                            (<[str_of_int c := HeistCalc.PBool enable]> cfg)))
    as (Hs & Ho & Hp).
  destruct (HeistCalc.get_guild_config self g) as [self1 cfg]. cbn [fst snd] in *. cbn zeta.
  unfold channel_on, template_of, global_on. rewrite Hs.
  pose proof (str_of_int_not_template c) as Hc1. pose proof (str_of_int_not_global c) as Hc2.
  split. { rewrite lookup_insert_ne by done. by rewrite lookup_insert_eq. }
  split. { by rewrite lookup_insert_eq. }
  split. { rewrite !lookup_insert_ne by done. done. }
  split; [|done]. intros c' Hc'. pose proof (str_of_int_not_template c') as Hc3.
  rewrite lookup_insert_ne by done. rewrite lookup_insert_ne by (by intros H%str_of_int_inj).
  by rewrite lookup_insert_ne.
Qed.

(** X13: accepted from an administrator, [heist_cal_toggle] sets the
    switch of the invoking channel to [enable] and the template of the guild
    to the one given, and nothing else: the switch of the whole guild, the
    switches of the other channels, the settings of the other guilds and
    the set of handled messages stay as they were. *)
Theorem heist_cal_toggle_sets_channel self g c mention enable template :
  template ∈ [lit "text"; lit "image"] ->
  let self' := (HeistCalc.heist_cal_toggle self true g c mention enable template).1 in
  channel_on self' g c = enable
  /\ template_of self' g = HeistCalc.PStr template
  /\ global_on self' g = global_on self g
  /\ (forall c', c' <> c -> channel_on self' g c' = channel_on self g c')
  /\ (forall g', g' <> g -> guild_settings self' g' = guild_settings self g')
  /\ HeistCalc.processed_messages self' = HeistCalc.processed_messages self.
Proof. apply toggle_switches. Qed.

(** X14: accepted from an administrator, [heist_cal_global] sets the
    switch of the whole guild to [enable] and nothing else: the switches of
    the channels, the template, the other guilds and the set of handled
    messages stay as they were. *)
Theorem heist_cal_global_sets_guild self g enable :
  let self' := (HeistCalc.heist_cal_global self true g enable).1 in
  global_on self' g = enable
  /\ template_of self' g = template_of self g
  /\ (forall c, channel_on self' g c = channel_on self g c)
  /\ (forall g', g' <> g -> guild_settings self' g' = guild_settings self g')
  /\ HeistCalc.processed_messages self' = HeistCalc.processed_messages self.
Proof.
  unfold HeistCalc.heist_cal_global. cbn [negb].
  destruct (settings_after_update self g
              (fun cfg => <[lit "global" := HeistCalc.PBool enable]> cfg))
    as (Hs & Ho & Hp).
  destruct (HeistCalc.get_guild_config self g) as [self1 cfg]. cbn [fst snd] in *. cbn zeta.
  unfold channel_on, template_of, global_on. rewrite Hs.
  split. { by rewrite lookup_insert_eq. }
  split. { rewrite lookup_insert_ne by done. by rewrite lookup_insert_eq. }
  split; [|done]. intros c.
  pose proof (str_of_int_not_template c) as Hc1. pose proof (str_of_int_not_global c) as Hc2.
  rewrite lookup_insert_ne by done. by rewrite lookup_insert_ne.
Qed.

(** X15: accepted from an administrator, the slash command
    [heist_calculate_cmd] sets the template of the guild and one switch:
    that of the whole guild when [full_server] is set, that of the invoking
    channel otherwise; the other switch, the other channels, the other
    guilds and the set of handled messages stay as they were. *)
Theorem heist_calculate_cmd_sets_one_switch self g c mention enable full_server template :
  template ∈ [lit "text"; lit "image"] ->
  let self' := (HeistCalc.heist_calculate_cmd self true g c mention enable full_server
                  template).1 in
  template_of self' g = HeistCalc.PStr template
  /\ global_on self' g = (if full_server then enable else global_on self g)
  /\ channel_on self' g c = (if full_server then channel_on self g c else enable)
  /\ (forall c', c' <> c -> channel_on self' g c' = channel_on self g c')
  /\ (forall g', g' <> g -> guild_settings self' g' = guild_settings self g')
  /\ HeistCalc.processed_messages self' = HeistCalc.processed_messages self.
Proof.
  intros Ht. unfold HeistCalc.heist_calculate_cmd. cbn [negb]. rewrite template_valid by done.
  destruct (settings_after_update self g
              (fun cfg => <[lit "template" := HeistCalc.PStr template]>
                            (if full_server then <[lit "global" := HeistCalc.PBool enable]> cfg
                             else <[str_of_int c := HeistCalc.PBool enable]> cfg)))
    as (Hs & Ho & Hp).
  destruct (HeistCalc.get_guild_config self g) as [self1 cfg]. cbn [fst snd] in *. cbn zeta.
  unfold channel_on, template_of, global_on. rewrite Hs.
  pose proof (str_of_int_not_template c) as Hc1. pose proof (str_of_int_not_global c) as Hc2.
  split. { by rewrite lookup_insert_eq. }
  split. { rewrite lookup_insert_ne by done. destruct full_server.
           - by rewrite lookup_insert_eq.
           - rewrite !lookup_insert_ne by done. done. }
  split. { rewrite lookup_insert_ne by done. destruct full_server.
           - rewrite !lookup_insert_ne by done. done.
           - by rewrite lookup_insert_eq. }
  split; [|done]. intros c' Hc'.
  pose proof (str_of_int_not_template c') as Hc3. pose proof (str_of_int_not_global c') as Hc4.
  rewrite lookup_insert_ne by done. destruct full_server.
  - rewrite !lookup_insert_ne by done. done.
  - rewrite lookup_insert_ne by (by intros H%str_of_int_inj). by rewrite lookup_insert_ne.
Qed.

(** X16: a configuration command changes and saves nothing unless an
    administrator invokes it, and the two commands that take a template
    neither unless the template is "text" or "image"; an accepted command
    saves once, and what it saves is the configuration the cog then
    holds. *)
Theorem configuration_commands_guard self administrator g c mention enable full_server template :
  let accepted := administrator && bool_decide (template ∈ [lit "text"; lit "image"]) in
  let saves (r : HeistCalc.cog * list HeistCalc.effect) :=
    omap (fun eff => match eff with
                     | HeistCalc.SaveConfig data => Some data
                     | _ => None
                     end) r.2 in
  let guarded (ok : bool) (r : HeistCalc.cog * list HeistCalc.effect) :=
    if ok then saves r = [HeistCalc.config_data r.1] else r.1 = self /\ saves r = [] in
  guarded accepted (HeistCalc.heist_calculate_cmd self administrator g c mention enable
                      full_server template)
  /\ guarded accepted (HeistCalc.heist_cal_toggle self administrator g c mention enable template)
  /\ guarded administrator (HeistCalc.heist_cal_global self administrator g enable).
Proof.
  cbn zeta. unfold HeistCalc.heist_calculate_cmd, HeistCalc.heist_cal_toggle,
    HeistCalc.heist_cal_global.
  destruct (HeistCalc.get_guild_config self g) as [self1 cfg].
  destruct administrator; cbn [negb andb]; [|done].
  destruct (bool_decide _); cbn [negb]; done.
Qed.

End Settings.

Lemma heist_cal_toggle_sets_channel_witness :
  channel_on (HeistCalc.heist_cal_toggle enabled_cog true 1 7 (lit "#heists") false
                (lit "image")).1 1 7 = false
  /\ global_on (HeistCalc.heist_cal_toggle enabled_cog true 1 7 (lit "#heists") false
                  (lit "image")).1 1 = true.
Proof.
  pose proof (heist_cal_toggle_sets_channel enabled_cog 1 7 (lit "#heists") false (lit "image")
                ltac:(apply list_elem_of_further, list_elem_of_here)) as (H1 & _ & H2 & _).
  split; [exact H1|]. rewrite H2. vm_compute. reflexivity.
Defined.

Lemma heist_calculate_cmd_sets_one_switch_witness :
  template_of (HeistCalc.heist_calculate_cmd enabled_cog true 1 7 (lit "#heists") true false
                 (lit "text")).1 1 = HeistCalc.PStr (lit "text").
Proof.
  pose proof (heist_calculate_cmd_sets_one_switch enabled_cog 1 7 (lit "#heists") true false
                (lit "text") ltac:(apply list_elem_of_here)) as (H1 & _).
  exact H1.
Defined.

Section Listener.
Context {U : UnicodeData}.

Lemma on_message_marks self msg :
  msg_id msg ∈ HeistCalc.processed_messages (HeistCalc.on_message self msg).1.
Proof.
  unfold HeistCalc.on_message. destruct (decide _) as [Hin|Hnin]; [done|].
  destruct (guild_id msg); [|cbn; set_solver].
  destruct (negb (author_id msg =? _)%Z); [cbn; set_solver|].
  rewrite get_guild_config_spec. cbv beta iota zeta.
  destruct (negb _); cbn; set_solver.
Qed.

Lemma on_message_processed_grows self msg :
  HeistCalc.processed_messages self ⊆ HeistCalc.processed_messages (HeistCalc.on_message self msg).1.
Proof.
  unfold HeistCalc.on_message. destruct (decide _) as [Hin|Hnin]; [done|].
  destruct (guild_id msg); [|cbn; set_solver].
  destruct (negb (author_id msg =? _)%Z); [cbn; set_solver|].
  rewrite get_guild_config_spec. cbv beta iota zeta.
  destruct (negb _); cbn; set_solver.
Qed.

(** X17: every message is handled at most once. [on_message] records the
    id of each message it is given, whoever sent it and whether or not the
    calculator is switched on, and never forgets one; a message whose id is
    recorded gets no answer, writes no log record and leaves the cog as it
    is. *)
Theorem on_message_handles_once self msg :
  msg_id msg ∈ HeistCalc.processed_messages (HeistCalc.on_message self msg).1
  /\ HeistCalc.processed_messages self
     ⊆ HeistCalc.processed_messages (HeistCalc.on_message self msg).1
  /\ (forall again, msg_id again = msg_id msg ->
        HeistCalc.on_message (HeistCalc.on_message self msg).1 again
        = ((HeistCalc.on_message self msg).1, HeistCalc.ret None)).
Proof.
  split; [apply on_message_marks|]. split; [apply on_message_processed_grows|].
  intros again Hid. pose proof (on_message_marks self msg) as Hin. rewrite <- Hid in Hin.
  unfold HeistCalc.on_message at 1. by rewrite decide_True.
Qed.

Lemma on_message_gate self msg g :
  msg_id msg ∉ HeistCalc.processed_messages self ->
  guild_id msg = Some g -> author_id msg = HeistCalc.DANK_MEMER_ID ->
  (HeistCalc.on_message self msg).2 =
    if channel_on self g (channel_id msg) || global_on self g
    then HeistCalc.detect_and_reply
           (<[lit "template" := template_of self g]> (guild_settings self g)) msg
    else HeistCalc.ret None.
Proof.
  intros Hnew Hg Ha. unfold HeistCalc.on_message. rewrite decide_False by done.
  rewrite Hg, Ha, Z.eqb_refl. cbn [negb]. rewrite get_guild_config_spec. cbv beta iota zeta.
  pose proof (str_of_int_not_template (channel_id msg)) as Hc.
  rewrite !lookup_insert_ne by done.
  match goal with
  | |- context [guild_settings ?s g] => change (guild_settings s g) with (guild_settings self g)
  end.
  match goal with
  | |- context [template_of ?s g] => change (template_of s g) with (template_of self g)
  end.
  fold (channel_on self g (channel_id msg)). fold (global_on self g).
  by destruct (_ || _).
Qed.

Lemma listener_silent self msg :
  guild_id msg = None
  \/ author_id msg <> HeistCalc.DANK_MEMER_ID
  \/ (exists g, guild_id msg = Some g
        /\ channel_on self g (channel_id msg) = false /\ global_on self g = false) ->
  (HeistCalc.on_message self msg).2 = HeistCalc.ret None.
Proof.
  intros H. unfold HeistCalc.on_message. destruct (decide _); [done|].
  destruct H as [Hg | [Ha | (g & Hg & Hc & Hgl)]].
  - by rewrite Hg.
  - destruct (guild_id msg); [|done].
    destruct (Z.eqb_spec (author_id msg) HeistCalc.DANK_MEMER_ID); done.
  - rewrite Hg. destruct (negb (author_id msg =? _)%Z); [done|].
    rewrite get_guild_config_spec. cbv beta iota zeta.
    pose proof (str_of_int_not_template (channel_id msg)) as Hk.
    rewrite !lookup_insert_ne by done.
    match goal with
    | |- context [guild_settings ?s g] => change (guild_settings s g) with (guild_settings self g)
    end.
    fold (channel_on self g (channel_id msg)). fold (global_on self g).
    by rewrite Hc, Hgl.
Qed.

(** X18: [on_message] gives no answer and writes no log record when the
    message is outside a guild, or is not from Dank Memer, or when the
    calculator is switched on neither for the channel nor for the whole
    guild. *)
Theorem on_message_stays_silent self msg :
  guild_id msg = None
  \/ author_id msg <> HeistCalc.DANK_MEMER_ID
  \/ (exists g, guild_id msg = Some g
        /\ channel_on self g (channel_id msg) = false /\ global_on self g = false) ->
  (HeistCalc.on_message self msg).2 = HeistCalc.ret None.
Proof. apply listener_silent. Qed.

Lemma scan_lines_count_nonneg lines t0 c0 t c :
  (0 <= c0)%Z -> HeistSummary.scan_lines lines t0 c0 = Ret (t, c) -> (0 <= c)%Z.
Proof.
  intros H0 Hs. apply scan_lines_count in Hs.
  destruct (last (omap parsed_count lines)) as [v|] eqn:Hlast; [|lia].
  apply last_Some in Hlast as [l' Hl'].
  assert (v ∈ omap parsed_count lines) as Hin by (rewrite Hl'; set_solver).
  apply list_elem_of_omap in Hin as (line & _ & Hv).
  by apply (parsed_count_nonneg line v c).
Qed.

Lemma detect_and_reply_outcome cfg msg :
  (HeistCalc.detect_and_reply cfg msg).2 =
    if contains phrase (lower (HeistSummary.combined_content msg)) then
      let* (t, c) := HeistSummary.scan_lines (message_lines msg) None 0 in
      match t with
      | Some total =>
          if (c =? 0)%Z then Ret None
          else let* each := truediv_int total c in
               Ret (Some (reply_for (default (HeistCalc.PStr (lit "text")) (cfg !! lit "template"))
                            c each))
      | None => Ret None
      end
    else Ret None.
Proof.
  unfold HeistCalc.detect_and_reply.
  change (HeistCalc.combined_content msg) with (HeistSummary.combined_content msg).
  fold phrase. destruct (contains phrase _); cbn [negb]; [|done].
  fold (message_lines msg).
  pose proof (calc_scan_lines_result (message_lines msg) None 0) as Hs.
  destruct (HeistCalc.scan_lines _ _ _) as [l1 [[t c]|e]]; cbn [snd] in Hs; rewrite <- Hs;
    cbn [HeistCalc.bind_log bind snd]; [|done].
  destruct t as [total|]; [|done].
  destruct (c =? 0)%Z; [done|].
  destruct (truediv_int total c) as [each|e]; cbn [HeistCalc.lift HeistCalc.bind_log bind snd];
    [|done].
  change (HeistCalc.abbreviate_number each) with (HeistSummary.abbreviate_number each).
  rewrite summary_abbreviate_number_spec. cbn [HeistCalc.lift HeistCalc.bind_log].
  unfold reply_for, reply_text.
  change (HeistCalc.format_number each) with (HeistSummary.format_number each).
  by destruct (decide _).
Qed.

Lemma detect_outcome msg :
  author_id msg = HeistSummary.DANK_MEMER_ID ->
  detect msg =
    if contains phrase (lower (HeistSummary.combined_content msg)) then
      let* (t, c) := HeistSummary.scan_lines (message_lines msg) None 0 in
      Ret (match t with
           | Some total => if (c =? 0)%Z then None else Some (msg, total, c)
           | None => None
           end)
    else Ret None.
Proof.
  intros Ha. unfold detect.
  destruct (contains phrase _) eqn:Hp.
  - rewrite scan_message_qualified by (unfold qualifies; by rewrite Ha, Z.eqb_refl, Hp).
    destruct (HeistSummary.scan_lines _ _ _) as [[t c]|e] eqn:Hs; cbn [bind]; [|done].
    apply scan_lines_count_nonneg in Hs; [|done].
    destruct t as [total|]; [|done].
    destruct (Z.eqb_spec c 0) as [->|Hc]; [done|].
    destruct (Z.gtb_spec c 0); [done|lia].
  - rewrite scan_message_unqualified; [done|]. unfold qualifies. by rewrite Hp, andb_false_r.
Qed.

Lemma listener_outcome self msg g :
  msg_id msg ∉ HeistCalc.processed_messages self ->
  guild_id msg = Some g -> author_id msg = HeistCalc.DANK_MEMER_ID ->
  channel_on self g (channel_id msg) || global_on self g = true ->
  (HeistCalc.on_message self msg).2.2 =
    let* found := detect msg in
    match found with
    | Some (_, total, count) =>
        let* each := truediv_int total count in
        Ret (Some (reply_for (template_of self g) count each))
    | None => Ret None
    end.
Proof.
  intros Hnew Hg Ha Hon. rewrite (on_message_gate self msg g), Hon by done.
  rewrite detect_and_reply_outcome, detect_outcome by done.
  rewrite lookup_insert_eq. cbn [default].
  destruct (contains phrase _); [|done].
  destruct (HeistSummary.scan_lines _ _ _) as [[t c]|e]; cbn [bind]; [|done].
  destruct t as [total|]; [|done]. by destruct (c =? 0)%Z.
Qed.

(** X19: for a new message of Dank Memer in a guild where the calculator
    is switched on for the channel or for the whole guild, the listener
    answers exactly when the detector of the summary cog finds a payout in
    the message, and with the same numbers: no detection, no answer; a
    detection of [total] and [count] is answered with the share
    [total / count], as an image under the template "image" and as an embed
    otherwise; an exception of the scan escapes the listener too. *)
Theorem calculator_answers_detections self msg g :
  msg_id msg ∉ HeistCalc.processed_messages self ->
  guild_id msg = Some g -> author_id msg = HeistCalc.DANK_MEMER_ID ->
  channel_on self g (channel_id msg) || global_on self g = true ->
  (HeistCalc.on_message self msg).2.2 =
    let* found := detect msg in
    match found with
    | Some (_, total, count) =>
        let* each := truediv_int total count in
        Ret (Some (reply_for (template_of self g) count each))
    | None => Ret None
    end.
Proof. apply listener_outcome. Qed.

(** X20: switching a channel on and off through [heist_cal_toggle] has
    the effect on the listener one expects, with one exception. After an
    administrator switches the channel on, a new message of Dank Memer in
    it is answered exactly when the detector finds a payout, in the form
    of the template given to the command. After the channel is switched
    off such a message is ignored only if the switch of the whole guild is
    off too: while that one is on, the message is still answered. *)
Theorem toggle_then_message self g mention template msg :
  template ∈ [lit "text"; lit "image"] ->
  msg_id msg ∉ HeistCalc.processed_messages self ->
  guild_id msg = Some g -> author_id msg = HeistCalc.DANK_MEMER_ID ->
  let answered (template : HeistCalc.pyval) :=
    let* found := detect msg in
    match found with
    | Some (_, total, count) =>
        let* each := truediv_int total count in
        Ret (Some (reply_for template count each))
    | None => Ret None
    end in
  let after (enable : bool) :=
    (HeistCalc.heist_cal_toggle self true g (channel_id msg) mention enable template).1 in
  (HeistCalc.on_message (after true) msg).2.2 = answered (HeistCalc.PStr template)
  /\ (global_on self g = false -> (HeistCalc.on_message (after false) msg).2 = HeistCalc.ret None)
  /\ (global_on self g = true ->
        (HeistCalc.on_message (after false) msg).2.2 = answered (HeistCalc.PStr template)).
Proof.
  intros Ht Hnew Hg Ha. cbn zeta.
  destruct (toggle_switches self g (channel_id msg) mention true template Ht)
    as (Hc1 & Ht1 & Hg1 & _ & _ & Hp1).
  destruct (toggle_switches self g (channel_id msg) mention false template Ht)
    as (Hc0 & Ht0 & Hg0 & _ & _ & Hp0).
  cbn zeta in *. split; [|split].
  - rewrite (listener_outcome _ msg g), Ht1; try done.
    + by rewrite Hp1.
    + by rewrite Hc1.
  - intros Hoff. apply listener_silent. right. right. exists g. by rewrite Hc0, Hg0.
  - intros Hon. rewrite (listener_outcome _ msg g), Ht0; try done.
    + by rewrite Hp0.
    + by rewrite Hc0, Hg0, Hon.
Qed.

Lemma truediv_int_raise x n e :
  n <> 0%Z -> truediv_int x n = Raise e -> e = OverflowError.
Proof.
  intros Hn. unfold truediv_int, float_of_int. replace (n =? 0)%Z with false by lia.
  destruct (float_of_Z n); cbn [bind]; try done. by intros [= <-].
Qed.

(** X21: whatever the message and the state of the cog, what the listener
    computes before it replies, the detection, the share and the text of
    the reply, raises no exception but [OverflowError]: no message makes
    this computation fail with [ZeroDivisionError] or [ValueError]. *)
Theorem listener_raises_only_overflow self msg e :
  (HeistCalc.on_message self msg).2.2 = Raise e -> e = OverflowError.
Proof.
  unfold HeistCalc.on_message. destruct (decide _); [done|].
  destruct (guild_id msg); [|done]. destruct (negb (author_id msg =? _)%Z); [done|].
  destruct (HeistCalc.get_guild_config _ _) as [self' cfg].
  destruct (negb _); [done|]. cbn [snd]. rewrite detect_and_reply_outcome.
  destruct (contains phrase _); [|done].
  destruct (HeistSummary.scan_lines _ _ _) as [[t c]|e'] eqn:Hs; cbn [bind].
  - destruct t as [total|]; [|done]. destruct (Z.eqb_spec c 0); [done|].
    destruct (truediv_int total c) as [each|e'] eqn:Hd; cbn [bind]; [done|].
    intros [= <-]. by apply truediv_int_raise in Hd.
  - intros [= <-]. by apply scan_lines_raise_overflow in Hs as [-> _].
Qed.

End Listener.

Lemma on_message_stays_silent_witness :
  (HeistCalc.on_message (U:=ascii_tables) enabled_cog (other 10 (payout_text "5" "1"))).2
  = HeistCalc.ret None.
Proof.
  apply (on_message_stays_silent (U:=ascii_tables)). right. left. vm_compute. discriminate.
Defined.

Lemma calculator_answers_detections_witness :
  (HeistCalc.on_message (U:=ascii_tables) enabled_cog (dank 9 (payout_text "1,000" "2") [])).2.2
  = Ret (Some (HeistCalc.ReplyEmbed (lit "2 Person Got: " ++ [glyph] ++ lit " 500 **(500)**"))).
Proof.
  rewrite (calculator_answers_detections (U:=ascii_tables) enabled_cog
             (dank 9 (payout_text "1,000" "2") []) 1
             ltac:(vm_compute; set_solver) eq_refl eq_refl ltac:(vm_compute; reflexivity)).
  vm_compute. reflexivity.
Defined.

Lemma toggle_then_message_witness :
  (HeistCalc.on_message (U:=ascii_tables)
     (HeistCalc.heist_cal_toggle enabled_cog true 1 7 (lit "#heists") false (lit "image")).1
     (dank 9 (payout_text "1,000" "2") [])).2.2
  = Ret (Some (HeistCalc.ReplyImage 2 (SFdiv prec emax (float_of_Z 1000) (float_of_Z 2))
                 (lit "2 Person Got: " ++ [glyph] ++ lit " 500 **(500)**"))).
Proof.
  pose proof (toggle_then_message (U:=ascii_tables) enabled_cog 1 (lit "#heists") (lit "image")
                (dank 9 (payout_text "1,000" "2") [])
                ltac:(apply list_elem_of_further, list_elem_of_here)
                ltac:(vm_compute; set_solver) eq_refl eq_refl) as (_ & _ & H).
  cbn zeta in H. etrans; [exact (H ltac:(vm_compute; reflexivity)) | vm_compute; reflexivity].
Defined.

Lemma listener_raises_only_overflow_witness :
  (HeistCalc.on_message (U:=ascii_tables) enabled_cog overflow_message).2.2 = Raise OverflowError.
Proof.
  assert (exists e, (HeistCalc.on_message (U:=ascii_tables) enabled_cog overflow_message).2.2
                    = Raise e) as [e He] by (eexists; vm_compute; reflexivity).
  rewrite He. f_equal.
  exact (listener_raises_only_overflow (U:=ascii_tables) enabled_cog overflow_message e He).
Defined.

Section WholeRoundTrip.
Context {U : UnicodeData}.

Lemma Qred_whole p : Qred (Zpos p # 1) = Zpos p # 1.
Proof.
  pose proof (Qred_correct (Zpos p # 1)) as Hc. pose proof (gcd_Qred (Zpos p # 1)) as Hg.
  destruct (Qred (Zpos p # 1)) as [a b]. unfold Qeq in Hc. cbn [Qnum Qden] in *.
  assert (a = Zpos p * Zpos b)%Z as -> by lia.
  rewrite Z.gcd_comm, (Z.mul_comm (Zpos p)), Z.gcd_mul_diag_l in Hg by lia.
  injection Hg as ->. f_equal. lia.
Qed.

Lemma round_half_even_whole z : round_half_even (z # 1) = z.
Proof.
  unfold round_half_even. cbn [Qnum Qden]. rewrite Z.mod_1_r, Z.div_1_r. done.
Qed.

Lemma floor_log2_whole p : floor_log2 p 1 = Z.log2 (Zpos p).
Proof.
  unfold floor_log2. change (Z.log2 1) with 0%Z. rewrite Z.sub_0_r.
  pose proof (Z.log2_nonneg (Zpos p)) as Hl.
  pose proof (Z.log2_spec (Zpos p) ltac:(lia)) as [Hlo _].
  assert (Qle_bool 1 (scaled p 1 (Z.log2 (Zpos p))) = true) as ->; [|done].
  apply Qle_bool_iff. unfold scaled. replace (0 <=? Z.log2 (Zpos p))%Z with true by lia.
  unfold Qle. cbn [Qnum Qden].
  assert (0 < 2 ^ Z.log2 (Zpos p))%Z by (apply Z.pow_pos_nonneg; lia).
  rewrite Pos2Z.inj_mul, Z2Pos.id by lia. lia.
Qed.

(** The float of a whole number below 2^53 holds it exactly. *)
Lemma float_of_whole n :
  (n < 2 ^ 53)%N ->
  let v := float_of_Q (Z.of_N n # 1) in
  nonneg_finite v = true /\ int_of_float v = Ret (Z.of_N n)
  /\ exists q, value v = Some q /\ (q == inject_Z (Z.of_N n))%Q.
Proof.
  intros Hn. cbn zeta. destruct n as [|p].
  { cbn. split; [done|]. split; [done|]. by exists 0%Q. }
  unfold float_of_Q. cbn [Z.of_N]. rewrite Qred_whole. cbn [Qnum Qden].
  unfold round_to_float. rewrite floor_log2_whole.
  pose proof (Z.log2_nonneg (Zpos p)) as Hl0.
  pose proof (Z.log2_spec (Zpos p) ltac:(lia)) as [Hlo Hhi].
  assert (Z.log2 (Zpos p) <= 52)%Z as Hl.
  { apply Z.lt_succ_r, (Z.pow_lt_mono_r_iff 2); [lia|lia|]. change (2 ^ Z.succ 52)%Z with (2 ^ 53)%Z.
    assert (Zpos p < 2 ^ 53)%Z by lia. lia. }
  set (L := Z.log2 (Zpos p)) in *. clearbody L.
  replace (Z.max (L - 52) (-1074)) with (L - 52)%Z by lia.
  assert (0 < 2 ^ (52 - L))%Z as Hpow by (apply Z.pow_pos_nonneg; lia).
  assert (round_half_even (scaled p 1 (L - 52)) = Zpos p * 2 ^ (52 - L))%Z as ->.
  { unfold scaled. destruct (Z.leb_spec 0 (L - 52)) as [Hge|Hlt].
    - assert (L = 52%Z) as -> by lia. change (52 - 52)%Z with 0%Z.
      change (1 * Z.to_pos (2 ^ 0))%positive with 1%positive.
      rewrite round_half_even_whole. change (2 ^ 0)%Z with 1%Z. lia.
    - replace (- (L - 52))%Z with (52 - L)%Z by lia. apply round_half_even_whole. }
  assert (Zpos p * 2 ^ (52 - L) < 2 ^ 53)%Z as Hm.
  { replace (2 ^ 53)%Z with (2 ^ Z.succ L * 2 ^ (52 - L))%Z.
    - apply Z.mul_lt_mono_pos_r; lia.
    - rewrite <- Z.pow_add_r by lia. f_equal. lia. }
  replace (Zpos p * 2 ^ (52 - L) =? 2 ^ 53)%Z with false by lia.
  destruct (Zpos p * 2 ^ (52 - L))%Z as [|m|m] eqn:Hmeq; [lia| |lia].
  replace (L - 52 <=? 971)%Z with true by lia.
  split; [done|]. cbn [int_of_float value].
  destruct (Z.leb_spec 0 (L - 52)) as [Hge|Hlt].
  - assert (L = 52%Z) as -> by lia. change (52 - 52)%Z with 0%Z in *.
    change (2 ^ 0)%Z with 1%Z in *.
    split; [f_equal; lia|]. eexists. split; [reflexivity|].
    unfold finite_Q. change (0 <=? 0)%Z with true. cbv iota.
    unfold Qeq, inject_Z. cbn [Qnum Qden]. change (2 ^ 0)%Z with 1%Z. lia.
  - replace (- (L - 52))%Z with (52 - L)%Z by lia. split.
    + f_equal. rewrite <- Hmeq. apply Z.div_mul. lia.
    + eexists. split; [reflexivity|]. unfold finite_Q.
      replace (0 <=? L - 52)%Z with false by lia.
      replace (- (L - 52))%Z with (52 - L)%Z by lia.
      unfold Qeq, inject_Z. cbn [Qnum Qden]. rewrite Z2Pos.id by lia. lia.
Qed.

Lemma digits_not_comma n : Forall (fun c => c <> 44%N) (digits_of_N n).
Proof.
  destruct (digits_of_N_spec n) as (Hds & _ & _).
  eapply Forall_impl; [exact Hds|]. intros c Hc%ascii_digit_bounds. lia.
Qed.

Lemma digits_not_glyph n : Forall (fun c => c <> glyph) (group3 (digits_of_N n)).
Proof.
  destruct (digits_of_N_spec n) as (Hds & _ & _).
  apply group3_Forall; [done|]. eapply Forall_impl; [exact Hds|].
  intros c Hc%ascii_digit_bounds. unfold glyph. lia.
Qed.

Lemma digits_plain_cleaned n :
  strip (replace (lit ",") [] (group3 (digits_of_N n))) = digits_of_N n.
Proof.
  change (lit ",") with [44%N]. rewrite group3_uncomma by apply digits_not_comma.
  apply strip_no_space. destruct (digits_of_N_spec n) as (Hds & _ & _).
  eapply Forall_impl; [exact Hds|]. intros c Hc. apply ascii_numeric_not_space. by left.
Qed.

Lemma digits_currency_cleaned n :
  cleaned (glyph :: lit " " ++ group3 (digits_of_N n)) = digits_of_N n.
Proof.
  unfold cleaned. change (glyph :: lit " " ++ group3 (digits_of_N n))
    with ([glyph; 32%N] ++ group3 (digits_of_N n)).
  rewrite replace_char_app, (replace_char_absent glyph (group3 _)) by apply digits_not_glyph.
  change (replace [glyph] [] [glyph; 32%N]) with [32%N].
  change (lit ",") with [44%N]. rewrite replace_char_app, group3_uncomma by apply digits_not_comma.
  change (replace [44%N] [] [32%N]) with [32%N].
  unfold strip. cbn [app lstrip_by]. change (is_space 32%N) with true. cbv iota.
  fold (strip (digits_of_N n)). apply strip_no_space.
  destruct (digits_of_N_spec n) as (Hds & _ & _).
  eapply Forall_impl; [exact Hds|]. intros c Hc. apply ascii_numeric_not_space. by left.
Qed.

(** X22: a whole number below 2^53 written in decimal digits, with or
    without thousands separators, is read back exactly: as a count by
    [parse_plain_number] and as a total by [parse_currency_value] (behind
    the glyph, as the scan passes it), the float returned holds the number
    itself and [int] gives it back. *)
Theorem whole_numbers_are_read_exactly n :
  (n < 2 ^ 53)%N ->
  exists v q,
    HeistSummary.parse_plain_number (group3 (digits_of_N n)) = Ret (Some v)
    /\ HeistSummary.parse_plain_number (digits_of_N n) = Ret (Some v)
    /\ HeistSummary.parse_currency_value (glyph :: lit " " ++ group3 (digits_of_N n))
       = Ret (Some v)
    /\ int_of_float v = Ret (Z.of_N n)
    /\ value v = Some q /\ (q == inject_Z (Z.of_N n))%Q.
Proof.
  intros Hn. destruct (float_of_whole n Hn) as (_ & Hint & q & Hq & Heq).
  destruct (digits_of_N_spec n) as (Hds & Hne & Hval).
  pose proof (py_float_integer _ _ Hds Hne Hval) as Hfl.
  assert (Forall (fun c => num_class c = true) (digits_of_N n)) as Hcls.
  { eapply Forall_impl; [exact Hds|]. intros c Hc. apply ascii_numeric_class. by left. }
  assert (group3 (digits_of_N n) <> []) as Hg.
  { intros Hnil. pose proof (digits_plain_cleaned n) as H. rewrite Hnil in H. by rewrite <- H in Hne. }
  exists (float_of_Q (Z.of_N n # 1)), q. repeat split; try done.
  - apply (parse_plain_number_literal _ (digits_of_N n) []); try done.
    by rewrite digits_plain_cleaned, app_nil_r.
  - apply (parse_plain_number_literal _ (digits_of_N n) []); try done.
    rewrite app_nil_r. apply ascii_numeric_plain_cleaned. by apply ascii_digits_numeric.
  - rewrite (parse_currency_value_literal _ (digits_of_N n) [] (float_of_Q (Z.of_N n # 1)));
      try done.
    by rewrite digits_currency_cleaned, app_nil_r.
Qed.

End WholeRoundTrip.

Lemma whole_numbers_are_read_exactly_witness :
  exists v q,
    HeistSummary.parse_plain_number (U:=ascii_tables) (lit "1,234,567") = Ret (Some v)
    /\ HeistSummary.parse_plain_number (U:=ascii_tables) (lit "1234567") = Ret (Some v)
    /\ HeistSummary.parse_currency_value (U:=ascii_tables) (glyph :: lit " 1,234,567")
       = Ret (Some v)
    /\ int_of_float v = Ret 1234567%Z
    /\ value v = Some q /\ (q == inject_Z 1234567)%Q.
Proof.
  exact (whole_numbers_are_read_exactly (U:=ascii_tables) 1234567 ltac:(vm_compute; reflexivity)).
Defined.

Section Markup.
Context {U : UnicodeData}.

Lemma re_sub_plus_removes p inrun (s : list char) :
  re_sub_plus p [] inrun s = filter (fun c => p c = false) s.
Proof.
  revert inrun. induction s as [|c s IH]; intros inrun; [done|].
  cbn [re_sub_plus]. rewrite filter_cons. destruct (p c) eqn:Hc.
  - rewrite decide_False by done. destruct inrun; cbn [app]; apply IH.
  - rewrite decide_True by done. f_equal. apply IH.
Qed.

Lemma re_sub_plus_insert p (a m b : list char) :
  Forall (fun c => p c = true) m ->
  re_sub_plus p [] false (a ++ m ++ b) = re_sub_plus p [] false (a ++ b).
Proof.
  intros Hm. rewrite !re_sub_plus_removes, !filter_app.
  assert (filter (fun c => p c = false) m = []) as ->; [|done].
  induction Hm as [|c m Hc _ IH]; [done|]. rewrite filter_cons, decide_False; [done|].
  by rewrite Hc.
Qed.

(** X23: backticks and asterisks are ignored by the scan wherever they
    stand in a line: putting a run of them anywhere into a line, or taking
    one out, changes neither the total nor the count extracted from it, in
    either cog. *)
Theorem markup_is_ignored (before markup after : str) total_coins payout_count :
  Forall (fun c => c = 96%N \/ c = 42%N) markup ->
  HeistSummary.scan_line (before ++ markup ++ after) total_coins payout_count
  = HeistSummary.scan_line (before ++ after) total_coins payout_count
  /\ HeistCalc.scan_line (before ++ markup ++ after) total_coins payout_count
     = HeistCalc.scan_line (before ++ after) total_coins payout_count.
Proof.
  intros Hm.
  assert (Forall (fun c => mem_char (lit "`*") c = true) markup) as Hm'.
  { eapply Forall_impl; [exact Hm|]. by intros c [-> | ->]. }
  pose proof (re_sub_plus_insert _ before markup after Hm') as Heq.
  unfold HeistSummary.scan_line, HeistCalc.scan_line. 
  by rewrite Heq.
Qed.

End Markup.

Lemma markup_is_ignored_witness :
  HeistSummary.scan_line (U:=ascii_tables)
    (lit "**" ++ lit "`*`" ++ lit "7 users got the payout") None 0
  = HeistSummary.scan_line (U:=ascii_tables) (lit "**" ++ lit "7 users got the payout") None 0.
Proof.
  pose proof (markup_is_ignored (U:=ascii_tables) (lit "**") (lit "`*`")
                (lit "7 users got the payout") None 0
                ltac:(repeat (apply List.Forall_cons;
                         [first [left; reflexivity | right; reflexivity]|]);
                      apply List.Forall_nil)) as [H _].
  exact H.
Defined.

Section TimeStrings.
Context {U : UnicodeData}.
Variable int_max_str_digits : nat.

Lemma unit_letter_cases u :
  unit_letter u = true ->
  u = 115%N \/ u = 109%N \/ u = 104%N \/ u = 100%N \/ u = 83%N \/ u = 77%N \/ u = 72%N \/ u = 68%N.
Proof.
  unfold unit_letter. change (lit "smhdSMHD") with [115; 109; 104; 100; 83; 77; 72; 68]%N.
  unfold mem_char. cbn [existsb]. rewrite !orb_true_iff, !N.eqb_eq. intuition congruence.
Qed.

Lemma unit_letter_class u : unit_letter u = true -> unit_class u = true /\ is_digit u = false.
Proof.
  intros H. apply unit_letter_cases in H.
  destruct H as [-> | [-> | [-> | [-> | [-> | [-> | [-> | ->]]]]]]]; by vm_compute.
Qed.

Lemma run_cat {R} r1 r2 s caps (k : cont (R:=R)) :
  run (Cat r1 r2) s caps k = run r1 s caps (fun s' caps' => run r2 s' caps' k).
Proof. reflexivity. Qed.

Lemma run_pattern_token ds u rest :
  ds <> [] -> Forall (fun c => is_digit c = true) ds -> unit_letter u = true ->
  run HeistSpree.pattern (ds ++ u :: rest) [] (fun rest caps => Some (rest, caps))
  = Some (rest, [ds; [u]]).
Proof.
  intros Hne Hds [Hu Hd]%unit_letter_class. unfold HeistSpree.pattern. rewrite run_cat.
  apply run_group_plus_max; try done. cbn [app run]. fold (unit_class u). rewrite Hu.
  cbn [length]. replace (S (length rest) - length rest)%nat with 1%nat by lia. done.
Qed.

Lemma run_pattern_nondigit {R} s (k : cont (R:=R)) :
  stops is_digit s -> run HeistSpree.pattern s [] k = None.
Proof.
  intros Hs. unfold HeistSpree.pattern. rewrite run_cat. by apply run_group_plus_fail.
Qed.

Lemma findall_nondigit fuel s :
  Forall (fun c => is_digit c = false) s -> findall_from fuel HeistSpree.pattern s = [].
Proof.
  revert s. induction fuel as [|fuel IH]; intros s Hs; [done|].
  cbn [findall_from]. rewrite run_pattern_nondigit by (destruct Hs; done).
  destruct Hs; [done|]. by apply IH.
Qed.

Lemma findall_skip fuel sep s :
  Forall (fun c => is_digit c = false) sep ->
  findall_from (length sep + fuel) HeistSpree.pattern (sep ++ s)
  = findall_from fuel HeistSpree.pattern s.
Proof.
  induction 1 as [|c sep Hc _ IH]; [done|].
  cbn [length Nat.add app findall_from]. by rewrite run_pattern_nondigit.
Qed.

Lemma digits_are_digits n : Forall (fun c => is_digit c = true) (digits_of_N n).
Proof.
  destruct (digits_of_N_spec n) as (Hds & _ & _).
  eapply Forall_impl; [exact Hds|]. apply ascii_digit_is_digit.
Qed.

Lemma findall_tokens tokens tail fuel :
  Forall (fun t : str * N * char =>
            Forall (fun c => is_digit c = false) t.1.1 /\ unit_letter t.2 = true) tokens ->
  Forall (fun c => is_digit c = false) tail ->
  (length (duration_text tokens tail) < fuel)%nat ->
  findall_from fuel HeistSpree.pattern (duration_text tokens tail)
  = map (fun t : str * N * char => [digits_of_N t.1.2; [t.2]]) tokens.
Proof.
  intros Htok Htail. revert fuel.
  induction Htok as [|[[sep n] u] tokens [Hsep Hu] _ IH]; intros fuel Hfuel.
  - by apply findall_nondigit.
  - cbn [fst snd] in Hsep, Hu.
    cbn [duration_text foldr map fst snd] in *. fold (duration_text tokens tail) in *.
    rewrite !length_app in Hfuel. cbn [length] in Hfuel.
    destruct (digits_of_N_spec n) as (_ & Hne & _).
    replace fuel with (length sep + S (fuel - length sep - 1))%nat by lia.
    rewrite findall_skip by done. cbn [findall_from].
    rewrite run_pattern_token by (done || apply digits_are_digits).
    rewrite length_app. cbn [length].
    replace (length (duration_text tokens tail)
             <? length (digits_of_N n) + S (length (duration_text tokens tail)))%nat
      with true by (symmetry; apply Nat.ltb_lt; lia).
    f_equal. apply IH. lia.
Qed.

Lemma int_of_digits_allowed n :
  digits_allowed int_max_str_digits n ->
  HeistSpree.int_of_digits int_max_str_digits (digits_of_N n) = Ret (Z.of_N n).
Proof.
  intros Hn. unfold HeistSpree.int_of_digits.
  assert ((0 <? int_max_str_digits)%nat && (int_max_str_digits <? length (digits_of_N n))%nat
          = false) as ->.
  { destruct Hn as [-> | Hle]; [done|]. apply andb_false_iff. right. apply Nat.ltb_ge. lia. }
  destruct (digits_of_N_spec n) as (_ & Hne & Hval).
  destruct (digits_of_N n); [done|]. by rewrite Hval.
Qed.

Lemma lower_unit u : unit_letter u = true -> lower [u] = [ascii_lower u].
Proof.
  intros H. apply unit_letter_cases in H.
  destruct H as [-> | [-> | [-> | [-> | [-> | [-> | [-> | ->]]]]]]]; by vm_compute.
Qed.

Lemma add_matches_tokens tokens acc :
  Forall (fun t : str * N * char => unit_letter t.2 = true /\ digits_allowed int_max_str_digits t.1.2) tokens ->
  HeistSpree.add_matches int_max_str_digits
    (map (fun t : str * N * char => [digits_of_N t.1.2; [t.2]]) tokens) acc
  = Ret (acc + duration_seconds tokens)%Z.
Proof.
  intros H. revert acc. induction H as [|[[sep n] u] tokens [Hu Hn] _ IH]; intros acc.
  - cbn. f_equal. lia.
  - cbn [fst snd] in Hu, Hn.
    cbn [map HeistSpree.add_matches fst snd duration_seconds foldr].
    fold (duration_seconds tokens).
    change (group [digits_of_N n; [u]] 1) with (digits_of_N n).
    change (group [digits_of_N n; [u]] 2) with [u].
    rewrite int_of_digits_allowed by done. cbn [bind]. rewrite lower_unit by done.
    rewrite IH. f_equal. unfold seconds_of.
    apply unit_letter_cases in Hu.
    destruct Hu as [-> | [-> | [-> | [-> | [-> | [-> | [-> | ->]]]]]]];
      vm_compute ascii_lower; repeat case_decide; try done; cbn [N.eqb Pos.eqb]; lia.
Qed.

(** X24: a time string made of one or more tokens, each a decimal number
    followed at once by one of the letters s, m, h, d in either case, with
    any digit-free text before, between and after the tokens, is read as
    the sum of the numbers times 1, 60, 3600 and 86400: tokens may come in
    any order and repeat ("1h30m" is 5400). *)
Theorem parse_time_string_sums tokens tail :
  tokens <> [] ->
  Forall (fun t : str * N * char =>
            Forall (fun c => is_digit c = false) t.1.1
            /\ unit_letter t.2 = true /\ digits_allowed int_max_str_digits t.1.2) tokens ->
  Forall (fun c => is_digit c = false) tail ->
  HeistSpree.parse_time_string int_max_str_digits (duration_text tokens tail)
  = Ret (duration_seconds tokens).
Proof.
  intros Hne Htok Htail. unfold HeistSpree.parse_time_string, findall.
  rewrite (findall_tokens tokens tail) by
    (done || lia || (eapply Forall_impl; [exact Htok|]; by intros t (? & ? & ?))).
  destruct tokens as [|t tokens]; [done|]. cbn [map].
  change ([digits_of_N t.1.2; [t.2]] :: map _ tokens)
    with (map (fun t : str * N * char => [digits_of_N t.1.2; [t.2]]) (t :: tokens)).
  rewrite add_matches_tokens.
  - f_equal.
  - eapply Forall_impl; [exact Htok|]. by intros t' (? & ? & ?).
Qed.

Lemma star_greedy_fails {R} p s caps (k : cont (R:=R)) :
  (forall s', suffix s' s -> k s' caps = None) -> star_greedy p s caps k = None.
Proof.
  induction s as [|c s IH]; intros Hk; cbn [star_greedy].
  - by apply Hk.
  - rewrite IH.
    + cbn [or_else]. destruct (p c); by apply Hk.
    + intros s' Hs'. apply Hk. by apply suffix_cons_r.
Qed.

Lemma run_pattern_no_unit {R} s (k : cont (R:=R)) :
  Forall (fun c => unit_class c = false) s -> run HeistSpree.pattern s [] k = None.
Proof.
  intros Hs. unfold HeistSpree.pattern, Plus. cbn [run].
  destruct s as [|c s]; [done|]. destruct (is_digit c); [|done].
  apply star_greedy_fails. intros s' Hs'.
  assert (Forall (fun c => unit_class c = false) s') as Hs''.
  { apply Forall_cons in Hs as [_ Hs]. destruct Hs' as [pre ->].
    by apply Forall_app in Hs as [_ Hs]. }
  destruct Hs'' as [|c' s'' Hc' _]; [done|]. cbn [run]. fold (unit_class c'). by rewrite Hc'.
Qed.

Lemma findall_no_unit fuel s :
  Forall (fun c => unit_class c = false) s -> findall_from fuel HeistSpree.pattern s = [].
Proof.
  revert s. induction fuel as [|fuel IH]; intros s Hs; [done|].
  cbn [findall_from]. rewrite run_pattern_no_unit by done.
  destruct Hs; [done|]. by apply IH.
Qed.

Lemma int_of_digits_nonneg value v :
  HeistSpree.int_of_digits int_max_str_digits value = Ret v -> (0 <= v)%Z.
Proof.
  unfold HeistSpree.int_of_digits. destruct (_ && _); [done|].
  destruct value; [done|]. destruct (digits_value_from _ _); [|done]. intros [= <-]. lia.
Qed.

Lemma add_matches_nonneg matches acc t :
  (0 <= acc)%Z -> HeistSpree.add_matches int_max_str_digits matches acc = Ret t -> (0 <= t)%Z.
Proof.
  revert acc. induction matches as [|m matches IH]; intros acc Hacc; cbn [HeistSpree.add_matches].
  - by intros [= <-].
  - destruct (HeistSpree.int_of_digits _ _) as [v|] eqn:Hv; cbn [bind]; [|done].
    apply int_of_digits_nonneg in Hv. apply IH. repeat case_decide; lia.
Qed.

(** X25: a time string without a digit, or without a character of the
    class of unit letters, raises [ValueError], the empty string among
    them; no exception other than [ValueError] is raised, and a value
    returned is never negative. *)
Theorem parse_time_string_edges time_str :
  (Forall (fun c => is_digit c = false) time_str
   \/ Forall (fun c => unit_class c = false) time_str ->
   HeistSpree.parse_time_string int_max_str_digits time_str = Raise ValueError)
  /\ (forall e, HeistSpree.parse_time_string int_max_str_digits time_str = Raise e ->
        e = ValueError)
  /\ (forall t, HeistSpree.parse_time_string int_max_str_digits time_str = Ret t -> (0 <= t)%Z).
Proof.
  unfold HeistSpree.parse_time_string, findall. split; [|split].
  - intros [H|H]; [by rewrite findall_nondigit | by rewrite findall_no_unit].
  - intros e. destruct (findall_from _ _ _) as [|m ms]; [by intros [= <-]|].
    generalize (m :: ms) 0%Z. intros matches.
    induction matches as [|m' matches IH]; intros acc; cbn [HeistSpree.add_matches]; [done|].
    destruct (HeistSpree.int_of_digits _ _) as [v|e'] eqn:Hv; cbn [bind]; [apply IH|].
    intros [= <-]. revert Hv. unfold HeistSpree.int_of_digits.
    destruct (_ && _); [by intros [= <-]|].
    destruct (group m' 1); [by intros [= <-]|]. destruct (digits_value_from _ _); [done|].
    by intros [= <-].
  - intros t. destruct (findall_from _ _ _) as [|m ms]; [done|].
    by apply add_matches_nonneg.
Qed.

End TimeStrings.

Lemma parse_time_string_sums_witness :
  HeistSpree.parse_time_string (U:=ascii_tables) 4300 (lit "1h30m") = Ret 5400%Z.
Proof.
  exact (parse_time_string_sums (U:=ascii_tables) 4300 [([], 1%N, 104%N); ([], 30%N, 109%N)] []
           ltac:(discriminate)
           ltac:(repeat (apply List.Forall_cons;
                           [split; [apply List.Forall_nil
                                   | split; [reflexivity | right; vm_compute; lia]]|]);
                 apply List.Forall_nil)
           (List.Forall_nil _)).
Defined.

Lemma parse_time_string_edges_witness :
  HeistSpree.parse_time_string (U:=ascii_tables) 4300 (lit "soon") = Raise ValueError.
Proof.
  pose proof (parse_time_string_edges (U:=ascii_tables) 4300 (lit "soon")) as [H _].
  apply H. left. repeat constructor.
Defined.

Section IconCache.
Context {image : Type}.
Variable blank : image.
Variable imdecode : list Z -> option image.

Lemma fetch_hit (cache : gmap Z (image * Z)) now g resp icon timestamp :
  cache !! HeistCalc.guild_ident g = Some (icon, timestamp) ->
  (now - timestamp < 600 * 1000000)%Z ->
  HeistCalc.fetch_server_icon blank imdecode cache now g resp
  = (cache, ([{| HeistCalc.lvl := HeistCalc.DEBUG;
                 HeistCalc.fmt := "Using cached icon for guild %s";
                 HeistCalc.args := [HeistCalc.ArgInt (HeistCalc.guild_ident g)] |}], icon)).
Proof.
  intros Hc Ht. unfold HeistCalc.fetch_server_icon, HeistCalc.icon_cache. cbn zeta. rewrite Hc.
  by replace (now - timestamp <? 600 * 1000000)%Z with true by lia.
Qed.

Lemma fetch_miss (cache : gmap Z (image * Z)) now g resp :
  stale cache now (HeistCalc.guild_ident g) ->
  (HeistCalc.fetch_server_icon blank imdecode cache now g resp).1
  = <[HeistCalc.guild_ident g := (fetched_icon blank imdecode g resp, now)]> cache
  /\ (HeistCalc.fetch_server_icon blank imdecode cache now g resp).2.2 = fetched_icon blank imdecode g resp.
Proof.
  intros Hs. unfold HeistCalc.fetch_server_icon, HeistCalc.icon_cache, fetched_icon, stale in *.
  cbn zeta.
  assert (match cache !! HeistCalc.guild_ident g with
          | Some (icon, timestamp) =>
              if (now - timestamp <? 600 * 1000000)%Z then Some icon else None
          | None => None
          end = None) as ->.
  { destruct (cache !! HeistCalc.guild_ident g) as [[icon ts]|]; [|done].
    by replace (now - ts <? 600 * 1000000)%Z with false by lia. }
  destruct (HeistCalc.guild_icon_url g) as [[|c url]|]; [done| |done].
  destruct resp as [text|status data]; [done|].
  destruct (Z.eqb_spec status 200) as [->|Hne]; cbn [negb].
  - by destruct (imdecode data).
  - destruct status as [|p|p]; try done.
    repeat (destruct p as [p|p|]; try done).
Qed.

(** X26: whatever the cache, the time and the response, after
    [fetch_server_icon] the cache holds for the guild the icon just
    returned, stored less than ten minutes before the call; and every
    later call for that guild made less than ten minutes after the entry
    was stored returns that same icon, whatever the response would be, and
    leaves the cache as it is. *)
Theorem icon_is_served_from_cache (cache : gmap Z (image * Z)) now g resp :
  let after := (HeistCalc.fetch_server_icon blank imdecode cache now g resp).1 in
  let icon := (HeistCalc.fetch_server_icon blank imdecode cache now g resp).2.2 in
  exists timestamp,
    after !! HeistCalc.guild_ident g = Some (icon, timestamp)
    /\ (now - timestamp < 600 * 1000000)%Z
    /\ forall later g' resp',
         HeistCalc.guild_ident g' = HeistCalc.guild_ident g ->
         (later - timestamp < 600 * 1000000)%Z ->
         (HeistCalc.fetch_server_icon blank imdecode after later g' resp').1 = after
         /\ (HeistCalc.fetch_server_icon blank imdecode after later g' resp').2.2 = icon.
Proof.
  cbn zeta.
  assert (forall (c : gmap Z (image * Z)) icon ts,
            c !! HeistCalc.guild_ident g = Some (icon, ts) ->
            forall later g' resp',
              HeistCalc.guild_ident g' = HeistCalc.guild_ident g ->
              (later - ts < 600 * 1000000)%Z ->
              (HeistCalc.fetch_server_icon blank imdecode c later g' resp').1 = c
              /\ (HeistCalc.fetch_server_icon blank imdecode c later g' resp').2.2 = icon)
    as Hagain.
  { intros c icon ts Hc later g' resp' Hg Hl. rewrite <- Hg in Hc.
    by rewrite (fetch_hit c later g' resp' icon ts). }
  destruct (cache !! HeistCalc.guild_ident g) as [[icon ts]|] eqn:Hc.
  - destruct (Z.ltb_spec (now - ts) (600 * 1000000)) as [Hfresh|Hold].
    + rewrite (fetch_hit cache now g resp icon ts) by done. cbn [fst snd].
      exists ts. split; [done|]. split; [done|]. by apply Hagain.
    + destruct (fetch_miss cache now g resp) as [-> ->].
      { unfold stale. by rewrite Hc. }
      exists now. split; [unfold HeistCalc.icon_cache; apply lookup_insert_eq|]. split; [lia|].
      apply Hagain. apply lookup_insert_eq.
  - destruct (fetch_miss cache now g resp) as [-> ->].
    { unfold stale. by rewrite Hc. }
    exists now. split; [unfold HeistCalc.icon_cache; apply lookup_insert_eq|]. split; [lia|].
    apply Hagain. apply lookup_insert_eq.
Qed.

(** X27: when the cache has no entry for the guild less than ten minutes
    old, [fetch_server_icon] returns and stores, with the time of the
    call, the decoded image if the guild has an icon, the response has
    status 200 and its data decodes, and the grey image in every other
    case, so that a failed request is remembered like an icon;
    [refresh_icon_cache] does the same whatever the age of the entry. *)
Theorem icon_request_outcome (cache : gmap Z (image * Z)) now g resp :
  (stale cache now (HeistCalc.guild_ident g) ->
   (HeistCalc.fetch_server_icon blank imdecode cache now g resp).1
   = <[HeistCalc.guild_ident g := (fetched_icon blank imdecode g resp, now)]> cache
   /\ (HeistCalc.fetch_server_icon blank imdecode cache now g resp).2.2 = fetched_icon blank imdecode g resp)
  /\ (HeistCalc.refresh_icon_cache blank imdecode cache now g resp).1
     = <[HeistCalc.guild_ident g := (fetched_icon blank imdecode g resp, now)]> cache.
Proof.
  split; [apply fetch_miss|].
  unfold HeistCalc.refresh_icon_cache. cbn zeta.
  destruct (fetch_miss (delete (HeistCalc.guild_ident g) cache) now g resp) as [H1 _].
  { unfold stale. by rewrite lookup_delete_eq. }
  destruct (HeistCalc.fetch_server_icon _ _ _ _ _ _) as [c [l i]]. cbn [fst] in *.
  rewrite H1. unfold HeistCalc.icon_cache. apply insert_delete_eq.
Qed.

End IconCache.

Lemma icon_request_outcome_witness :
  (HeistCalc.fetch_server_icon (image:=nat) 0%nat (fun data => Some (length data)) ∅ 5
     {| HeistCalc.guild_ident := 1; HeistCalc.guild_icon_url := Some (lit "https://cdn/icon.png") |}
     (HeistCalc.Status 404 [])).2.2 = 0%nat.
Proof.
  pose proof (icon_request_outcome (image:=nat) 0%nat (fun data => Some (length data)) ∅ 5
                {| HeistCalc.guild_ident := 1;
                   HeistCalc.guild_icon_url := Some (lit "https://cdn/icon.png") |}
                (HeistCalc.Status 404 [])) as [H _].
  destruct (H ltac:(exact I)) as [_ H2]. exact H2.
Defined.

Section Canonical.
Context {U : UnicodeData}.

Lemma re_search_hit r s caps : re_match r s = Some caps -> re_search r s = Some caps.
Proof. intros H. destruct s; cbn [re_search]; by rewrite H. Qed.

Lemma re_search_skip r c s : re_match r (c :: s) = None -> re_search r (c :: s) = re_search r s.
Proof. intros H. cbn [re_search]. by rewrite H. Qed.

Lemma imatch_self c : is_ascii c = true -> imatch c c = true.
Proof. intros H. unfold imatch. rewrite H. apply N.eqb_refl. Qed.

Lemma run_literal_self {R} l s caps (k : cont (R:=R)) :
  Forall (fun c => is_ascii c = true) l ->
  run (literal imatch l) (l ++ s) caps k = k s caps.
Proof.
  induction 1 as [|c l Hc _ IH]; [done|].
  cbn [literal run app]. by rewrite imatch_self.
Qed.

Lemma run_star_lazy {R} p s caps (k : cont (R:=R)) :
  run (Star false p) s caps k = star_lazy p s caps k.
Proof. reflexivity. Qed.

Lemma run_star_greedy {R} p s caps (k : cont (R:=R)) :
  run (Star true p) s caps k = star_greedy p s caps k.
Proof. reflexivity. Qed.

Lemma run_chr {R} p c s caps (k : cont (R:=R)) :
  run (Chr p) (c :: s) caps k = if p c then k s caps else None.
Proof. reflexivity. Qed.

Lemma run_eps {R} s caps (k : cont (R:=R)) : run Eps s caps k = k s caps.
Proof. reflexivity. Qed.

Lemma star_lazy_skip {R} p q r2 pre s caps (k : cont (R:=R)) :
  Forall (fun c => p c = true /\ q c = false) pre ->
  star_lazy p (pre ++ s) caps (fun s' caps' => run (Cat (Chr q) r2) s' caps' k)
  = star_lazy p s caps (fun s' caps' => run (Cat (Chr q) r2) s' caps' k).
Proof.
  induction 1 as [|c pre [Hp Hq] _ IH]; [done|].
  cbn [app]. rewrite <- IH. cbn [star_lazy or_else]. rewrite run_cat, run_chr, Hq, Hp. done.
Qed.

Lemma star_lazy_now {R} p s caps (k : cont (R:=R)) r :
  k s caps = Some r -> star_lazy p s caps k = Some r.
Proof. intros H. destruct s; cbn [star_lazy]; by rewrite H. Qed.

Lemma re_match_total_line token rest :
  token <> [] -> Forall (fun c => total_class c = true) token -> stops total_class rest ->
  stops is_space (token ++ rest) ->
  re_match HeistSummary.total_pattern
    (lit "racked up a total" ++ lit " of " ++ [glyph] ++ [32%N] ++ token ++ rest)
  = Some [token].
Proof.
  intros Hne Htok Hrest Hsp. unfold re_match, HeistSummary.total_pattern, seq. cbn [foldr].
  rewrite run_cat, run_literal_self by (by vm_compute; repeat constructor).
  rewrite run_cat, run_star_lazy.
  rewrite (star_lazy_skip _ (imatch glyph) _ (lit " of ")) by (by repeat constructor).
  apply star_lazy_now. cbn [app]. rewrite run_cat, run_chr.
  assert (imatch glyph glyph = true) as -> by reflexivity.
  rewrite run_cat, run_star_greedy.
  apply (star_greedy_max is_space [32%N] (token ++ rest)); [by repeat constructor|done|].
  rewrite run_cat.
  apply (run_group_plus_max _ token rest); try done.
Qed.

Lemma re_match_total_first c s :
  imatch 114%N c = false -> re_match HeistSummary.total_pattern (c :: s) = None.
Proof.
  intros Hc. unfold re_match, HeistSummary.total_pattern, seq. cbn [foldr].
  rewrite run_cat. change (lit "racked up a total") with (114%N :: lit "acked up a total").
  cbn [literal]. by rewrite run_cat, run_chr, Hc.
Qed.

Lemma re_search_total_skip pre s :
  Forall (fun c => imatch 114%N c = false) pre ->
  re_search HeistSummary.total_pattern (pre ++ s) = re_search HeistSummary.total_pattern s.
Proof.
  induction 1 as [|c pre Hc _ IH]; [done|].
  cbn [app]. by rewrite re_search_skip by (by apply re_match_total_first).
Qed.

Lemma re_match_count_first c s :
  count_class c = false -> re_match HeistSummary.count_pattern (c :: s) = None.
Proof.
  intros Hc. unfold re_match, HeistSummary.count_pattern, seq. cbn [foldr].
  rewrite run_cat. apply run_group_plus_fail. exact Hc.
Qed.

Lemma re_match_count_no_space s :
  Forall (fun c => is_space c = false) s -> re_match HeistSummary.count_pattern s = None.
Proof.
  intros Hs. unfold re_match, HeistSummary.count_pattern, seq. cbn [foldr].
  rewrite run_cat. unfold Plus at 1. destruct s as [|c s]; [done|].
  cbn [run]. destruct (_ || _); [|done].
  apply star_greedy_fails. intros s' [pre Hs'].
  assert (Forall (fun c => is_space c = false) s') as Hsp.
  { apply Forall_cons in Hs as [_ Hs]. rewrite Hs' in Hs. by apply Forall_app in Hs as [_ ?]. }
  destruct Hsp as [|c' s'' Hc' _]; [done|]. unfold Plus. cbn [run]. by rewrite Hc'.
Qed.

Lemma re_search_count_none pre tok :
  Forall (fun c => count_class c = false) pre ->
  Forall (fun c => is_space c = false) tok ->
  re_search HeistSummary.count_pattern (pre ++ tok) = None.
Proof.
  intros Hpre Htok. induction Hpre as [|c pre Hc _ IH].
  - cbn [app]. induction Htok as [|c tok Hc Htok IH].
    + cbn [re_search]. by rewrite re_match_count_no_space.
    + cbn [re_search]. rewrite re_match_count_no_space; [done|]. by constructor.
  - cbn [app]. by rewrite re_search_skip by (by apply re_match_count_first).
Qed.

Lemma strip_ends c s d :
  is_space c = false -> is_space d = false -> strip (c :: s ++ [d]) = c :: s ++ [d].
Proof.
  intros Hc Hd. unfold strip. rewrite lstrip_by_head by done.
  change (c :: s ++ [d]) with ((c :: s) ++ [d]). by apply rstrip_by_last.
Qed.

Lemma splitlines_from_line cur a rest :
  Forall (fun c => is_linebreak c = false) a ->
  splitlines_from cur (a ++ rest) = splitlines_from (rev a ++ cur) rest.
Proof.
  intros Ha. revert cur. induction Ha as [|c a Hc _ IH]; intros cur; [done|].
  cbn [app splitlines_from]. rewrite Hc, IH. cbn [rev]. by rewrite <- app_assoc.
Qed.

Lemma splitlines_two a b :
  Forall (fun c => is_linebreak c = false) a -> Forall (fun c => is_linebreak c = false) b ->
  b <> [] -> splitlines (a ++ 10%N :: b) = [a; b].
Proof.
  intros Ha Hb Hne. unfold splitlines. rewrite splitlines_from_line by done.
  rewrite app_nil_r. cbn [splitlines_from]. change (is_linebreak 10%N) with true. cbv iota.
  rewrite rev_involutive. f_equal. destruct b as [|c b]; [done|].
  change ((10 =? 13)%N && (c =? 10)%N) with false. cbv iota.
  rewrite <- (app_nil_r (c :: b)), splitlines_from_line by done.
  rewrite !app_nil_r. cbn [splitlines_from]. destruct (rev (c :: b)) eqn:Hr.
  - apply (f_equal (@length _)) in Hr. rewrite length_rev in Hr. done.
  - rewrite <- Hr. by rewrite rev_involutive.
Qed.

Lemma filter_all {A} (P : A -> Prop) `{forall x, Decision (P x)} (l : list A) :
  Forall P l -> filter P l = l.
Proof.
  induction 1 as [|x l Hx _ IH]; [done|]. by rewrite filter_cons, decide_True, IH.
Qed.

Lemma snoc_cases {A} (l : list A) : l <> [] -> exists b d, l = b ++ [d].
Proof.
  intros Hne. destruct (rev l) as [|d r] eqn:Hr.
  - apply (f_equal (@length _)) in Hr. rewrite length_rev in Hr. by destruct l.
  - exists (rev r), d. by rewrite <- (rev_involutive l), Hr.
Qed.

Lemma clean_line_plain c s d :
  Forall (fun x => mem_char (lit "`*") x = false) (c :: s ++ [d]) ->
  is_space c = false -> is_space d = false ->
  clean_line (c :: s ++ [d]) = c :: s ++ [d].
Proof.
  intros Hm Hc Hd. unfold clean_line.
  rewrite re_sub_plus_removes, (filter_all _ (c :: s ++ [d])) by done.
  by apply strip_ends.
Qed.

Lemma grouped_digits_chars n :
  Forall (fun c => is_ascii_digit c = true \/ c = 44%N) (group3 (digits_of_N n)).
Proof.
  destruct (digits_of_N_spec n) as (Hds & _ & _).
  apply group3_Forall; [by right|]. eapply Forall_impl; [exact Hds|]. by left.
Qed.

Lemma grouped_digits_nonempty n : group3 (digits_of_N n) <> [].
Proof.
  destruct (digits_of_N_spec n) as (_ & Hne & _). unfold group3. intros H.
  apply (f_equal (@rev _)) in H. rewrite rev_involutive in H. cbn [rev] in H.
  destruct (rev (digits_of_N n)) as [|a [|b [|c [|d r]]]] eqn:Hr; try done.
  apply (f_equal (@length _)) in Hr. rewrite length_rev in Hr. by destruct (digits_of_N n).
Qed.

Lemma digit_or_comma_facts c :
  is_ascii_digit c = true \/ c = 44%N ->
  total_class c = true /\ is_space c = false /\ is_linebreak c = false
  /\ mem_char (lit "`*") c = false /\ imatch 114%N c = false
  /\ (is_ascii_digit c = true -> count_class c = true).
Proof.
  intros [Hc | ->].
  - pose proof (ascii_digit_is_digit c Hc) as Hd. apply ascii_digit_bounds in Hc.
    unfold total_class, count_class. rewrite Hd. cbn [orb].
    assert (c = 48 \/ c = 49 \/ c = 50 \/ c = 51 \/ c = 52 \/ c = 53 \/ c = 54 \/ c = 55
            \/ c = 56 \/ c = 57)%N as Hcases by lia.
    destruct Hcases as [-> | [-> | [-> | [-> | [-> | [-> | [-> | [-> | [-> | ->]]]]]]]]];
      by vm_compute.
  - unfold total_class. split; [|by vm_compute].
    rewrite !orb_true_iff. by left; left; left; left; right.
Qed.

Lemma Forall_false_forallb {A} (f : A -> bool) l :
  forallb (fun c => negb (f c)) l = true -> Forall (fun c => f c = false) l.
Proof.
  intros H. apply Forall_forall. intros x Hx%list_elem_of_In.
  rewrite forallb_forall in H. apply negb_true_iff. by apply H.
Qed.

Lemma re_match_total_second c s :
  imatch 97%N c = false -> re_match HeistSummary.total_pattern (114%N :: c :: s) = None.
Proof.
  intros Hc. unfold re_match, HeistSummary.total_pattern, seq. cbn [foldr].
  rewrite run_cat. change (lit "racked up a total") with (114%N :: 97%N :: lit "cked up a total").
  cbn [literal]. rewrite run_cat, run_chr. change (imatch 114%N 114%N) with true. cbv iota.
  by rewrite run_cat, run_chr, Hc.
Qed.

Lemma contains_prefix p s : contains p (p ++ s) = true.
Proof. pose proof (prefix_b_app p s) as H. destruct (p ++ s); cbn [contains]; by rewrite H. Qed.

Lemma lower_from_ascii before pre rest :
  Forall (fun c => is_ascii c = true) pre ->
  lower_from before (pre ++ rest) = map ascii_lower pre ++ lower_from (rev pre ++ before) rest.
Proof.
  intros Hpre. revert before. induction Hpre as [|c pre Hc _ IH]; intros before; [done|].
  cbn [app lower_from map rev]. unfold lower_char. rewrite Hc, IH. cbn [app].
  by rewrite <- app_assoc.
Qed.

Section Lines.
Variables total count : N.

Lemma total_line_shape :
  exists s d, payout_line_total total = 65%N :: s ++ [d] /\ is_space d = false.
Proof.
  destruct (snoc_cases _ (grouped_digits_nonempty total)) as (b & d & Hb).
  exists (lit "mazing job everybody! You racked up a total of " ++ [glyph] ++ lit " " ++ b), d.
  split.
  - unfold payout_line_total. rewrite Hb.
    change (lit "Amazing job everybody! You racked up a total of ")
      with (65%N :: lit "mazing job everybody! You racked up a total of ").
    reflexivity.
  - pose proof (grouped_digits_chars total) as H. rewrite Hb in H.
    apply Forall_app in H as [_ H]. apply Forall_cons in H as [H _].
    by apply digit_or_comma_facts in H as (_ & ? & _).
Qed.

Lemma total_line_plain :
  Forall (fun x => mem_char (lit "`*") x = false) (payout_line_total total)
  /\ Forall (fun x => is_linebreak x = false) (payout_line_total total).
Proof.
  unfold payout_line_total. rewrite !app_assoc. split.
  - apply Forall_app. split; [by apply Forall_false_forallb|].
    eapply Forall_impl; [apply grouped_digits_chars|].
    intros c Hc. by apply digit_or_comma_facts in Hc as (_ & _ & _ & ? & _).
  - apply Forall_app. split; [by apply Forall_false_forallb|].
    eapply Forall_impl; [apply grouped_digits_chars|].
    intros c Hc. by apply digit_or_comma_facts in Hc as (_ & _ & ? & _).
Qed.

Lemma total_line_clean : clean_line (payout_line_total total) = payout_line_total total.
Proof.
  destruct total_line_shape as (s & d & Hs & Hd). destruct total_line_plain as [Hm _].
  rewrite Hs in *. by apply clean_line_plain.
Qed.

Lemma total_token_total_line :
  total_token (payout_line_total total) = Some (group3 (digits_of_N total)).
Proof.
  unfold total_token. rewrite total_line_clean. unfold payout_line_total.
  pose proof (grouped_digits_nonempty total) as Hne.
  pose proof (grouped_digits_chars total) as Hcs.
  set (tok := group3 (digits_of_N total)) in *. clearbody tok.
  change (lit "Amazing job everybody! You racked up a total of " ++ [glyph] ++ lit " " ++ tok)
    with (lit "Amazing job eve" ++ 114%N :: lit "ybody! You "
            ++ lit "racked up a total" ++ lit " of " ++ [glyph] ++ [32%N] ++ tok).
  rewrite re_search_total_skip by (by apply Forall_false_forallb).
  rewrite re_search_skip by (by apply re_match_total_second).
  rewrite re_search_total_skip by (by apply Forall_false_forallb).
  rewrite (re_search_hit _ _ [tok]); [done|].
  assert (Forall (fun c => total_class c = true) tok) as Hcls.
  { eapply Forall_impl; [exact Hcs|]. intros c Hc. by apply digit_or_comma_facts in Hc as (? & _). }
  assert (stops is_space (tok ++ [])) as Hsp.
  { destruct Hcs as [|c tok' Hc _]; [done|]. cbn [app stops].
    by apply digit_or_comma_facts in Hc as (_ & ? & _). }
  pose proof (re_match_total_line tok [] Hne Hcls I Hsp) as H.
  by rewrite app_nil_r in H.
Qed.

Lemma count_token_total_line : count_token (payout_line_total total) = None.
Proof.
  unfold count_token. rewrite total_line_clean. unfold payout_line_total.
  rewrite !app_assoc, re_search_count_none; [done| |].
  - by apply Forall_false_forallb.
  - eapply Forall_impl; [apply grouped_digits_chars|].
    intros c Hc. by apply digit_or_comma_facts in Hc as (_ & ? & _).
Qed.

Lemma count_digits_chars :
  Forall (fun c => is_ascii_digit c = true \/ c = 44%N) (digits_of_N count).
Proof.
  destruct (digits_of_N_spec count) as (Hds & _ & _).
  eapply Forall_impl; [exact Hds|]. by left.
Qed.

Lemma count_line_shape :
  exists c s, payout_line_count count = c :: s ++ [116%N] /\ is_space c = false.
Proof.
  destruct (digits_of_N_spec count) as (_ & Hne & _). pose proof count_digits_chars as Hcs.
  unfold payout_line_count. destruct (digits_of_N count) as [|c ds]; [done|].
  exists c, (ds ++ lit " users got the payou"). split.
  - change (lit " users got the payout") with (lit " users got the payou" ++ [116%N]).
    cbn [app]. f_equal. by rewrite app_assoc.
  - apply Forall_cons in Hcs as [Hc _]. by apply digit_or_comma_facts in Hc as (_ & ? & _).
Qed.

Lemma count_line_plain :
  Forall (fun x => mem_char (lit "`*") x = false) (payout_line_count count)
  /\ Forall (fun x => is_linebreak x = false) (payout_line_count count).
Proof.
  unfold payout_line_count. split.
  - apply Forall_app. split; [|by apply Forall_false_forallb].
    eapply Forall_impl; [apply count_digits_chars|].
    intros c Hc. by apply digit_or_comma_facts in Hc as (_ & _ & _ & ? & _).
  - apply Forall_app. split; [|by apply Forall_false_forallb].
    eapply Forall_impl; [apply count_digits_chars|].
    intros c Hc. by apply digit_or_comma_facts in Hc as (_ & _ & ? & _).
Qed.

Lemma count_line_clean : clean_line (payout_line_count count) = payout_line_count count.
Proof.
  destruct count_line_shape as (c & s & Hs & Hc). destruct count_line_plain as [Hm _].
  rewrite Hs in *. by apply clean_line_plain.
Qed.

Lemma total_token_count_line : total_token (payout_line_count count) = None.
Proof.
  unfold total_token. rewrite count_line_clean. unfold payout_line_count.
  rewrite re_search_total_skip; [by vm_compute|].
  eapply Forall_impl; [apply count_digits_chars|].
  intros c Hc. by apply digit_or_comma_facts in Hc as (_ & _ & _ & _ & ? & _).
Qed.

Lemma count_token_count_line : count_token (payout_line_count count) = Some (digits_of_N count).
Proof.
  unfold count_token. rewrite count_line_clean. unfold payout_line_count.
  destruct (digits_of_N_spec count) as (Hds & Hne & _).
  set (tok := digits_of_N count) in *. clearbody tok.
  rewrite (re_search_hit _ _ [tok]); [done|].
  unfold re_match, HeistSummary.count_pattern, seq. cbn [foldr]. rewrite run_cat.
  apply (run_group_plus_max _ tok (lit " users got the payout")); [done| |done|by vm_compute].
  eapply Forall_impl; [exact Hds|]. intros c Hc.
  by apply (digit_or_comma_facts c (or_introl Hc)).
Qed.

Lemma whole_parses n :
  HeistSummary.parse_plain_number (digits_of_N n) = Ret (Some (float_of_Q (Z.of_N n # 1)))
  /\ HeistSummary.parse_currency_value (glyph :: lit " " ++ group3 (digits_of_N n))
     = Ret (Some (float_of_Q (Z.of_N n # 1))).
Proof.
  destruct (digits_of_N_spec n) as (Hds & Hne & Hval).
  pose proof (py_float_integer _ _ Hds Hne Hval) as Hfl.
  assert (Forall (fun c => num_class c = true) (digits_of_N n)) as Hcls.
  { eapply Forall_impl; [exact Hds|]. intros c Hc. apply ascii_numeric_class. by left. }
  split.
  - apply (parse_plain_number_literal _ (digits_of_N n) []); try done.
    rewrite app_nil_r. apply ascii_numeric_plain_cleaned. by apply ascii_digits_numeric.
  - rewrite (parse_currency_value_literal _ (digits_of_N n) [] (float_of_Q (Z.of_N n # 1)));
      try done.
    by rewrite digits_currency_cleaned, app_nil_r.
Qed.

Lemma scan_payout_lines :
  (count < 2 ^ 53)%N ->
  HeistSummary.scan_lines [payout_line_total total; payout_line_count count] None 0
  = Ret (Some (float_of_Q (Z.of_N total # 1)), Z.of_N count).
Proof.
  intros Hc. destruct (float_of_whole count Hc) as (_ & Hint & _).
  destruct (whole_parses total) as [_ Ht]. destruct (whole_parses count) as [Hn _].
  cbn [HeistSummary.scan_lines]. rewrite !scan_line_spec.
  unfold parsed_count, parsed_total.
  rewrite count_token_total_line, total_token_total_line.
  cbn [mbind option_bind]. rewrite Ht. cbn [parsed keep_or bind].
  rewrite scan_line_spec. unfold parsed_count, parsed_total.
  rewrite count_token_count_line, total_token_count_line.
  cbn [mbind option_bind]. rewrite Hn. cbn [parsed keep_or bind]. by rewrite Hint.
Qed.

Lemma payout_content_lines :
  strip (payout_content total count) = payout_content total count
  /\ splitlines (payout_content total count) = [payout_line_total total; payout_line_count count]
  /\ contains phrase (lower (payout_content total count)) = true.
Proof.
  destruct total_line_shape as (s & d & Hs & _). destruct count_line_shape as (c & s' & Hs' & _).
  destruct total_line_plain as [_ Hl]. destruct count_line_plain as [_ Hl'].
  split; [|split].
  - unfold payout_content. rewrite Hs, Hs'.
    change ((65%N :: s ++ [d]) ++ 10%N :: c :: s' ++ [116%N])
      with (65%N :: (s ++ [d]) ++ (10%N :: c :: s') ++ [116%N]).
    rewrite (app_assoc (s ++ [d])). by apply strip_ends.
  - apply splitlines_two; [done..|]. by rewrite Hs'.
  - unfold payout_content, payout_line_total.
    change (lit "Amazing job everybody! You racked up a total of ")
      with (lit "Amazing job everybody" ++ lit "! You racked up a total of ").
    rewrite <- !app_assoc. unfold lower.
    rewrite lower_from_ascii by (by apply Forall_forall; intros x Hx%list_elem_of_In;
      revert x Hx; apply forallb_forall).
    change (map ascii_lower (lit "Amazing job everybody")) with phrase.
    apply contains_prefix.
Qed.

End Lines.

(** X28: a message of Dank Memer without embeds whose text is the payout
    announcement, "Amazing job everybody! You racked up a total of", the
    glyph, a whole total with thousands separators, and on the next line
    the count and "users got the payout", is detected with exactly these
    numbers: the total held by the float and the count, both below 2^53.
    An announcement for no user at all is not a detection. *)
Theorem payout_announcement_is_detected msg total count :
  author_id msg = HeistSummary.DANK_MEMER_ID -> embeds msg = [] ->
  content msg = payout_content total count ->
  (total < 2 ^ 53)%N -> (count < 2 ^ 53)%N ->
  exists v q,
    value v = Some q /\ (q == inject_Z (Z.of_N total))%Q
    /\ detect msg = Ret (if (count =? 0)%N then None else Some (msg, v, Z.of_N count)).
Proof.
  intros Ha He Hc Ht Hn. destruct (float_of_whole total Ht) as (_ & _ & q & Hq & Heq).
  exists (float_of_Q (Z.of_N total # 1)), q. split; [done|]. split; [done|].
  destruct (payout_content_lines total count) as (Hstrip & Hlines & Hphrase).
  assert (HeistSummary.combined_content msg = payout_content total count) as Hcc.
  { unfold HeistSummary.combined_content. by rewrite He. }
  unfold detect. rewrite scan_message_qualified.
  - unfold message_lines. rewrite Hcc, Hstrip, Hlines, scan_payout_lines by done.
    cbn [bind]. destruct (N.eqb_spec count 0) as [->|Hpos]; [done|].
    by replace (Z.of_N count >? 0)%Z with true by (symmetry; apply Z.gtb_lt; lia).
  - unfold qualifies. rewrite Ha, Z.eqb_refl, Hcc. exact Hphrase.
Qed.

End Canonical.

Lemma payout_announcement_is_detected_witness :
  exists v q,
    value v = Some q /\ (q == inject_Z 1000)%Q
    /\ detect (U:=ascii_tables) (dank 9 (payout_text "1,000" "2") [])
       = Ret (Some (dank 9 (payout_text "1,000" "2") [], v, 2%Z)).
Proof.
  exact (payout_announcement_is_detected (U:=ascii_tables)
           (dank 9 (payout_text "1,000" "2") []) 1000 2
           ltac:(reflexivity) ltac:(reflexivity) ltac:(vm_compute; reflexivity)
           ltac:(vm_compute; reflexivity) ltac:(vm_compute; reflexivity)).
Defined.
